(** * rf_signal_monitor: the browser-side device tracker of static/script.js

    A shallow embedding of the dashboard script: the module-level variables
    become one [State] record, every handler becomes a function from states
    to states.  Timestamps are milliseconds since the epoch ([Z], what
    [new Date(s) - 0] yields), signal powers are rationals (the comparator of
    the device list only looks at the sign of a difference of two doubles,
    which is the sign of the exact difference), coordinates and distances are
    real numbers. *)

From Stdlib Require Import ZArith QArith Reals Lqa Lra Lia List Sorted Permutation.
From stdpp Require Import base gmap strings list.

Local Open Scope Z_scope.

(** ** Data model *)

(** [device.location] arrives either as [{lat, lng}] or as
    [{latitude, longitude}]; both shapes carry numeric coordinates. *)
Inductive Location : Type :=
  | LatLng (lat lng : R)
  | LatitudeLongitude (latitude longitude : R).

(** A device object of [data.devices].  [last_seen] is the value of
    [new Date(device.last_seen)] in milliseconds, [None] for an invalid date;
    [power] and [location] are [None] when the property is absent;
    [whitelisted] and [isActive] are read for truthiness only, so absent is
    [false]; [insideGeofence] is compared with [=== false], so it keeps its
    three values.  Properties that are only printed ([frequency],
    [frequency_mhz], [manufacturer], [band], ...) are left out. *)
Record Device : Type := mkDevice {
  id : string;
  name : string;
  type : string;
  power : option Q;
  last_seen : option Z;
  location : option Location;
  whitelisted : bool;
  isActive : bool;
  insideGeofence : option bool
}.

Definition set_isActive (b : bool) (d : Device) : Device :=
  mkDevice (id d) (name d) (type d) (power d) (last_seen d) (location d)
           (whitelisted d) b (insideGeofence d).

Definition set_insideGeofence (b : bool) (d : Device) : Device :=
  mkDevice (id d) (name d) (type d) (power d) (last_seen d) (location d)
           (whitelisted d) (isActive d) (Some b).

Definition set_whitelisted (b : bool) (d : Device) : Device :=
  mkDevice (id d) (name d) (type d) (power d) (last_seen d) (location d)
           b (isActive d) (insideGeofence d).

Definition set_name_type (n t : string) (d : Device) : Device :=
  mkDevice (id d) n t (power d) (last_seen d) (location d)
           (whitelisted d) (isActive d) (insideGeofence d).

Definition set_location (l : Location) (d : Device) : Device :=
  mkDevice (id d) (name d) (type d) (power d) (last_seen d) (Some l)
           (whitelisted d) (isActive d) (insideGeofence d).

(** ** Activity tracking ([deviceStatus]) *)

(** [deviceStatus = { active: {}, inactive: {} }]: two objects keyed by device
    id.  The values are the device objects themselves, shared with
    [currentDevices]; the script only ever counts the keys and tests
    membership, so the maps here hold the record as it was when assigned.
    A plain object is a finite map of its own keys for every name but
    [__proto__], which names its prototype: [activePrototype] and
    [inactivePrototype] are the devices that an assignment under that name
    has put in the place of [Object.prototype], if any. *)
Record DeviceStatus : Type := mkStatus {
  active : gmap string Device;
  inactive : gmap string Device;
  activePrototype : option Device;
  inactivePrototype : option Device
}.

(** [object[key] = device] on one of the two objects: the device becomes the
    value of the own key [key], except under [__proto__], where it becomes
    the prototype and the object gets no key. *)
Definition setKey (key : string) (device : Device) (object : gmap string Device)
    : gmap string Device :=
  if bool_decide (key = "__proto__"%string) then object
  else <[key := device]> object.

Definition setPrototype (key : string) (device : Device) (prototype : option Device)
    : option Device :=
  if bool_decide (key = "__proto__"%string) then Some device else prototype.

(** [delete object[key]]: the own key goes.  Under [__proto__] an object
    that was filled by assignments has no own key, and nothing is removed. *)
Definition removeKey (key : string) (object : gmap string Device)
    : gmap string Device :=
  if bool_decide (key = "__proto__"%string) then object else delete key object.

(** [now - lastSeen]: [NaN] (here [None]) for an invalid date. *)
Definition timeDiff (now : Z) (device : Device) : option Z :=
  match last_seen device with
  | Some lastSeen => Some (now - lastSeen)
  | None => None
  end.

(** [timeDiff < 30000]; a comparison with [NaN] is false. *)
Definition seenRecently (now : Z) (device : Device) : bool :=
  match timeDiff now device with
  | Some diff => diff <? 30000
  | None => false
  end.

(** One turn of
    [for (const deviceId in deviceStatus.active) {
       deviceStatus.inactive[deviceId] = deviceStatus.active[deviceId];
       delete deviceStatus.active[deviceId]; }]
    for an own key of [deviceStatus.active]. *)
Definition retireOne (ds : DeviceStatus) (kv : string * Device) : DeviceStatus :=
  mkStatus (delete kv.1 (active ds)) (<[kv.1 := kv.2]> (inactive ds))
           (activePrototype ds) (inactivePrototype ds).

(** The whole loop, over the own keys of [deviceStatus.active] in the order
    the object lists them.  These are all the names [for ... in] walks while
    [activePrototype] is [None].  Once a device is the prototype the loop
    also walks the names of that device's properties and copies their values
    (strings, numbers) into [deviceStatus.inactive]; a map of devices has no
    place for those, and the statements about the keys of the two objects
    ask for objects whose prototype was not replaced. *)
Definition markAllInactive (ds : DeviceStatus) : DeviceStatus :=
  foldl retireOne ds (map_to_list (active ds)).

(** The accumulator of the second loop of [ws.onmessage]: the two tracking
    objects and the local [activeDeviceIds] set. *)
Record Tracking : Type := mkTracking {
  status : DeviceStatus;
  activeDeviceIds : gset string
}.

(** The body of [currentDevices.forEach(device => ...)] that files a device
    under active or inactive. *)
Definition trackDevice (now : Z) (tr : Tracking) (device : Device) : Tracking :=
  let deviceId := id device in
  let ds := status tr in
  if seenRecently now device then
    mkTracking (mkStatus (setKey deviceId device (active ds))
                         (removeKey deviceId (inactive ds))
                         (setPrototype deviceId device (activePrototype ds))
                         (inactivePrototype ds))
               ({[deviceId]} ∪ activeDeviceIds tr)
  else
    mkTracking (mkStatus (active ds) (setKey deviceId device (inactive ds))
                         (activePrototype ds)
                         (setPrototype deviceId device (inactivePrototype ds)))
               (activeDeviceIds tr).

Definition trackDevices (now : Z) (ds : DeviceStatus) (devices : list Device) : Tracking :=
  foldl (trackDevice now) (mkTracking (markAllInactive ds) ∅) devices.

(** [currentDevices.forEach(device => { device.isActive =
    activeDeviceIds.has(device.id); })]. *)
Definition stampActive (ids : gset string) (devices : list Device) : list Device :=
  List.map (fun device => set_isActive (bool_decide (id device ∈ ids)) device) devices.

(** ** The device list ([updateDeviceList]) *)

(** [(x.power || -100)]: an absent power and a power of [0] are both falsy. *)
Definition sortPower (device : Device) : Q :=
  match power device with
  | Some p => if Qeq_bool p 0 then (-100)%Q else p
  | None => (-100)%Q
  end.

(** The comparator handed to [filteredDevices.sort]:
    [if (a.isActive && !b.isActive) return -1;
     if (!a.isActive && b.isActive) return 1;
     return (b.power || -100) - (a.power || -100);] *)
Definition compareDevices (a b : Device) : Q :=
  if isActive a && negb (isActive b) then (-1)%Q
  else if negb (isActive a) && isActive b then 1%Q
  else (sortPower b - sortPower a)%Q.

(** [Array.prototype.sort] is stable: [x] is placed before the first element
    that the comparator does not put strictly in front of it. *)
Fixpoint sortInsert (x : Device) (l : list Device) : list Device :=
  match l with
  | [] => [x]
  | y :: l' =>
      if Qle_bool (compareDevices x y) 0 then x :: l
      else y :: sortInsert x l'
  end.

Definition sortDevices (l : list Device) : list Device :=
  foldr sortInsert [] l.

(** ** Geometry (Leaflet's [LatLng.distanceTo] and [map.distance]) *)

Local Open Scope R_scope.

(** [Math.atan2(y, x)]. *)
Definition atan2 (y x : R) : R :=
  if Rlt_dec 0 x then atan (y / x)
  else if Rlt_dec x 0 then
    (if Rle_dec 0 y then atan (y / x) + PI else atan (y / x) - PI)
  else if Rlt_dec 0 y then PI / 2
  else if Rlt_dec y 0 then - (PI / 2)
  else 0.

(** Modelled from the spec: Leaflet itself is fetched from a CDN and is not
    part of the repository; the spec calls for the great-circle distance, and
    this is the haversine formula of Leaflet's [L.CRS.Earth.distance], in
    meters, over the reals (the browser computes it in doubles, which differ
    from it by rounding only). *)
Definition distanceTo (p q : R * R) : R :=
  let rad := PI / 180 in
  let lat1 := p.1 * rad in
  let lat2 := q.1 * rad in
  let sinDLat := sin ((q.1 - p.1) * rad / 2) in
  let sinDLon := sin ((q.2 - p.2) * rad / 2) in
  let a := sinDLat * sinDLat + cos lat1 * cos lat2 * sinDLon * sinDLon in
  let c := 2 * atan2 (sqrt a) (sqrt (1 - a)) in
  6371000 * c.

(** [x <= y] and [x < y] as the booleans a script gets. *)
Definition Rleb (x y : R) : bool := if Rle_dec x y then true else false.
Definition Rltb (x y : R) : bool := if Rlt_dec x y then true else false.

(** The geofence: [L.circle(latlng, { radius: 500 })]. *)
Record Circle : Type := mkCircle {
  getLatLng : R * R;
  getRadius : R
}.

(** The coordinates of a location, whichever shape it has. *)
Definition coordinates (l : Location) : R * R :=
  match l with
  | LatLng lat lng => (lat, lng)
  | LatitudeLongitude latitude longitude => (latitude, longitude)
  end.

(** [deviceLatLng.distanceTo(geofenceCenter) <= geofenceRadius]. *)
Definition withinCircle (c : Circle) (p : R * R) : bool :=
  Rleb (distanceTo p (getLatLng c)) (getRadius c).

Local Close Scope R_scope.

(** ** Module-level state *)

Inductive Color : Type := blue | green | red.

(** A Leaflet marker of [deviceMarkers]: where it stands, the colour of its
    icon and whether the icon is drawn at half opacity. *)
Record Marker : Type := mkMarker {
  markerLatLng : R * R;
  markerColor : Color;
  markerFaded : bool
}.

(** The [let] variables at the top of the script.  [leafletMap] says whether
    [map] is non-null; [deviceList] is the content of the [#deviceList]
    element, one entry per rendered item. *)
Record State : Type := mkState {
  showWhitelistedOnly : bool;
  currentDevices : list Device;
  leafletMap : bool;
  deviceMarkers : gmap string Marker;
  geofenceCircle : option Circle;
  geofenceEnabled : bool;
  userMarker : option (R * R);
  userLocation : R * R;
  mapInitialized : bool;
  usingGPS : bool;
  deviceStatus : DeviceStatus;
  deviceList : list Device
}.

Definition with_currentDevices (l : list Device) (st : State) : State :=
  mkState (showWhitelistedOnly st) l (leafletMap st) (deviceMarkers st)
          (geofenceCircle st) (geofenceEnabled st) (userMarker st)
          (userLocation st) (mapInitialized st) (usingGPS st)
          (deviceStatus st) (deviceList st).

Definition with_deviceList (l : list Device) (st : State) : State :=
  mkState (showWhitelistedOnly st) (currentDevices st) (leafletMap st)
          (deviceMarkers st) (geofenceCircle st) (geofenceEnabled st)
          (userMarker st) (userLocation st) (mapInitialized st) (usingGPS st)
          (deviceStatus st) l.

Definition with_deviceMarkers (m : gmap string Marker) (st : State) : State :=
  mkState (showWhitelistedOnly st) (currentDevices st) (leafletMap st) m
          (geofenceCircle st) (geofenceEnabled st) (userMarker st)
          (userLocation st) (mapInitialized st) (usingGPS st)
          (deviceStatus st) (deviceList st).

Definition with_deviceStatus (ds : DeviceStatus) (st : State) : State :=
  mkState (showWhitelistedOnly st) (currentDevices st) (leafletMap st)
          (deviceMarkers st) (geofenceCircle st) (geofenceEnabled st)
          (userMarker st) (userLocation st) (mapInitialized st) (usingGPS st)
          ds (deviceList st).

Definition with_geofence (c : option Circle) (enabled : bool) (st : State) : State :=
  mkState (showWhitelistedOnly st) (currentDevices st) (leafletMap st)
          (deviceMarkers st) c enabled (userMarker st) (userLocation st)
          (mapInitialized st) (usingGPS st) (deviceStatus st) (deviceList st).

Definition with_station (marker : option (R * R)) (loc : R * R) (st : State) : State :=
  mkState (showWhitelistedOnly st) (currentDevices st) (leafletMap st)
          (deviceMarkers st) (geofenceCircle st) (geofenceEnabled st)
          marker loc (mapInitialized st) true (deviceStatus st) (deviceList st).

(** The variables as the script declares them. *)
Definition initialState : State :=
  mkState false [] false ∅ None false None (37.7749%R, (-122.4194)%R)
          false false (mkStatus ∅ ∅ None None) [].

(** The callback of [initializeMap()] as [DOMContentLoaded] schedules it (no
    [devices] argument): a fresh map, the station marker at [userLocation],
    [mapInitialized = true]. *)
Definition initializeMap (st : State) : State :=
  mkState (showWhitelistedOnly st) (currentDevices st) true (deviceMarkers st)
          (geofenceCircle st) (geofenceEnabled st) (Some (userLocation st))
          (userLocation st) true (usingGPS st) (deviceStatus st) (deviceList st).

(** [updateDeviceList(currentDevices)], the last of the three declarations
    of that name (function declarations are hoisted, the last one is the one
    every call reaches); every caller passes [currentDevices], and the
    [#deviceList] element is part of index.html.  Without the whitelist
    filter the array that is sorted in place is [currentDevices] itself. *)
Definition updateDeviceList (st : State) : State :=
  if showWhitelistedOnly st then
    with_deviceList (sortDevices (List.filter whitelisted (currentDevices st))) st
  else
    let filteredDevices := sortDevices (currentDevices st) in
    with_deviceList filteredDevices (with_currentDevices filteredDevices st).

(** ** Map markers *)

(** The icon [updateMarkerForDevice] draws: green when whitelisted, else red
    when [insideGeofence] is truthy, else blue; half opacity when the device
    is not active. *)
Definition markerFor (device : Device) (p : R * R) : Marker :=
  mkMarker p
    (if whitelisted device then green
     else match insideGeofence device with
          | Some true => red
          | _ => blue
          end)
    (negb (isActive device)).

(** The property names every plain object inherits from [Object.prototype]:
    for these [name in deviceMarkers] is true although [deviceMarkers] has no
    such key of its own. *)
Definition objectPrototypeNames : list string :=
  ["constructor"; "__defineGetter__"; "__defineSetter__"; "hasOwnProperty";
   "__lookupGetter__"; "__lookupSetter__"; "isPrototypeOf";
   "propertyIsEnumerable"; "toString"; "valueOf"; "__proto__";
   "toLocaleString"]%string.

(** [updateMarkerForDevice(device)].  A device without location is skipped.
    [if (device.id in deviceMarkers)] takes the update branch for a marker
    stored under the id, which is moved and redrawn, and also for an id that
    is only an inherited name: there [deviceMarkers[device.id].setLatLng]
    throws, the function's own [try] catches it and nothing is stored.
    Otherwise a new marker is added to the map and stored, which throws (and
    is caught likewise) when there is no map. *)
Definition updateMarkerForDevice (hasMap : bool) (device : Device)
    (markers : gmap string Marker) : gmap string Marker :=
  match location device with
  | None => markers
  | Some l =>
      if bool_decide (is_Some (markers !! id device))
      then <[id device := markerFor device (coordinates l)]> markers
      else if bool_decide (id device ∈ objectPrototypeNames) then markers
      else if hasMap
      then <[id device := markerFor device (coordinates l)]> markers
      else markers
  end.

(** [deviceLat < -90 || deviceLat > 90 || deviceLng < -180 || deviceLng > 180],
    negated. *)
Definition validCoordinates (p : R * R) : bool :=
  negb (Rltb p.1 (-90) || Rltb 90 p.1 || Rltb p.2 (-180) || Rltb 180 p.2).

(** The body of [devices.forEach] in [updateMarkers]: the location is
    rewritten to the [{lat, lng}] shape, out-of-range coordinates stop here,
    the geofence flag is set when a zone is there and enabled, and the marker
    is updated. *)
Definition placeDevice (st : State) (device : Device)
    (markers : gmap string Marker) : Device * gmap string Marker :=
  match location device with
  | None => (device, markers)
  | Some l =>
      let device1 :=
        match l with
        | LatitudeLongitude deviceLat deviceLng =>
            set_location (LatLng deviceLat deviceLng) device
        | LatLng _ _ => device
        end in
      if validCoordinates (coordinates l) then
        let device2 :=
          match geofenceCircle st with
          | Some circle =>
              if geofenceEnabled st
              then set_insideGeofence (withinCircle circle (coordinates l)) device1
              else device1
          | None => device1
          end in
        (device2, updateMarkerForDevice (leafletMap st) device2 markers)
      else (device1, markers)
  end.

Fixpoint placeDevices (st : State) (devices : list Device)
    (markers : gmap string Marker) : list Device * gmap string Marker :=
  match devices with
  | [] => ([], markers)
  | device :: rest =>
      let '(device', markers1) := placeDevice st device markers in
      let '(rest', markers2) := placeDevices st rest markers1 in
      (device' :: rest', markers2)
  end.

(** The clean-up at the end of [updateMarkers]: every key of [deviceMarkers]
    for which [devices.find(d => d.id === id)] finds nothing is deleted. *)
Definition cleanUpMarkers (devices : list Device)
    (markers : gmap string Marker) : gmap string Marker :=
  filter (fun kv => kv.1 ∈ (id <$> devices)) markers.

(** [updateMarkers(currentDevices)]. *)
Definition updateMarkers (st : State) : State :=
  if negb (leafletMap st) || negb (mapInitialized st) then st
  else
    let '(devices, markers) :=
      placeDevices st (currentDevices st) (deviceMarkers st) in
    with_deviceMarkers (cleanUpMarkers devices markers)
      (with_currentDevices devices st).

(** ** Geofence *)

(** The body of [currentDevices.forEach] in [checkDevicesAgainstGeofence]. *)
Definition checkDevice (hasMap : bool) (circle : Circle) (device : Device)
    (markers : gmap string Marker) : Device * gmap string Marker :=
  match location device with
  | Some l =>
      let device' := set_insideGeofence (withinCircle circle (coordinates l)) device in
      (device', updateMarkerForDevice hasMap device' markers)
  | None => (device, markers)
  end.

Fixpoint checkDevices (hasMap : bool) (circle : Circle) (devices : list Device)
    (markers : gmap string Marker) : list Device * gmap string Marker :=
  match devices with
  | [] => ([], markers)
  | device :: rest =>
      let '(device', markers1) := checkDevice hasMap circle device markers in
      let '(rest', markers2) := checkDevices hasMap circle rest markers1 in
      (device' :: rest', markers2)
  end.

(** [checkDevicesAgainstGeofence()]:
    [if (!geofenceCircle || !geofenceEnabled) return;] comes first. *)
Definition checkDevicesAgainstGeofence (st : State) : State :=
  match geofenceCircle st with
  | None => st
  | Some circle =>
      if negb (geofenceEnabled st) then st
      else
        let '(devices, markers) :=
          checkDevices (leafletMap st) circle (currentDevices st) (deviceMarkers st) in
        updateDeviceList (with_deviceMarkers markers (with_currentDevices devices st))
  end.

(** [toggleGeofence()]. *)
Definition toggleGeofence (st : State) : State :=
  match geofenceCircle st with
  | None => st
  | Some circle =>
      checkDevicesAgainstGeofence
        (with_geofence (Some circle) (negb (geofenceEnabled st)) st)
  end.

(** [setGeofenceAtPosition(latlng)].  Its only caller is the click handler
    of the map, so it runs with a map; without one [L.circle(...).addTo(map)]
    would throw before anything is assigned. *)
Definition setGeofenceAtPosition (latlng : R * R) (st : State) : State :=
  checkDevicesAgainstGeofence
    (with_geofence (Some (mkCircle latlng 500%R)) true st).

(** ** The snapshot handler ([ws.onmessage]) *)

(** What a handler asks of the page besides changing the variables. *)
Inductive Effect : Type :=
  | SetView (center : R * R)
  | ScheduleInitializeMap
  | HideModal
  | Alert (message : string).

(** A parsed message: [data.devices || []] and the coordinates of
    [data.monitoring_station] when there is one. *)
Record Message : Type := mkMessage {
  devices : list Device;
  monitoring_station : option (R * R)
}.

(** [getDistance(point1, point2)]: [if (!map) return 0;
    return map.distance(point1, point2);]. *)
Definition getDistance (st : State) (point1 point2 : R * R) : R :=
  if leafletMap st then distanceTo point1 point2 else 0%R.

(** The [if (data.monitoring_station)] block.  The station marker is moved
    to the new fix first, the distance that decides about re-centering is
    measured from the marker afterwards. *)
Definition updateStation (gpsLocation : R * R) (st : State) : State * list Effect :=
  let st1 := with_station (userMarker st) gpsLocation st in
  match leafletMap st1, userMarker st1 with
  | true, Some _ =>
      let st2 := with_station (Some (userLocation st1)) (userLocation st1) st1 in
      let markerLatLng := default (userLocation st2) (userMarker st2) in
      if negb (mapInitialized st2)
         || Rltb 100 (getDistance st2 markerLatLng (userLocation st2))
      then (st2, [SetView (userLocation st2)])
      else (st2, [])
  | _, _ =>
      if negb (mapInitialized st1) then (st1, [ScheduleInitializeMap])
      else (st1, [])
  end.

(** [ws.onmessage] at wall-clock time [now]. *)
Definition ws_onmessage (now : Z) (data : Message) (st : State) : State * list Effect :=
  let st1 := with_currentDevices (devices data) st in
  let tr := trackDevices now (deviceStatus st1) (currentDevices st1) in
  let st2 :=
    with_deviceStatus (status tr)
      (with_currentDevices (stampActive (activeDeviceIds tr) (currentDevices st1)) st1) in
  let st3 := updateDeviceList st2 in
  let st4 := if mapInitialized st3 && leafletMap st3 then updateMarkers st3 else st3 in
  let '(st5, recenter) :=
    match monitoring_station data with
    | Some gpsLocation => updateStation gpsLocation st4
    | None => (st4, [])
    end in
  let schedule :=
    if negb (mapInitialized st5) && negb (bool_decide (devices data = []))
    then [ScheduleInitializeMap] else [] in
  let st6 := if bool_decide (devices data = []) then st5 else updateMarkers st5 in
  (st6, recenter ++ schedule).

(** Whether a station fix re-centered the view: the [moved] flag. *)
Definition moved (effects : list Effect) : bool :=
  existsb (fun e => match e with SetView _ => true | _ => false end) effects.

(** ** [processDeviceData] *)

(** A call either returns or throws; both leave a state behind. *)
Inductive Outcome : Type :=
  | Returned (st : State)
  | Thrown (error : string) (st : State).

(** [diffSeconds <= 30] with
    [diffSeconds = Math.floor((now - lastSeen) / 1000)]. *)
Definition withinThirtySeconds (now : Z) (device : Device) : bool :=
  match timeDiff now device with
  | Some diff => diff / 1000 <=? 30
  | None => false
  end.

(** [L.latLng(device.location.latitude || device.location.lat,
             device.location.longitude || device.location.lng)]:
    [None] when the result is [undefined] or [null], which is what a
    [{latitude, longitude}] location with a zero coordinate yields. *)
Definition latLngOf (l : Location) : option (R * R) :=
  match l with
  | LatLng lat lng => Some (lat, lng)
  | LatitudeLongitude latitude longitude =>
      if Req_dec_T latitude 0 then None
      else if Req_dec_T longitude 0 then None
      else Some (latitude, longitude)
  end.

(** The body of [data.devices.forEach] in [processDeviceData]; [inr] is a
    [TypeError]. *)
Definition processDevice (now : Z) (st : State) (device : Device)
    (ds : DeviceStatus) (markers : gmap string Marker)
    : (Device * DeviceStatus * gmap string Marker) + (Device * DeviceStatus) :=
  let device1 := set_isActive (withinThirtySeconds now device) device in
  let ds1 :=
    if isActive device1
    then mkStatus (setKey (id device1) device1 (active ds))
                  (removeKey (id device1) (inactive ds))
                  (setPrototype (id device1) device1 (activePrototype ds))
                  (inactivePrototype ds)
    else mkStatus (removeKey (id device1) (active ds))
                  (setKey (id device1) device1 (inactive ds))
                  (activePrototype ds)
                  (setPrototype (id device1) device1 (inactivePrototype ds)) in
  match geofenceCircle st with
  | Some circle =>
      if leafletMap st then
        match location device1 with
        | None => inr (device1, ds1)
        | Some l =>
            match latLngOf l with
            | None => inr (device1, ds1)
            | Some deviceLatLng =>
                let device2 := set_insideGeofence (withinCircle circle deviceLatLng) device1 in
                inl (device2, ds1, updateMarkerForDevice (leafletMap st) device2 markers)
            end
        end
      else inl (device1, ds1, markers)
  | None => inl (device1, ds1, markers)
  end.

Fixpoint processDevices (now : Z) (st : State) (devices : list Device)
    (ds : DeviceStatus) (markers : gmap string Marker)
    : (list Device * DeviceStatus * gmap string Marker) + (DeviceStatus * gmap string Marker) :=
  match devices with
  | [] => inl ([], ds, markers)
  | device :: rest =>
      match processDevice now st device ds markers with
      | inr (_, ds1) => inr (ds1, markers)
      | inl (device', ds1, markers1) =>
          match processDevices now st rest ds1 markers1 with
          | inl (rest', ds2, markers2) => inl (device' :: rest', ds2, markers2)
          | inr e => inr e
          end
      end
  end.

(** [processDeviceData(data)]; [data.devices] is [None] when absent. *)
Definition processDeviceData (now : Z) (data_devices : option (list Device))
    (st : State) : Outcome :=
  match data_devices with
  | None => Returned st
  | Some devices =>
      match processDevices now st devices (deviceStatus st) (deviceMarkers st) with
      | inr (ds, markers) =>
          Thrown "TypeError" (with_deviceMarkers markers (with_deviceStatus ds st))
      | inl (devices', ds, markers) =>
          let st1 :=
            with_currentDevices devices'
              (with_deviceMarkers markers (with_deviceStatus ds st)) in
          let st2 := updateDeviceList st1 in
          Returned (if mapInitialized st2 then updateMarkers st2 else st2)
      end
  end.

(** ** Whitelist requests *)

(** What [await response.json()] gives: a JSON value with its [detail]
    property when it has one, the JSON value [null], or a rejection, with the
    message of its error, when the body is not JSON. *)
Inductive Body : Type :=
  | Json (detail : option string)
  | JsonNull
  | NotJson (message : string).

(** Whether [await response.json()] resolves. *)
Definition parses (body : Body) : bool :=
  match body with
  | NotJson _ => false
  | _ => true
  end.

(** How [fetch] settles: a response with its status and body, or a
    rejection. *)
Inductive FetchResult : Type :=
  | Response (status : Z) (body : Body)
  | Rejected (message : string).

(** [response.ok]. *)
Definition ok (status : Z) : bool := (200 <=? status) && (status <=? 299).

(** The fields of the device modal the two handlers read. *)
Record Form : Type := mkForm {
  deviceId : string;
  deviceName : string;
  deviceType : string
}.

(** [const deviceIndex = currentDevices.findIndex(d => d.id === deviceId);
    if (deviceIndex !== -1) { ...currentDevices[deviceIndex]... }]. *)
Fixpoint updateFound (deviceId : string) (f : Device -> Device)
    (l : list Device) : list Device :=
  match l with
  | [] => []
  | d :: rest =>
      if bool_decide (id d = deviceId) then f d :: rest
      else d :: updateFound deviceId f rest
  end.

(** [errorData.detail || fallback]. *)
Definition errorMessage (detail : option string) (fallback : string) : string :=
  match detail with
  | Some s => if bool_decide (s = ""%string) then fallback else s
  | None => fallback
  end.

(** The [else] branch of [if (response.ok)]:
    [let errorMessage = "Unknown error";
     try { const errorData = await response.json();
           errorMessage = errorData.detail || fallback; } catch (e) { }];
    reading [detail] of [null] throws as well. *)
Definition failureMessage (body : Body) (fallback : string) : string :=
  match body with
  | Json detail => errorMessage detail fallback
  | JsonNull => "Unknown error"
  | NotJson _ => "Unknown error"
  end.

(** [updateDeviceList(currentDevices); if (mapInitialized && map)
    updateMarkers(currentDevices);], the tail of both success branches. *)
Definition refreshViews (st : State) : State :=
  let st1 := updateDeviceList st in
  if mapInitialized st1 && leafletMap st1 then updateMarkers st1 else st1.

(** [addToWhitelist()], with [reply] what the [POST] settles to.  A response
    that is [ok] counts only once [await response.json()] has resolved; when
    that rejects, the outer [catch] alerts the message of the error and
    nothing is written. *)
Definition addToWhitelist (form : Form) (reply : FetchResult) (st : State)
    : State * list Effect :=
  if bool_decide (deviceId form = ""%string) then (st, [])
  else if negb (bool_decide (deviceId form ∈ (id <$> currentDevices st))) then
    (st, [Alert "Error: Device not found in the current devices list"])
  else
    match reply with
    | Response status body =>
        if ok status then
          match body with
          | NotJson message =>
              (st, [Alert (String.append "Failed to add device to whitelist: " message)])
          | _ =>
              let st1 :=
                with_currentDevices
                  (updateFound (deviceId form)
                     (fun d => set_name_type (deviceName form) (deviceType form)
                                 (set_whitelisted true d))
                     (currentDevices st)) st in
              (refreshViews st1, [HideModal])
          end
        else
          (st, [Alert (String.append "Failed to add device to whitelist: "
                         (failureMessage body "Failed to add device to whitelist"))])
    | Rejected message =>
        (st, [Alert (String.append "Failed to add device to whitelist: " message)])
    end.

(** [removeFromWhitelist()], with [reply] what the [DELETE] settles to; the
    body is awaited as in [addToWhitelist]. *)
Definition removeFromWhitelist (form : Form) (reply : FetchResult) (st : State)
    : State * list Effect :=
  if bool_decide (deviceId form = ""%string) then (st, [])
  else
    match reply with
    | Response status body =>
        if ok status then
          match body with
          | NotJson message =>
              (st, [Alert (String.append "Failed to remove device from whitelist: "
                             message)])
          | _ =>
              let st1 :=
                with_currentDevices
                  (updateFound (deviceId form) (set_whitelisted false)
                     (currentDevices st)) st in
              (refreshViews st1,
               [HideModal; Alert "Device removed from whitelist successfully"])
          end
        else
          (st, [Alert (String.append "Failed to remove device from whitelist: "
                         (failureMessage body "Failed to remove device from whitelist"))])
    | Rejected message =>
        (st, [Alert (String.append "Failed to remove device from whitelist: " message)])
    end.

(** Modelled from the spec: the whitelist store behind [/api/whitelist/{id}]
    is the server, which is not among the sources.  Spec section 6 and the
    error example of api_documentation.md have [DELETE] answer 404 with
    [detail: "Device <id> not found in whitelist"] for an id that is not in
    the store, and 200 otherwise. *)
Definition store_remove (deviceId : string) (whitelist : gset string)
    : FetchResult * gset string :=
  if bool_decide (deviceId ∈ whitelist) then
    (Response 200 (Json None), whitelist ∖ {[deviceId]})
  else
    (Response 404
       (Json (Some (String.append "Device "
                      (String.append deviceId " not found in whitelist")))),
     whitelist).

(** ** The rest of the page: header counters, list filter, device modal *)

(** The five answers of [getSignalStrength]. *)
Inductive SignalStrength : Type :=
  | Excellent | Good | Medium | Weak | Poor.

(** The [class] and [text] properties of the object [getSignalStrength]
    returns. *)
Definition signalClass (s : SignalStrength) : string :=
  match s with
  | Excellent => "signal-excellent"
  | Good => "signal-good"
  | Medium => "signal-medium"
  | Weak => "signal-weak"
  | Poor => "signal-poor"
  end.

Definition signalText (s : SignalStrength) : string :=
  match s with
  | Excellent => "Excellent"
  | Good => "Good"
  | Medium => "Medium"
  | Weak => "Weak"
  | Poor => "Poor"
  end.

(** [x > y] on powers. *)
Definition Qgtb (x y : Q) : bool := negb (Qle_bool x y).

(** [getSignalStrength(power)] for a numeric power. *)
Definition getSignalStrength (power : Q) : SignalStrength :=
  if Qgtb power (-30) then Excellent
  else if Qgtb power (-50) then Good
  else if Qgtb power (-70) then Medium
  else if Qgtb power (-90) then Weak
  else Poor.

(** The signal an item of the device list shows:
    [getSignalStrength(device.power || -100)]. *)
Definition listSignal (device : Device) : SignalStrength :=
  getSignalStrength (sortPower device).

(** What [updateWhitelistCount()] writes into [#whitelistStatus]: the number
    of whitelisted devices, the class of the badge and the plural ending. *)
Record WhitelistBadge : Type := mkWhitelistBadge {
  whitelistedCount : nat;
  badgeClass : string;
  plural : string
}.

Definition updateWhitelistCount (st : State) : WhitelistBadge :=
  let whitelistedDevices := List.filter whitelisted (currentDevices st) in
  mkWhitelistBadge (length whitelistedDevices)
    (if Nat.ltb 0 (length whitelistedDevices) then "bg-success" else "bg-secondary")
    (if negb (Nat.eqb (length whitelistedDevices) 1) then "s" else "").

(** What [updateDeviceStatusCount()] writes into [#deviceStatus]:
    [Object.keys(deviceStatus.active).length] and the same for [inactive]. *)
Definition updateDeviceStatusCount (st : State) : nat * nat :=
  (size (active (deviceStatus st)), size (inactive (deviceStatus st))).

Definition with_showWhitelistedOnly (b : bool) (st : State) : State :=
  mkState b (currentDevices st) (leafletMap st) (deviceMarkers st)
          (geofenceCircle st) (geofenceEnabled st) (userMarker st)
          (userLocation st) (mapInitialized st) (usingGPS st)
          (deviceStatus st) (deviceList st).

(** [toggleWhitelistView()]: the flag is flipped and the list redrawn. *)
Definition toggleWhitelistView (st : State) : State :=
  updateDeviceList (with_showWhitelistedOnly (negb (showWhitelistedOnly st)) st).

(** The handler of the initial [fetch('/api/devices')]:
    [currentDevices = data.devices || []; updateDeviceList(currentDevices);]. *)
Definition fetchDevices (data_devices : option (list Device)) (st : State) : State :=
  updateDeviceList (with_currentDevices (default [] data_devices) st).

(** The values of the [<option>]s of [#deviceType] in index.html. *)
Definition typeOptions : list string :=
  ["Cellular"; "WiFi"; "Bluetooth"; "GSM"; "LTE"; "UMTS"; "Unknown"]%string.

(** What a text input keeps of a string assigned to its [value]: line feeds
    and carriage returns are stripped ([#deviceName] is an
    [<input type="text">]). *)
Fixpoint stripNewlines (s : string) : string :=
  match s with
  | EmptyString => EmptyString
  | String c rest =>
      if Ascii.eqb c (Ascii.ascii_of_nat 10) || Ascii.eqb c (Ascii.ascii_of_nat 13)
      then stripNewlines rest
      else String c (stripNewlines rest)
  end.

(** [showDeviceDetails(device)], as far as the fields go that the whitelist
    handlers read back: the id (a hidden input, which keeps its value as
    assigned), [device.name || ''] as the text input keeps it, and the
    option of [#deviceType] that gets selected, the one whose value is
    [device.type] or else [Unknown]. *)
Definition showDeviceDetails (device : Device) : Form :=
  mkForm (id device) (stripNewlines (name device))
         (if bool_decide (type device ∈ typeOptions) then type device
          else "Unknown"%string).

(** ** Browser geolocation and the map callback *)

Definition with_browserLocation (marker : option (R * R)) (loc : R * R)
    (st : State) : State :=
  mkState (showWhitelistedOnly st) (currentDevices st) (leafletMap st)
          (deviceMarkers st) (geofenceCircle st) (geofenceEnabled st)
          marker loc (mapInitialized st) (usingGPS st)
          (deviceStatus st) (deviceList st).

(** The success callback of [getUserLocation()]: a browser position is
    ignored once a station fix has arrived ([usingGPS]); otherwise it becomes
    [userLocation], the station marker is moved and the view centered when
    both map and marker are there, and the map is scheduled when it is not
    initialized yet. *)
Definition getUserLocation (position : R * R) (st : State) : State * list Effect :=
  if usingGPS st then (st, [])
  else
    let st1 := with_browserLocation (userMarker st) position st in
    match leafletMap st1, userMarker st1 with
    | true, Some _ =>
        (with_browserLocation (Some (userLocation st1)) (userLocation st1) st1,
         [SetView (userLocation st1)])
    | _, _ =>
        if negb (mapInitialized st1) then (st1, [ScheduleInitializeMap])
        else (st1, [])
    end.

(** [updateMarkers(devices)] for an array that is no longer [currentDevices]
    (the one a delayed [initializeMap(devices)] still holds): the markers are
    drawn and cleaned up from it, [currentDevices] is not touched. *)
Definition updateMarkersOf (devices : list Device) (st : State) : State :=
  if negb (leafletMap st) || negb (mapInitialized st) then st
  else
    let '(devices', markers) := placeDevices st devices (deviceMarkers st) in
    with_deviceMarkers (cleanUpMarkers devices' markers) st.

(** The array a delayed [initializeMap(devices)] was called with: none
    ([DOMContentLoaded], [getUserLocation]), the array that still is
    [currentDevices], or the array of an earlier message. *)
Inductive MapDevices : Type :=
  | NoDevices
  | TheCurrentDevices
  | EarlierDevices (devices : list Device).

(** The callback of [initializeMap(devices)] when its 500 ms are over, with
    Leaflet doing what it is asked:
    [... mapInitialized = true;
     if (devices && devices.length > 0) updateMarkers(devices);]. *)
Definition initializeMapWith (devices : MapDevices) (st : State) : State :=
  let st1 := initializeMap st in
  match devices with
  | NoDevices => st1
  | TheCurrentDevices =>
      if bool_decide (currentDevices st1 = []) then st1 else updateMarkers st1
  | EarlierDevices l =>
      if bool_decide (l = []) then st1 else updateMarkersOf l st1
  end.

(** ** Vocabulary of the statements *)

(** [a] may stand before [b]: the comparator does not ask for [b] first. *)
Definition mayPrecede (a b : Device) : Prop :=
  (compareDevices a b <= 0)%Q.

(** The ids of the devices of [l] that satisfy [p]. *)
Fixpoint idsWhere (p : Device -> bool) (l : list Device) : gset string :=
  match l with
  | [] => ∅
  | d :: rest => (if p d then {[id d]} else ∅) ∪ idsWhere p rest
  end.

(** [d'] is [d] up to the shape of its location and its geofence flag. *)
Definition sameReading (d d' : Device) : Prop :=
  id d' = id d /\ last_seen d' = last_seen d /\ power d' = power d /\
  isActive d' = isActive d /\ whitelisted d' = whitelisted d /\
  coordinates <$> location d' = coordinates <$> location d.

(** [f] changes nothing but location shape and geofence flag. *)
Definition keepsReading (f : Device -> Device) : Prop :=
  forall d, sameReading d (f d).

(** What [updateMarkers] does to one device does not depend on the markers. *)
Definition placed (st : State) (device : Device) : Device :=
  (placeDevice st device ∅).1.

(** The devices of [st] are those of [l], in some order, up to location
    shape and geofence flag. *)
Definition viewOf (l : list Device) (st : State) : Prop :=
  exists f L, keepsReading f /\ L ≡ₚ l /\ currentDevices st = f <$> L.

(** A device as a snapshot lists it when it carries nothing but an id and a
    [last_seen] time. *)
Definition exampleDevice (deviceId : string) (lastSeen : Z) : Device :=
  mkDevice deviceId "" "LTE" None (Some lastSeen) None false false None.

(** A message with devices and no station fix. *)
Definition snapshot (l : list Device) : Message := mkMessage l None.

(** A device at the point where the equator meets the prime meridian. *)
Definition deviceAtOrigin (deviceId : string) (lastSeen : Z) : Device :=
  mkDevice deviceId "" "LTE" None (Some lastSeen) (Some (LatLng 0 0))
           false false None.

(** What [checkDevicesAgainstGeofence] does to one device. *)
Definition checked (circle : Circle) (device : Device) : Device :=
  match location device with
  | Some l => set_insideGeofence (withinCircle circle (coordinates l)) device
  | None => device
  end.

(** A device at a given point, for the 500 m scenario. *)
Definition deviceAt (deviceId : string) (lat lng : R) : Device :=
  mkDevice deviceId "" "LTE" None (Some 0) (Some (LatLng lat lng))
           false false None.

(** A device inside the 500 m zone around it, and the zone switched off. *)
Definition insideThenDisabled : State :=
  toggleGeofence
    (setGeofenceAtPosition (0%R, 0%R)
       (with_currentDevices [deviceAtOrigin "a" 0] (initializeMap initialState))).

(** The station marker and the map are there and the map is initialized. *)
Definition mapReady (st : State) : Prop :=
  leafletMap st = true /\ mapInitialized st = true /\ is_Some (userMarker st).

(** The [moved] flags of a run of station fixes, one message per fix. *)
Fixpoint movedFlags (now : Z) (fixes : list (R * R)) (st : State) : list bool :=
  match fixes with
  | [] => []
  | gpsLocation :: rest =>
      let '(st', effects) := ws_onmessage now (mkMessage [] (Some gpsLocation)) st in
      moved effects :: movedFlags now rest st'
  end.

(** The sorting power as the spec words it: only an absent power counts as
    -100. *)
Definition powerOrDefault (device : Device) : Q :=
  match power device with
  | Some p => p
  | None => (-100)%Q
  end.

(** Active before inactive, and by falling sorting power among devices of one
    kind. *)
Definition listedBefore (a b : Device) : Prop :=
  (isActive b = true -> isActive a = true) /\
  (isActive a = isActive b -> (sortPower b <= sortPower a)%Q).

(** ** Vocabulary of the further statements *)

(** Two devices the comparator ranks alike: both active or both inactive,
    and of equal sorting power. *)
Definition sameRank (d x : Device) : bool :=
  bool_decide (isActive x = isActive d) && Qeq_bool (sortPower x) (sortPower d).

(** The five signal labels as levels, [Poor] lowest. *)
Definition signalLevel (s : SignalStrength) : nat :=
  match s with
  | Poor => 0 | Weak => 1 | Medium => 2 | Good => 3 | Excellent => 4
  end%nat.

(** Among devices of one kind, [a] shows a signal label at least as good as
    that of [b]. *)
Definition signalBefore (a b : Device) : Prop :=
  isActive a = isActive b ->
  (signalLevel (listSignal b) <= signalLevel (listSignal a))%nat.

(** [d'] is [d] up to the shape of its location and its geofence flag, name
    and type included. *)
Definition redrawn (d d' : Device) : Prop :=
  sameReading d d' /\ name d' = name d /\ type d' = type d.

(** The id of a device and whether it is whitelisted. *)
Definition whitelistEntry (d : Device) : string * bool := (id d, whitelisted d).

(** The marker [updateMarkers] has to draw for a device; none for a device
    without location or with coordinates out of range. *)
Definition drawn (st : State) (d : Device) : option Marker :=
  match location d with
  | Some l =>
      if validCoordinates (coordinates l)
      then Some (markerFor (placed st d) (coordinates l))
      else None
  | None => None
  end.

(** The marker a pass over [l] has to draw last under the id [k]. *)
Fixpoint drawnLast (st : State) (l : list Device) (k : string) : option Marker :=
  match l with
  | [] => None
  | d :: rest =>
      match drawnLast st rest k with
      | Some mk => Some mk
      | None => if bool_decide (id d = k) then drawn st d else None
      end
  end.

(** No marker can be stored under [k]: the name is one every plain object
    inherits and [markers] has no marker of its own under it. *)
Definition blocked (markers : gmap string Marker) (k : string) : bool :=
  bool_decide (k ∈ objectPrototypeNames)
  && negb (bool_decide (is_Some (markers !! k))).

(** Whether a device at [p] counts as inside the zone when its marker is
    drawn: measured against an enabled zone, else the flag it carries. *)
Definition zoneFlag (st : State) (d : Device) (p : R * R) : bool :=
  match geofenceCircle st with
  | Some circle =>
      if geofenceEnabled st then withinCircle circle p
      else bool_decide (insideGeofence d = Some true)
  | None => bool_decide (insideGeofence d = Some true)
  end.

(** The location has the [{lat, lng}] shape, if there is one. *)
Definition normalised (d : Device) : Prop :=
  match location d with
  | Some (LatitudeLongitude _ _) => False
  | _ => True
  end.

(** The variables of the station and its map are the same in both states. *)
Definition stationUntouched (st st' : State) : Prop :=
  leafletMap st' = leafletMap st /\ mapInitialized st' = mapInitialized st /\
  userMarker st' = userMarker st /\ userLocation st' = userLocation st /\
  usingGPS st' = usingGPS st.

(** The geofence variables are the same in both states. *)
Definition zoneUntouched (st st' : State) : Prop :=
  geofenceCircle st' = geofenceCircle st /\
  geofenceEnabled st' = geofenceEnabled st.

(** What the handlers keep true of the map and geofence variables: an
    enabled geofence has its circle, every circle has a radius of 500 m, the
    map is initialized exactly when it exists, and the station marker exists
    with the map and stands at [userLocation]. *)
Definition wellFormed (st : State) : Prop :=
  (geofenceEnabled st = true -> is_Some (geofenceCircle st)) /\
  (forall circle, geofenceCircle st = Some circle -> getRadius circle = 500%R) /\
  mapInitialized st = leafletMap st /\
  userMarker st = (if leafletMap st then Some (userLocation st) else None).

(** The state a call leaves behind, returned or thrown. *)
Definition stateOf (o : Outcome) : State :=
  match o with
  | Returned st => st
  | Thrown _ st => st
  end.

(** A run of snapshots, each with the time it arrives at. *)
Definition snapshots (run : list (Z * Message)) (st : State) : State :=
  foldl (fun st m => (ws_onmessage m.1 m.2 st).1) st run.

(** A device [processDeviceData] can measure against the zone: it has a
    location from which [L.latLng] makes a point. *)
Definition locatable (d : Device) : Prop :=
  match location d with
  | Some l => is_Some (latLngOf l)
  | None => False
  end.

(** [d'] is what [processDeviceData] makes of [d] at time [now], as far as
    activity goes. *)
Definition processedFrom (now : Z) (d d' : Device) : Prop :=
  id d' = id d /\ last_seen d' = last_seen d /\
  isActive d' = withinThirtySeconds now d.

(** No device of [l] has the id [__proto__], under which a plain object
    files nothing. *)
Definition properIds (l : list Device) : Prop :=
  "__proto__"%string ∉ (id <$> l).

(** The two tracking objects still have the prototype they were created
    with. *)
Definition plainObjects (ds : DeviceStatus) : Prop :=
  activePrototype ds = None /\ inactivePrototype ds = None.

(** The tracking maps once [processDeviceData] has filed [d]: under
    [active] when it takes the device for active, under [inactive]
    otherwise, and out of the other map. *)
Definition filed (now : Z) (d : Device) (ds : DeviceStatus) : DeviceStatus :=
  let d1 := set_isActive (withinThirtySeconds now d) d in
  if withinThirtySeconds now d
  then mkStatus (setKey (id d) d1 (active ds)) (removeKey (id d) (inactive ds))
                (setPrototype (id d) d1 (activePrototype ds))
                (inactivePrototype ds)
  else mkStatus (removeKey (id d) (active ds)) (setKey (id d) d1 (inactive ds))
                (activePrototype ds)
                (setPrototype (id d) d1 (inactivePrototype ds)).

(** The same for the devices of [l], one after the other. *)
Definition filedAll (now : Z) (l : list Device) (ds : DeviceStatus) : DeviceStatus :=
  foldl (fun ds d => filed now d ds) ds l.

(** What a geofence evaluation may do to a device without location:
    nothing that shows in its id or its geofence flag. *)
Definition sameFlag (d d' : Device) : Prop :=
  id d' = id d /\ location d' = location d /\
  (location d = None -> insideGeofence d' = insideGeofence d).

(** * Properties *)

(** ** The order of the device list *)

Section DeviceListOrder.

Lemma mayPrecede_iff a b :
  mayPrecede a b <->
  (isActive a = true /\ isActive b = false) \/
  (isActive a = isActive b /\ (sortPower b <= sortPower a)%Q).
Proof.
  unfold mayPrecede, compareDevices.
  destruct (isActive a), (isActive b); simpl; split.
  - intros H. right. split; [reflexivity|]. Lqa.lra.
  - intros [[_ H]|[_ H]]; [discriminate|]. Lqa.lra.
  - intros _. left. split; reflexivity.
  - intros _. discriminate.
  - intros H. exfalso. Lqa.lra.
  - intros [[H _]|[H _]]; discriminate.
  - intros H. right. split; [reflexivity|]. Lqa.lra.
  - intros [[H _]|[_ H]]; [discriminate|]. Lqa.lra.
Qed.

Lemma mayPrecede_total a b : ~ mayPrecede a b -> mayPrecede b a.
Proof.
  rewrite !mayPrecede_iff. intros H.
  destruct (isActive a) eqn:Ha, (isActive b) eqn:Hb.
  - right. split; [reflexivity|].
    destruct (Qlt_le_dec (sortPower b) (sortPower a)) as [Hlt|Hle].
    + exfalso. apply H. right. split; [reflexivity|]. Lqa.lra.
    + exact Hle.
  - exfalso. apply H. left. split; reflexivity.
  - left. split; reflexivity.
  - right. split; [reflexivity|].
    destruct (Qlt_le_dec (sortPower b) (sortPower a)) as [Hlt|Hle].
    + exfalso. apply H. right. split; [reflexivity|]. Lqa.lra.
    + exact Hle.
Qed.

Lemma mayPrecede_trans a b c :
  mayPrecede a b -> mayPrecede b c -> mayPrecede a c.
Proof.
  rewrite !mayPrecede_iff.
  intros [[Ha Hb]|[Hab Hp]] [[Hb' Hc]|[Hbc Hq]].
  - congruence.
  - left. split; congruence.
  - left. split; congruence.
  - right. split; [congruence|]. Lqa.lra.
Qed.

Lemma sortInsert_perm x l : sortInsert x l ≡ₚ x :: l.
Proof.
  induction l as [|y l IH]; simpl; [reflexivity|].
  destruct (Qle_bool (compareDevices x y) 0); [reflexivity|].
  rewrite IH. apply perm_swap.
Qed.

Lemma sortDevices_perm l : sortDevices l ≡ₚ l.
Proof.
  induction l as [|x l IH]; simpl; [reflexivity|].
  rewrite sortInsert_perm. by rewrite IH.
Qed.

Lemma sortInsert_sorted x l :
  StronglySorted mayPrecede l -> StronglySorted mayPrecede (sortInsert x l).
Proof.
  induction 1 as [|y l Hl IH Hy]; simpl.
  - repeat constructor.
  - destruct (Qle_bool (compareDevices x y) 0) eqn:Hc.
    + apply Qle_bool_iff in Hc.
      constructor; [by constructor|].
      constructor; [exact Hc|].
      eapply Forall_impl; [exact Hy|].
      intros z Hz. by apply mayPrecede_trans with y.
    + assert (Hyx : mayPrecede y x).
      { apply mayPrecede_total. intros Hxy.
        apply Qle_bool_iff in Hxy. unfold mayPrecede in Hc. congruence. }
      constructor; [exact IH|].
      rewrite sortInsert_perm. by constructor.
Qed.

Lemma sortDevices_sorted l : StronglySorted mayPrecede (sortDevices l).
Proof.
  induction l as [|x l IH]; simpl; [constructor|].
  by apply sortInsert_sorted.
Qed.

Lemma sortDevices_elem_of d l : d ∈ sortDevices l <-> d ∈ l.
Proof. by rewrite sortDevices_perm. Qed.

Lemma sortDevices_Forall (P : Device -> Prop) l :
  Forall P (sortDevices l) <-> Forall P l.
Proof. by rewrite sortDevices_perm. Qed.

End DeviceListOrder.

(** ** The tracking maps *)

Section Tracking.

Implicit Types (ds : DeviceStatus) (tr : Tracking) (l : list Device).

Lemma retire_fold_active (kvs : list (string * Device)) ds k :
  active (foldl retireOne ds kvs) !! k =
  if decide (k ∈ kvs.*1) then None else active ds !! k.
Proof.
  revert ds. induction kvs as [|[k' v] kvs IH]; intros ds.
  - done.
  - cbn [foldl]. rewrite IH, fmap_cons. cbn [retireOne active fst].
    destruct (decide (k ∈ kvs.*1)) as [Hin|Hnin].
    + rewrite decide_True; [done|]. by right.
    + destruct (decide (k = k')) as [->|Hne].
      * rewrite lookup_delete_eq, decide_True; [done|]. by left.
      * rewrite lookup_delete_ne by done.
        rewrite decide_False; [done|].
        intros [?|?]%elem_of_cons; done.
Qed.

Lemma retire_fold_inactive (kvs : list (string * Device)) ds :
  dom (inactive (foldl retireOne ds kvs)) =
  dom (inactive ds) ∪ list_to_set kvs.*1.
Proof.
  revert ds. induction kvs as [|[k' v] kvs IH]; intros ds; simpl.
  - set_solver.
  - rewrite IH. simpl. rewrite dom_insert_L. set_solver.
Qed.

Lemma keys_map_to_list (m : gmap string Device) k :
  k ∈ (map_to_list m).*1 <-> k ∈ dom m.
Proof.
  rewrite elem_of_dom, list_elem_of_fmap. split.
  - intros [[k' v] [-> H]]. apply elem_of_map_to_list in H. by exists v.
  - intros [v H]. exists (k, v). split; [done|]. by apply elem_of_map_to_list.
Qed.

(** After the first loop of [ws.onmessage] nothing is active and every id
    that was tracked is inactive. *)
Lemma markAllInactive_active ds : active (markAllInactive ds) = ∅.
Proof.
  apply map_eq. intros k. unfold markAllInactive.
  rewrite retire_fold_active, lookup_empty.
  case_decide as H; [done|].
  rewrite keys_map_to_list in H. by apply not_elem_of_dom.
Qed.

Lemma markAllInactive_inactive ds :
  dom (inactive (markAllInactive ds)) = dom (inactive ds) ∪ dom (active ds).
Proof.
  unfold markAllInactive. rewrite retire_fold_inactive.
  apply set_eq. intros k.
  rewrite !elem_of_union, elem_of_list_to_set, keys_map_to_list. done.
Qed.

Lemma elem_of_idsWhere p l k :
  k ∈ idsWhere p l <-> exists d, d ∈ l /\ id d = k /\ p d = true.
Proof.
  induction l as [|d l IH]; simpl.
  - split; [set_solver|]. intros (d & H & _). by apply elem_of_nil in H.
  - rewrite elem_of_union, IH. split.
    + intros [H|(d' & H1 & H2)].
      * destruct (p d) eqn:Hp; [|set_solver].
        exists d. split; [left|]. set_solver.
      * exists d'. split; [by right|done].
    + intros (d' & H1 & H2 & H3).
      apply elem_of_cons in H1 as [->|H1].
      * left. rewrite H3. set_solver.
      * right. eauto.
Qed.

Lemma dom_setKey k d (m : gmap string Device) :
  dom (setKey k d m) = dom m ∪ ({[k]} ∖ {["__proto__"%string]}).
Proof.
  unfold setKey. case_bool_decide; [set_solver|].
  rewrite dom_insert_L. set_solver.
Qed.

Lemma dom_removeKey k (m : gmap string Device) :
  dom (removeKey k m) = dom m ∖ ({[k]} ∖ {["__proto__"%string]}).
Proof.
  unfold removeKey. case_bool_decide; [set_solver|].
  rewrite dom_delete_L. set_solver.
Qed.

Lemma trackDevices_fold now tr l :
  let tr' := foldl (trackDevice now) tr l in
  activeDeviceIds tr' = activeDeviceIds tr ∪ idsWhere (seenRecently now) l /\
  dom (active (status tr')) =
    dom (active (status tr))
    ∪ (idsWhere (seenRecently now) l ∖ {["__proto__"%string]}).
Proof.
  revert tr. induction l as [|d l IH]; intros tr; simpl.
  - split; set_solver.
  - destruct (IH (trackDevice now tr d)) as [IH1 IH2].
    rewrite IH1, IH2. unfold trackDevice.
    destruct (seenRecently now d); simpl.
    + rewrite dom_setKey. split; set_solver.
    + split; set_solver.
Qed.

Lemma trackDevices_fold_inactive now tr l :
  NoDup (id <$> l) ->
  dom (inactive (status (foldl (trackDevice now) tr l))) =
    (dom (inactive (status tr))
     ∖ (idsWhere (seenRecently now) l ∖ {["__proto__"%string]}))
    ∪ (idsWhere (fun d => negb (seenRecently now d)) l ∖ {["__proto__"%string]}).
Proof.
  revert tr. induction l as [|d l IH]; intros tr Hnd; simpl.
  - set_solver.
  - apply NoDup_cons in Hnd as [Hd Hnd].
    rewrite (IH _ Hnd). unfold trackDevice.
    destruct (seenRecently now d) eqn:Hs; simpl.
    + rewrite dom_removeKey. set_solver.
    + rewrite dom_setKey.
      assert (id d ∉ idsWhere (seenRecently now) l).
      { rewrite elem_of_idsWhere. intros (d' & H1 & H2 & _).
        apply Hd. rewrite <- H2. by apply list_elem_of_fmap_2. }
      set_solver.
Qed.

Lemma idsWhere_disjoint now l :
  NoDup (id <$> l) ->
  idsWhere (seenRecently now) l ## idsWhere (fun d => negb (seenRecently now d)) l.
Proof.
  intros Hnd k. rewrite !elem_of_idsWhere.
  intros (d1 & H1 & <- & Hs1) (d2 & H2 & Heq & Hs2).
  assert (d2 = d1) as ->.
  { apply list_elem_of_lookup in H1 as [i Hi], H2 as [j Hj].
    assert (i = j) as ->.
    { eapply NoDup_lookup; [exact Hnd| |].
      - by rewrite list_lookup_fmap, Hi.
      - by rewrite list_lookup_fmap, Hj; simpl; rewrite Heq. }
    congruence. }
  rewrite Hs1 in Hs2. discriminate.
Qed.

(** What [trackDevices] leaves in the two maps when ids do not repeat. *)
Lemma trackDevices_keys now ds l :
  NoDup (id <$> l) ->
  let tr := trackDevices now ds l in
  activeDeviceIds tr = idsWhere (seenRecently now) l /\
  dom (active (status tr)) = idsWhere (seenRecently now) l ∖ {["__proto__"%string]} /\
  dom (inactive (status tr)) =
    ((dom (inactive ds) ∪ dom (active ds))
     ∖ (idsWhere (seenRecently now) l ∖ {["__proto__"%string]}))
    ∪ (idsWhere (fun d => negb (seenRecently now d)) l ∖ {["__proto__"%string]}).
Proof.
  intros Hnd. unfold trackDevices.
  destruct (trackDevices_fold now (mkTracking (markAllInactive ds) ∅) l) as [H1 H2].
  simpl in *. rewrite markAllInactive_active, dom_empty_L in H2.
  rewrite H1, H2, (trackDevices_fold_inactive _ _ _ Hnd). simpl.
  rewrite markAllInactive_inactive. repeat split; set_solver.
Qed.

Lemma idsWhere_ids p (l : list Device) k : k ∈ idsWhere p l -> k ∈ (id <$> l).
Proof.
  rewrite elem_of_idsWhere. intros (d & Hd & <- & _).
  by apply list_elem_of_fmap_2.
Qed.

Lemma idsWhere_proper p (l : list Device) :
  properIds l -> idsWhere p l ∖ {["__proto__"%string]} = idsWhere p l.
Proof.
  intros H. apply set_eq. intros k. rewrite elem_of_difference, elem_of_singleton.
  split; [by intros [? _]|]. intros Hk. split; [done|].
  intros ->. by apply H, (idsWhere_ids p).
Qed.

(** The same for a snapshot without the id [__proto__]. *)
Lemma trackDevices_dom now ds l :
  NoDup (id <$> l) -> properIds l ->
  let tr := trackDevices now ds l in
  activeDeviceIds tr = idsWhere (seenRecently now) l /\
  dom (active (status tr)) = idsWhere (seenRecently now) l /\
  dom (inactive (status tr)) =
    ((dom (inactive ds) ∪ dom (active ds)) ∖ idsWhere (seenRecently now) l)
    ∪ idsWhere (fun d => negb (seenRecently now d)) l.
Proof.
  intros Hnd Hp.
  destruct (trackDevices_keys now ds l Hnd) as (H1 & H2 & H3).
  cbv zeta. rewrite H1, H2, H3, !(idsWhere_proper _ _ Hp). done.
Qed.

End Tracking.

(** ** What the view updates leave alone *)

Section Frames.

Lemma keepsReading_id : keepsReading (fun d => d).
Proof. intros d. repeat split; reflexivity. Qed.

Lemma keepsReading_compose f g :
  keepsReading f -> keepsReading g -> keepsReading (fun d => g (f d)).
Proof.
  intros Hf Hg d.
  destruct (Hf d) as (?&?&?&?&?&?), (Hg (f d)) as (?&?&?&?&?&?).
  repeat split; congruence.
Qed.

Lemma updateDeviceList_frame st :
  let st' := updateDeviceList st in
  deviceStatus st' = deviceStatus st /\ deviceMarkers st' = deviceMarkers st /\
  geofenceCircle st' = geofenceCircle st /\ geofenceEnabled st' = geofenceEnabled st /\
  leafletMap st' = leafletMap st /\ mapInitialized st' = mapInitialized st /\
  showWhitelistedOnly st' = showWhitelistedOnly st /\
  userMarker st' = userMarker st /\ userLocation st' = userLocation st.
Proof.
  unfold updateDeviceList.
  destruct (showWhitelistedOnly st) eqn:E; simpl; rewrite ?E; repeat split; reflexivity.
Qed.

Lemma updateDeviceList_currentDevices st :
  currentDevices (updateDeviceList st) ≡ₚ currentDevices st.
Proof.
  unfold updateDeviceList. destruct (showWhitelistedOnly st); simpl; [done|].
  apply sortDevices_perm.
Qed.

Lemma placeDevice_fst st d m : (placeDevice st d m).1 = placed st d.
Proof.
  unfold placed, placeDevice. destruct (location d) as [l|]; [|done].
  by destruct (validCoordinates (coordinates l)).
Qed.

Lemma placeDevices_fst st l m : (placeDevices st l m).1 = placed st <$> l.
Proof.
  revert m. induction l as [|d l IH]; intros m; simpl; [done|].
  destruct (placeDevice st d m) as [d' m1] eqn:Hd.
  specialize (IH m1). destruct (placeDevices st l m1) as [l' m2]. simpl in *.
  f_equal; [|done]. by rewrite <- (placeDevice_fst st d m), Hd.
Qed.

Lemma placed_keepsReading st : keepsReading (placed st).
Proof.
  intros d. unfold placed, placeDevice.
  destruct (location d) as [l|] eqn:El; [|repeat split; reflexivity].
  destruct (validCoordinates (coordinates l)); simpl.
  - destruct (geofenceCircle st), (geofenceEnabled st), l;
      repeat split; simpl; rewrite ?El; reflexivity.
  - destruct l; repeat split; simpl; rewrite ?El; reflexivity.
Qed.

Lemma updateMarkers_frame st :
  let st' := updateMarkers st in
  deviceStatus st' = deviceStatus st /\
  geofenceCircle st' = geofenceCircle st /\ geofenceEnabled st' = geofenceEnabled st /\
  leafletMap st' = leafletMap st /\ mapInitialized st' = mapInitialized st /\
  showWhitelistedOnly st' = showWhitelistedOnly st /\
  userMarker st' = userMarker st /\ userLocation st' = userLocation st /\
  deviceList st' = deviceList st.
Proof.
  unfold updateMarkers.
  destruct (negb (leafletMap st) || negb (mapInitialized st));
    [simpl; repeat split; reflexivity|].
  destruct (placeDevices st (currentDevices st) (deviceMarkers st)).
  simpl; repeat split; reflexivity.
Qed.

Lemma updateMarkers_currentDevices st :
  currentDevices (updateMarkers st) =
  if leafletMap st && mapInitialized st
  then placed st <$> currentDevices st else currentDevices st.
Proof.
  unfold updateMarkers.
  destruct (leafletMap st), (mapInitialized st); simpl; try done.
  rewrite <- (placeDevices_fst st _ (deviceMarkers st)).
  by destruct (placeDevices st (currentDevices st) (deviceMarkers st)).
Qed.

Lemma updateMarkers_keeps st :
  exists f, keepsReading f /\
    currentDevices (updateMarkers st) = f <$> currentDevices st.
Proof.
  rewrite updateMarkers_currentDevices.
  destruct (leafletMap st && mapInitialized st).
  - exists (placed st). split; [apply placed_keepsReading|done].
  - exists (fun d => d). split; [apply keepsReading_id|]. by rewrite list_fmap_id.
Qed.

(** After the clean-up only the ids of the devices just drawn have a marker. *)
Lemma updateMarkers_markers st k :
  leafletMap st = true -> mapInitialized st = true ->
  is_Some (deviceMarkers (updateMarkers st) !! k) ->
  k ∈ (id <$> currentDevices st).
Proof.
  intros Hm Hi. unfold updateMarkers. rewrite Hm, Hi. simpl.
  pose proof (placeDevices_fst st (currentDevices st) (deviceMarkers st)) as Hp.
  destruct (placeDevices st (currentDevices st) (deviceMarkers st)) as [l m].
  simpl in *. subst l. unfold cleanUpMarkers.
  intros [mk Hk]. apply map_lookup_filter_Some in Hk as [_ Hk]. simpl in Hk.
  rewrite <- list_fmap_compose in Hk.
  apply list_elem_of_fmap in Hk as (d & Hk & Hd). subst k.
  destruct (placed_keepsReading st d) as [Hid _].
  unfold compose. rewrite Hid. by apply list_elem_of_fmap_2.
Qed.

Lemma updateStation_frame gps st :
  let st' := (updateStation gps st).1 in
  deviceStatus st' = deviceStatus st /\ currentDevices st' = currentDevices st /\
  deviceMarkers st' = deviceMarkers st /\
  geofenceCircle st' = geofenceCircle st /\ geofenceEnabled st' = geofenceEnabled st /\
  leafletMap st' = leafletMap st /\ mapInitialized st' = mapInitialized st /\
  deviceList st' = deviceList st.
Proof.
  unfold updateStation. simpl.
  destruct (leafletMap st) eqn:E1, (userMarker st) eqn:E2; simpl;
    repeat match goal with |- context [if ?b then _ else _] => destruct b end;
    simpl; rewrite ?E1, ?E2; repeat split; reflexivity.
Qed.

End Frames.

(** ** Snapshots *)

Section Snapshot.

Lemma viewOf_intro st : viewOf (currentDevices st) st.
Proof.
  exists (fun d => d), (currentDevices st).
  split; [apply keepsReading_id|]. split; [done|]. by rewrite list_fmap_id.
Qed.

Lemma viewOf_updateMarkers l st : viewOf l st -> viewOf l (updateMarkers st).
Proof.
  intros (f & L & Hf & HL & Hc).
  destruct (updateMarkers_keeps st) as (g & Hg & Hc').
  exists (fun d => g (f d)), L.
  split; [by apply keepsReading_compose|]. split; [done|].
  by rewrite Hc', Hc, <- list_fmap_compose.
Qed.

Lemma viewOf_updateDeviceList l st : viewOf l st -> viewOf l (updateDeviceList st).
Proof.
  intros (f & L & Hf & HL & Hc).
  pose proof (updateDeviceList_currentDevices st) as Hp. rewrite Hc in Hp.
  apply Permutation_map_inv in Hp as (L' & Hc' & HL').
  exists f, L'. split; [done|]. split; [|done]. by rewrite <- HL'.
Qed.

Lemma viewOf_eq l st st' :
  currentDevices st' = currentDevices st -> viewOf l st -> viewOf l st'.
Proof. intros H (f & L & ? & ? & ?). exists f, L. by rewrite H. Qed.

Lemma viewOf_ids l st : viewOf l st -> id <$> currentDevices st ≡ₚ id <$> l.
Proof.
  intros (f & L & Hf & HL & ->). rewrite <- HL, <- list_fmap_compose.
  assert (E : (id ∘ f) <$> L = id <$> L).
  { apply list_fmap_ext. intros i d _. apply Hf. }
  by rewrite E.
Qed.

Lemma viewOf_elem_of l st d' :
  viewOf l st -> d' ∈ currentDevices st -> exists d, d ∈ l /\ sameReading d d'.
Proof.
  intros (f & L & Hf & HL & ->) (d & -> & Hd)%list_elem_of_fmap.
  exists d. split; [by rewrite <- HL|apply Hf].
Qed.

Lemma viewOf_elem_of_inv l st d :
  viewOf l st -> d ∈ l -> exists d', d' ∈ currentDevices st /\ sameReading d d'.
Proof.
  intros (f & L & Hf & HL & ->) Hd. exists (f d).
  split; [|apply Hf]. apply list_elem_of_fmap_2. by rewrite HL.
Qed.

Lemma updateDeviceList_deviceList st :
  deviceList (updateDeviceList st) =
  sortDevices (if showWhitelistedOnly st
               then List.filter whitelisted (currentDevices st)
               else currentDevices st).
Proof. unfold updateDeviceList. by destruct (showWhitelistedOnly st). Qed.

Lemma updateDeviceList_rendered st d :
  d ∈ deviceList (updateDeviceList st) -> d ∈ currentDevices st.
Proof.
  rewrite updateDeviceList_deviceList, sortDevices_elem_of.
  destruct (showWhitelistedOnly st); [|done].
  rewrite !list_elem_of_In, filter_In. tauto.
Qed.

(** [ws.onmessage] up to its last statement, the second
    [updateMarkers(data.devices)]. *)
Lemma ws_onmessage_redraw now data st :
  let tr := trackDevices now (deviceStatus st) (devices data) in
  let l := stampActive (activeDeviceIds tr) (devices data) in
  exists st5,
    (ws_onmessage now data st).1 =
      (if bool_decide (devices data = []) then st5 else updateMarkers st5) /\
    viewOf l st5 /\ deviceStatus st5 = status tr /\
    geofenceCircle st5 = geofenceCircle st /\
    geofenceEnabled st5 = geofenceEnabled st /\
    leafletMap st5 = leafletMap st /\
    mapInitialized st5 = mapInitialized st /\
    (forall d, d ∈ deviceList st5 -> d ∈ l) /\
    (leafletMap st = true -> mapInitialized st = true ->
     forall k, is_Some (deviceMarkers st5 !! k) -> k ∈ (id <$> l)).
Proof.
  unfold ws_onmessage. cbv zeta.
  change (deviceStatus (with_currentDevices (devices data) st)) with (deviceStatus st).
  change (currentDevices (with_currentDevices (devices data) st)) with (devices data).
  set (tr := trackDevices now _ _).
  set (l := stampActive _ _).
  set (st2 := with_deviceStatus _ _).
  set (st3 := updateDeviceList st2).
  set (st4 := if mapInitialized st3 && leafletMap st3 then _ else _).
  assert (H2 : viewOf l st2) by apply (viewOf_intro st2).
  pose proof (updateDeviceList_frame st2) as (F1 & F2 & F3 & F4 & F5 & F6 & _).
  fold st3 in F1, F2, F3, F4, F5, F6.
  assert (H3 : viewOf l st3) by by apply viewOf_updateDeviceList.
  assert (R3 : forall d, d ∈ deviceList st3 -> d ∈ l)
    by apply (updateDeviceList_rendered st2).
  pose proof (updateMarkers_frame st3) as (G1 & G3 & G4 & G5 & G6 & _ & _ & _ & G9).
  assert (H4 : viewOf l st4 /\ deviceStatus st4 = status tr /\
               geofenceCircle st4 = geofenceCircle st /\
               geofenceEnabled st4 = geofenceEnabled st /\
               leafletMap st4 = leafletMap st /\
               mapInitialized st4 = mapInitialized st /\
               deviceList st4 = deviceList st3 /\
               (leafletMap st = true -> mapInitialized st = true ->
                forall k, is_Some (deviceMarkers st4 !! k) -> k ∈ (id <$> l))).
  { subst st4. rewrite F5, F6. simpl.
    destruct (mapInitialized st) eqn:Ei, (leafletMap st) eqn:Em; simpl;
      (split; [by try apply viewOf_updateMarkers|]);
      rewrite ?G1, ?G3, ?G4, ?G5, ?G6, ?G9, ?F1, ?F3, ?F4, ?F5, ?F6; simpl;
      rewrite ?Ei, ?Em; repeat (split; [done|]); try done.
    intros _ _ k Hk. apply updateMarkers_markers in Hk; [|by rewrite F5|by rewrite F6].
    rewrite (viewOf_ids _ _ H3) in Hk. done. }
  clearbody st4. clear G1 G3 G4 G5 G6 G9.
  destruct H4 as (H4 & D4 & C4 & E4 & M4 & I4 & R4 & K4).
  assert (exists st5 eff, match monitoring_station data with
            | Some gpsLocation => updateStation gpsLocation st4
            | None => (st4, [])
            end = (st5, eff) /\
            deviceStatus st5 = deviceStatus st4 /\
            currentDevices st5 = currentDevices st4 /\
            deviceMarkers st5 = deviceMarkers st4 /\
            geofenceCircle st5 = geofenceCircle st4 /\
            geofenceEnabled st5 = geofenceEnabled st4 /\
            leafletMap st5 = leafletMap st4 /\
            mapInitialized st5 = mapInitialized st4 /\
            deviceList st5 = deviceList st4) as
    (st5 & eff & -> & D5 & L5 & K5 & C5 & E5 & M5 & I5 & R5).
  { destruct (monitoring_station data) as [gps|].
    - pose proof (updateStation_frame gps st4) as (?&?&?&?&?&?&?&?).
      destruct (updateStation gps st4) as [st5 eff]. by exists st5, eff.
    - by exists st4, []. }
  exists st5. simpl. split; [done|].
  split; [by apply (viewOf_eq _ st4)|].
  repeat split; try congruence.
  - intros d Hd. apply R3. congruence.
  - intros Hm Hi k Hk. rewrite K5 in Hk. by apply K4.
Qed.

Lemma stampActive_ids ids l : id <$> stampActive ids l = id <$> l.
Proof.
  unfold stampActive. rewrite <- list_fmap_compose. by apply list_fmap_ext.
Qed.

(** The state [ws.onmessage] leaves behind, field by field. *)
Lemma ws_onmessage_shape now data st :
  let st' := (ws_onmessage now data st).1 in
  let tr := trackDevices now (deviceStatus st) (devices data) in
  deviceStatus st' = status tr /\
  viewOf (stampActive (activeDeviceIds tr) (devices data)) st' /\
  (geofenceCircle st' = geofenceCircle st /\
   geofenceEnabled st' = geofenceEnabled st /\
   leafletMap st' = leafletMap st /\ mapInitialized st' = mapInitialized st) /\
  (leafletMap st = true -> mapInitialized st = true ->
   forall k, is_Some (deviceMarkers st' !! k) -> k ∈ (id <$> devices data)) /\
  (forall d, d ∈ deviceList st' ->
             d ∈ stampActive (activeDeviceIds tr) (devices data)).
Proof.
  destruct (ws_onmessage_redraw now data st)
    as (st5 & -> & H5 & D5 & C5 & E5 & M5 & I5 & R5 & K5).
  rewrite stampActive_ids in K5.
  pose proof (updateMarkers_frame st5) as (G1 & G3 & G4 & G5 & G6 & _ & _ & _ & G9).
  destruct (bool_decide (devices data = [])) eqn:Hnil.
  - repeat split; try congruence; done.
  - repeat split; try congruence.
    + by apply viewOf_updateMarkers.
    + intros Hm Hi k Hk.
      apply updateMarkers_markers in Hk; [|congruence|congruence].
      by rewrite (viewOf_ids _ _ H5), stampActive_ids in Hk.
    + intros d Hd. apply R5. congruence.
Qed.

End Snapshot.

(** ** Activity flags and tracked ids after a snapshot *)

Section Activity.

Lemma NoDup_id_inj (l : list Device) d1 d2 :
  NoDup (id <$> l) -> d1 ∈ l -> d2 ∈ l -> id d1 = id d2 -> d1 = d2.
Proof.
  intros Hnd [i Hi]%list_elem_of_lookup [j Hj]%list_elem_of_lookup Heq.
  assert (i = j) as ->; [|congruence].
  eapply NoDup_lookup; [exact Hnd| |].
  - by rewrite list_lookup_fmap, Hi.
  - by rewrite list_lookup_fmap, Hj; simpl; rewrite Heq.
Qed.

Lemma idsWhere_NoDup p (l : list Device) d :
  NoDup (id <$> l) -> d ∈ l -> (id d ∈ idsWhere p l <-> p d = true).
Proof.
  intros Hnd Hd. rewrite elem_of_idsWhere. split.
  - intros (d' & Hd' & Hid & Hp).
    by rewrite <- (NoDup_id_inj l d' d Hnd Hd' Hd Hid).
  - intros Hp. by exists d.
Qed.

Lemma trackDevices_ids now ds l :
  activeDeviceIds (trackDevices now ds l) = idsWhere (seenRecently now) l /\
  dom (active (status (trackDevices now ds l))) ⊆ idsWhere (seenRecently now) l.
Proof.
  unfold trackDevices.
  destruct (trackDevices_fold now (mkTracking (markAllInactive ds) ∅) l) as [H1 H2].
  simpl in *. rewrite markAllInactive_active, dom_empty_L in H2.
  rewrite H1, H2. split; set_solver.
Qed.

(** An id the snapshot does not mention keeps its place in [inactive]. *)
Lemma trackDevices_fold_other now tr l k :
  k ∉ (id <$> l) ->
  (k ∈ dom (inactive (status (foldl (trackDevice now) tr l)))
   <-> k ∈ dom (inactive (status tr))).
Proof.
  revert tr. induction l as [|d l IH]; intros tr Hk; simpl; [done|].
  rewrite fmap_cons, not_elem_of_cons in Hk. destruct Hk as [Hne Hk].
  rewrite (IH _ Hk). unfold trackDevice.
  destruct (seenRecently now d); simpl.
  - rewrite dom_removeKey. set_solver.
  - rewrite dom_setKey. set_solver.
Qed.

(** No id ever leaves the union of the two maps. *)
Lemma trackDevices_fold_tracked now tr l k :
  k ∈ dom (active (status tr)) ∪ dom (inactive (status tr)) ->
  let tr' := foldl (trackDevice now) tr l in
  k ∈ dom (active (status tr')) ∪ dom (inactive (status tr')).
Proof.
  revert tr. induction l as [|d l IH]; intros tr Hk; simpl; [done|].
  apply IH. unfold trackDevice.
  destruct (seenRecently now d); simpl.
  - unfold setKey, removeKey. case_bool_decide; [done|].
    rewrite dom_insert_L, dom_delete_L.
    destruct (decide (k = id d)); set_solver.
  - rewrite dom_setKey. set_solver.
Qed.

(** Every device the handler leaves in [currentDevices] is a device of the
    snapshot, flagged active when some device of the snapshot with its id
    was seen less than 30000 ms before [now]. *)
Lemma ws_onmessage_stamp now data st d' :
  d' ∈ currentDevices (ws_onmessage now data st).1 ->
  (exists d, d ∈ devices data /\ id d' = id d /\ last_seen d' = last_seen d) /\
  isActive d' = bool_decide (id d' ∈ idsWhere (seenRecently now) (devices data)).
Proof.
  intros Hd'.
  destruct (ws_onmessage_shape now data st) as (_ & Hv & _).
  destruct (viewOf_elem_of _ _ _ Hv Hd') as (d1 & Hd1 & Hid & Hls & _ & Hact & _).
  unfold stampActive in Hd1. rewrite list_elem_of_In, in_map_iff in Hd1.
  destruct Hd1 as (d & <- & Hd). rewrite <- list_elem_of_In in Hd.
  simpl in *. split; [by exists d|].
  rewrite Hact, Hid. by destruct (trackDevices_ids now (deviceStatus st) (devices data)) as [-> _].
Qed.

Lemma ws_onmessage_keeps_snapshot now data st d :
  d ∈ devices data ->
  exists d', d' ∈ currentDevices (ws_onmessage now data st).1 /\
             id d' = id d /\ last_seen d' = last_seen d.
Proof.
  intros Hd.
  destruct (ws_onmessage_shape now data st) as (_ & Hv & _).
  set (ids := activeDeviceIds _) in Hv.
  assert (Hs : set_isActive (bool_decide (id d ∈ ids)) d ∈ stampActive ids (devices data)).
  { unfold stampActive. rewrite list_elem_of_In, in_map_iff. exists d.
    split; [done|]. by rewrite <- list_elem_of_In. }
  destruct (viewOf_elem_of_inv _ _ _ Hv Hs) as (d' & Hd' & Hid & Hls & _).
  by exists d'.
Qed.

Lemma ws_onmessage_active_flag now data st d' :
  NoDup (id <$> devices data) ->
  d' ∈ currentDevices (ws_onmessage now data st).1 ->
  isActive d' = seenRecently now d'.
Proof.
  intros Hnd Hd'.
  destruct (ws_onmessage_stamp now data st d' Hd') as [(d & Hd & Hid & Hls) ->].
  assert (seenRecently now d' = seenRecently now d) as ->.
  { unfold seenRecently, timeDiff. by rewrite Hls. }
  rewrite Hid. destruct (seenRecently now d) eqn:Hs.
  - apply bool_decide_eq_true. by apply idsWhere_NoDup.
  - apply bool_decide_eq_false. rewrite idsWhere_NoDup by done. congruence.
Qed.

End Activity.

(** ** What a snapshot settles *)

(** C1, as the code has it.  When [ws.onmessage] processes, at time [now], a
    snapshot whose device ids are pairwise distinct, every record it leaves
    in [currentDevices] with [last_seen] time [t] has [isActive] true exactly
    when [now - t < 30000]; a record whose date does not parse is inactive;
    every device of the snapshot is among those records.  The flag is the one
    computed at [now]: it is stored in the record and only a later snapshot
    computes it again. *)
Theorem ws_onmessage_isActive now data st :
  NoDup (id <$> devices data) ->
  let st' := (ws_onmessage now data st).1 in
  (forall d' t, d' ∈ currentDevices st' -> last_seen d' = Some t ->
                (isActive d' = true <-> now - t < 30000)) /\
  (forall d', d' ∈ currentDevices st' -> last_seen d' = None ->
              isActive d' = false) /\
  (forall d, d ∈ devices data ->
             exists d', d' ∈ currentDevices st' /\ id d' = id d /\
                        last_seen d' = last_seen d).
Proof.
  intros Hnd st'. split; [|split].
  - intros d' t Hd' Hls.
    rewrite (ws_onmessage_active_flag now data st d' Hnd Hd').
    unfold seenRecently, timeDiff. rewrite Hls. apply Z.ltb_lt.
  - intros d' Hd' Hls. rewrite (ws_onmessage_active_flag now data st d' Hnd Hd').
    unfold seenRecently, timeDiff. by rewrite Hls.
  - intros d Hd. by apply ws_onmessage_keeps_snapshot.
Qed.

Lemma ws_onmessage_isActive_witness :
  let data := snapshot [exampleDevice "a" 39000; exampleDevice "b" 0] in
  NoDup (id <$> devices data) /\
  let st' := (ws_onmessage 40000 data initialState).1 in
  (forall d' t, d' ∈ currentDevices st' -> last_seen d' = Some t ->
                (isActive d' = true <-> 40000 - t < 30000)) /\
  (forall d', d' ∈ currentDevices st' -> last_seen d' = None ->
              isActive d' = false) /\
  (forall d, d ∈ devices data ->
             exists d', d' ∈ currentDevices st' /\ id d' = id d /\
                        last_seen d' = last_seen d).
Proof.
  assert (H : NoDup (id <$> [exampleDevice "a" 39000; exampleDevice "b" 0])).
  { apply (bool_decide_unpack _). vm_compute. reflexivity. }
  split; [exact H|].
  exact (ws_onmessage_isActive 40000
           (snapshot [exampleDevice "a" 39000; exampleDevice "b" 0]) initialState H).
Defined.

(** C1 as the spec states it fails twice.  Device "a", last seen at time 0,
    is flagged active by the snapshot processed at time 1000; at time 40000,
    no snapshot having arrived since, the record still says active although
    40000 ms have passed.  And in a snapshot processed at time 40000 that
    lists id "a" twice, last seen at 0 and at 39000, both records are flagged
    active. *)
Lemma isActive_not_reevaluated :
  (let st' := (ws_onmessage 1000 (snapshot [exampleDevice "a" 0]) initialState).1 in
   ~ forall d, d ∈ currentDevices st' -> isActive d = seenRecently 40000 d) /\
  (let st' := (ws_onmessage 40000
                 (snapshot [exampleDevice "a" 0; exampleDevice "a" 39000])
                 initialState).1 in
   ~ forall d, d ∈ currentDevices st' -> isActive d = seenRecently 40000 d).
Proof.
  split; intros st' H.
  - assert (Hc : currentDevices st' = [set_isActive true (exampleDevice "a" 0)])
      by (vm_compute; reflexivity).
    specialize (H (set_isActive true (exampleDevice "a" 0))).
    rewrite Hc in H. specialize (H ltac:(left)). discriminate H.
  - assert (Hc : currentDevices st' =
                 [set_isActive true (exampleDevice "a" 0);
                  set_isActive true (exampleDevice "a" 39000)])
      by (vm_compute; reflexivity).
    specialize (H (set_isActive true (exampleDevice "a" 0))).
    rewrite Hc in H. specialize (H ltac:(left)). discriminate H.
Qed.

(** ** Markers after a snapshot *)

Section Markers.

Lemma updateMarkerForDevice_mono hasMap d m k :
  is_Some (m !! k) -> is_Some (updateMarkerForDevice hasMap d m !! k).
Proof.
  intros Hk. unfold updateMarkerForDevice.
  destruct (location d); [|done].
  destruct (bool_decide (is_Some (m !! id d)));
    [rewrite lookup_insert_is_Some; destruct (decide (id d = k)); auto|].
  destruct (bool_decide (id d ∈ objectPrototypeNames)); [done|].
  destruct hasMap; [|done].
  rewrite lookup_insert_is_Some. destruct (decide (id d = k)); auto.
Qed.

Lemma placeDevice_mono st d m k :
  is_Some (m !! k) -> is_Some ((placeDevice st d m).2 !! k).
Proof.
  intros Hk. unfold placeDevice. destruct (location d) as [l|]; [|done].
  destruct (validCoordinates (coordinates l)); [|done].
  by apply updateMarkerForDevice_mono.
Qed.

Lemma placeDevice_marks st d m l :
  leafletMap st = true -> location d = Some l ->
  validCoordinates (coordinates l) = true ->
  id d ∉ objectPrototypeNames ->
  is_Some ((placeDevice st d m).2 !! id d).
Proof.
  intros Hm Hl Hv Hn. unfold placeDevice. rewrite Hl, Hv, Hm. simpl.
  unfold updateMarkerForDevice.
  match goal with |- context [location ?d2] =>
    assert (Hd2 : id d2 = id d /\ is_Some (location d2))
  end.
  { destruct (geofenceCircle st), (geofenceEnabled st), l; simpl;
      rewrite ?Hl; eauto. }
  destruct Hd2 as [Hid [l2 Hl2]]. rewrite Hl2, Hid.
  destruct (bool_decide (is_Some (m !! id d)));
    [rewrite lookup_insert_eq; eauto|].
  rewrite (bool_decide_eq_false_2 _ Hn). rewrite lookup_insert_eq. eauto.
Qed.

Lemma placeDevices_mono st l m k :
  is_Some (m !! k) -> is_Some ((placeDevices st l m).2 !! k).
Proof.
  revert m. induction l as [|d l IH]; intros m Hk; simpl; [done|].
  pose proof (placeDevice_mono st d m k Hk) as H1.
  destruct (placeDevice st d m) as [d' m1]. specialize (IH m1 H1).
  by destruct (placeDevices st l m1).
Qed.

Lemma placeDevices_marks st l m d loc :
  leafletMap st = true -> d ∈ l -> location d = Some loc ->
  validCoordinates (coordinates loc) = true ->
  id d ∉ objectPrototypeNames ->
  is_Some ((placeDevices st l m).2 !! id d).
Proof.
  intros Hm Hd Hl Hv Hn. revert m.
  induction l as [|d0 l IH]; intros m; [by apply elem_of_nil in Hd|].
  simpl. apply elem_of_cons in Hd as [<-|Hd].
  - pose proof (placeDevice_marks st d m loc Hm Hl Hv Hn) as H1.
    destruct (placeDevice st d m) as [d' m1].
    pose proof (placeDevices_mono st l m1 (id d) H1) as H2.
    by destruct (placeDevices st l m1).
  - destruct (placeDevice st d0 m) as [d' m1]. specialize (IH Hd m1).
    by destruct (placeDevices st l m1).
Qed.

(** With the map up, [updateMarkers] leaves a marker for every listed
    device whose location is in range and whose id is not a name plain
    objects inherit. *)
Lemma updateMarkers_marks st d loc :
  leafletMap st = true -> mapInitialized st = true ->
  d ∈ currentDevices st -> location d = Some loc ->
  validCoordinates (coordinates loc) = true ->
  id d ∉ objectPrototypeNames ->
  is_Some (deviceMarkers (updateMarkers st) !! id d).
Proof.
  intros Hm Hi Hd Hl Hv Hn. unfold updateMarkers. rewrite Hm, Hi. simpl.
  pose proof (placeDevices_fst st (currentDevices st) (deviceMarkers st)) as Hp.
  pose proof (placeDevices_marks st _ (deviceMarkers st) d loc Hm Hd Hl Hv Hn)
    as [mk Hk].
  destruct (placeDevices st (currentDevices st) (deviceMarkers st)) as [l m].
  simpl in *. subst l. exists mk. unfold cleanUpMarkers.
  apply map_lookup_filter_Some. split; [done|]. simpl.
  destruct (placed_keepsReading st d) as [Hid _]. rewrite <- Hid.
  apply list_elem_of_fmap_2. by apply list_elem_of_fmap_2.
Qed.

Lemma ws_onmessage_marks now data st d loc :
  leafletMap st = true -> mapInitialized st = true ->
  d ∈ devices data -> location d = Some loc ->
  validCoordinates (coordinates loc) = true ->
  id d ∉ objectPrototypeNames ->
  is_Some (deviceMarkers (ws_onmessage now data st).1 !! id d).
Proof.
  intros Hm Hi Hd Hl Hv Hn.
  destruct (ws_onmessage_redraw now data st)
    as (st5 & -> & H5 & _ & _ & _ & M5 & I5 & _).
  rewrite bool_decide_eq_false_2 by (intros E; rewrite E in Hd; by apply elem_of_nil in Hd).
  set (ids := activeDeviceIds _) in H5.
  assert (Hs : set_isActive (bool_decide (id d ∈ ids)) d ∈ stampActive ids (devices data)).
  { unfold stampActive. rewrite list_elem_of_In, in_map_iff. exists d.
    split; [done|]. by rewrite <- list_elem_of_In. }
  destruct (viewOf_elem_of_inv _ _ _ H5 Hs) as (d5 & Hd5 & Hid & _ & _ & _ & _ & Hc).
  simpl in Hid, Hc. rewrite Hl in Hc.
  destruct (location d5) as [l5|] eqn:Hl5; [|discriminate].
  simpl in Hc. injection Hc as Hc. rewrite <- Hid.
  apply (updateMarkers_marks st5 d5 l5); try congruence.
Qed.

End Markers.

(** ** Devices a snapshot leaves out *)

Local Open Scope R_scope.

Lemma Rltb_true x y : x < y -> Rltb x y = true.
Proof. intros H. unfold Rltb. by destruct (Rlt_dec x y). Qed.

Lemma Rltb_false x y : y <= x -> Rltb x y = false.
Proof. intros H. unfold Rltb. destruct (Rlt_dec x y); [Lra.lra|done]. Qed.

Lemma Rleb_true x y : x <= y -> Rleb x y = true.
Proof. intros H. unfold Rleb. by destruct (Rle_dec x y). Qed.

Lemma Rleb_false x y : y < x -> Rleb x y = false.
Proof. intros H. unfold Rleb. destruct (Rle_dec x y); [Lra.lra|done]. Qed.

Lemma validCoordinates_origin : validCoordinates (0, 0) = true.
Proof.
  unfold validCoordinates. simpl.
  rewrite !Rltb_false by Lra.lra. reflexivity.
Qed.

Local Close Scope R_scope.

(** C2, as the code has it.  An id that is a key of one of the two tracking
    maps is still one after any snapshot.  When the snapshot leaves the id
    out, it is a key of [inactive] and not of [active]; but no record with
    that id is left in [currentDevices] or in the rendered list, and with the
    map up its marker is gone as well. *)
Theorem ws_onmessage_omitted_device now data st k :
  k ∈ dom (active (deviceStatus st)) ∪ dom (inactive (deviceStatus st)) ->
  let st' := (ws_onmessage now data st).1 in
  (k ∈ dom (active (deviceStatus st')) ∪ dom (inactive (deviceStatus st'))) /\
  (k ∉ (id <$> devices data) ->
   (k ∈ dom (inactive (deviceStatus st'))) /\
   (k ∉ dom (active (deviceStatus st'))) /\
   (k ∉ (id <$> currentDevices st')) /\
   (k ∉ (id <$> deviceList st')) /\
   (leafletMap st = true -> mapInitialized st = true ->
    deviceMarkers st' !! k = None)).
Proof.
  intros Hk st'.
  destruct (ws_onmessage_shape now data st) as (Hds & Hv & _ & Hmk & Hdl).
  fold st' in Hds, Hv, Hmk, Hdl. rewrite Hds.
  assert (H0 : k ∈ dom (inactive (markAllInactive (deviceStatus st)))).
  { rewrite markAllInactive_inactive. set_solver. }
  split.
  - unfold trackDevices. apply trackDevices_fold_tracked. simpl. set_solver.
  - intros Hout. repeat split.
    + unfold trackDevices. by apply trackDevices_fold_other.
    + destruct (trackDevices_ids now (deviceStatus st) (devices data)) as [_ Hsub].
      intros Hin. apply Hsub in Hin. revert Hin.
      rewrite elem_of_idsWhere. intros (d & Hd & <- & _).
      apply Hout. by apply list_elem_of_fmap_2.
    + by rewrite (viewOf_ids _ _ Hv), stampActive_ids.
    + intros (d & -> & Hd)%list_elem_of_fmap. apply Hdl in Hd.
      apply Hout. rewrite <- (stampActive_ids (activeDeviceIds
        (trackDevices now (deviceStatus st) (devices data)))).
      by apply list_elem_of_fmap_2.
    + intros Hm Hi. apply eq_None_not_Some. intros Hs.
      apply Hout. by apply Hmk.
Qed.

Lemma ws_onmessage_omitted_device_witness :
  let st := (ws_onmessage 1000 (snapshot [exampleDevice "a" 0]) initialState).1 in
  let data := snapshot [exampleDevice "b" 1500] in
  ("a" ∈ dom (active (deviceStatus st)) ∪ dom (inactive (deviceStatus st))) /\
  let st' := (ws_onmessage 2000 data st).1 in
  ("a" ∈ dom (active (deviceStatus st')) ∪ dom (inactive (deviceStatus st'))) /\
  ("a" ∉ (id <$> devices data) ->
   ("a" ∈ dom (inactive (deviceStatus st'))) /\
   ("a" ∉ dom (active (deviceStatus st'))) /\
   ("a" ∉ (id <$> currentDevices st')) /\
   ("a" ∉ (id <$> deviceList st')) /\
   (leafletMap st = true -> mapInitialized st = true ->
    deviceMarkers st' !! "a" = None)).
Proof.
  intros st data.
  assert (H : "a" ∈ dom (active (deviceStatus st)) ∪ dom (inactive (deviceStatus st))).
  { apply (bool_decide_unpack _). vm_compute. reflexivity. }
  split; [exact H|].
  exact (ws_onmessage_omitted_device 2000 data st "a" H).
Defined.

(** C2 as the spec states it fails.  With the map up, a first snapshot
    creates the record of device "a" and its marker; a second snapshot that
    lists only device "b" leaves neither a record of "a" in [currentDevices]
    nor its marker. *)
Lemma snapshot_drops_omitted_device :
  let st0 := initializeMap initialState in
  let st1 := (ws_onmessage 1000 (snapshot [deviceAtOrigin "a" 0]) st0).1 in
  let st2 := (ws_onmessage 2000 (snapshot [exampleDevice "b" 1500]) st1).1 in
  (("a" ∈ (id <$> currentDevices st1)) /\ is_Some (deviceMarkers st1 !! "a")) /\
  (("a" ∉ (id <$> currentDevices st2)) /\ deviceMarkers st2 !! "a" = None).
Proof.
  intros st0 st1 st2.
  assert (Hm0 : leafletMap st0 = true /\ mapInitialized st0 = true) by done.
  destruct Hm0 as [Hm0 Hi0].
  destruct (ws_onmessage_shape 1000 (snapshot [deviceAtOrigin "a" 0]) st0)
    as (_ & Hv1 & (_ & _ & Hm1 & Hi1) & _).
  destruct (ws_onmessage_shape 2000 (snapshot [exampleDevice "b" 1500]) st1)
    as (_ & Hv2 & _ & Hmk2 & _).
  fold st1 in Hv1, Hm1, Hi1. fold st2 in Hv2, Hmk2.
  split; split.
  - rewrite (viewOf_ids _ _ Hv1), stampActive_ids. simpl. set_solver.
  - apply (ws_onmessage_marks 1000 (snapshot [deviceAtOrigin "a" 0]) st0
             (deviceAtOrigin "a" 0) (LatLng 0 0)); try done.
    + simpl. set_solver.
    + apply validCoordinates_origin.
    + apply (bool_decide_unpack _). vm_compute. reflexivity.
  - rewrite (viewOf_ids _ _ Hv2), stampActive_ids. simpl. set_solver.
  - apply eq_None_not_Some. intros Hs.
    apply Hmk2 in Hs; [|congruence|congruence]. simpl in Hs. set_solver.
Qed.

(** ** Great-circle distances *)

Section GreatCircle.

Local Open Scope R_scope.

(** With [a] below 1 the two-argument arctangent of the haversine formula
    is the plain one. *)
Lemma atan2_haversine a :
  0 <= a < 1 -> atan2 (sqrt a) (sqrt (1 - a)) = atan (sqrt a / sqrt (1 - a)).
Proof.
  intros Ha. unfold atan2.
  destruct (Rlt_dec 0 (sqrt (1 - a))) as [|Hn]; [reflexivity|].
  exfalso. apply Hn. apply sqrt_lt_R0. Lra.lra.
Qed.

(** The half central angle has sine [sqrt a]. *)
Lemma sin_half_angle a :
  0 <= a < 1 -> sin (atan (sqrt a / sqrt (1 - a))) = sqrt a.
Proof.
  intros Ha. rewrite sin_atan.
  assert (Hc : 0 < sqrt (1 - a)) by (apply sqrt_lt_R0; Lra.lra).
  assert (Hss : sqrt a * sqrt a = a) by (apply sqrt_sqrt; Lra.lra).
  assert (Hcc : sqrt (1 - a) * sqrt (1 - a) = 1 - a) by (apply sqrt_sqrt; Lra.lra).
  set (s := sqrt a) in *. set (c := sqrt (1 - a)) in *.
  replace (1 + (s / c)²) with (Rsqr (/ c)).
  - rewrite sqrt_Rsqr; [field; Lra.lra|].
    left. by apply Rinv_0_lt_compat.
  - unfold Rsqr. field_simplify_eq; [|Lra.lra]. nra.
Qed.

(** [sin] is sublinear under doubling of the angle, up to a right angle. *)
Lemma sin_doubling k v :
  0 <= v -> 2 ^ k * v <= PI / 2 -> sin (2 ^ k * v) <= 2 ^ k * sin v.
Proof.
  intros Hv. induction k as [|k IH]; intros Hk; simpl in *.
  - rewrite !Rmult_1_l. Lra.lra.
  - assert (Hp : 0 < 2 ^ k) by (apply pow_lt; Lra.lra).
    assert (Hw : 0 <= 2 ^ k * v) by nra.
    replace (2 * 2 ^ k * v) with (2 * (2 ^ k * v)) in * by ring.
    rewrite sin_2a.
    pose proof PI_RGT_0.
    assert (Hs : 0 <= sin (2 ^ k * v)) by (apply sin_ge_0; Lra.lra).
    pose proof (COS_bound (2 ^ k * v)) as [_ Hcos].
    specialize (IH ltac:(Lra.lra)). nra.
Qed.

(** The haversine term between the point [(x, x)] and the origin. *)
Lemma haversine_diagonal x :
  let v := x * (PI / 180) in
  sin ((0 - x) * (PI / 180) / 2) * sin ((0 - x) * (PI / 180) / 2)
  + cos (x * (PI / 180)) * cos (0 * (PI / 180))
    * sin ((0 - x) * (PI / 180) / 2) * sin ((0 - x) * (PI / 180) / 2)
  = sin v * sin v / 2.
Proof.
  intros v. unfold v. set (w := x * (PI / 180) / 2).
  replace ((0 - x) * (PI / 180) / 2) with (- w) by (unfold w; field).
  replace (0 * (PI / 180)) with 0 by ring.
  replace (x * (PI / 180)) with (2 * w) by (unfold w; field).
  rewrite sin_neg, cos_0, cos_2a_cos, sin_2a. field.
Qed.

Lemma distanceTo_diagonal x :
  0 <= x <= 90 ->
  let v := x * (PI / 180) in
  let a := sin v * sin v / 2 in
  0 <= a < 1 /\
  distanceTo (x, x) (0, 0) = 6371000 * (2 * atan (sqrt a / sqrt (1 - a))).
Proof.
  intros Hx v a.
  assert (Ha : 0 <= a < 1).
  { pose proof (SIN_bound v) as [? ?]. subst a. split; nra. }
  split; [exact Ha|].
  unfold distanceTo. simpl fst. simpl snd.
  pose proof (haversine_diagonal x) as E. cbv zeta in E. rewrite E.
  fold v. fold a. by rewrite atan2_haversine.
Qed.

(** The half central angle is at most the angle [v] itself. *)
Lemma half_angle_upper v :
  0 <= v <= PI / 2 ->
  atan (sqrt (sin v * sin v / 2) / sqrt (1 - sin v * sin v / 2)) <= v.
Proof.
  intros Hv. set (a := sin v * sin v / 2).
  pose proof PI_RGT_0.
  assert (Hs : 0 <= sin v) by (apply sin_ge_0; Lra.lra).
  assert (Ha : 0 <= a < 1).
  { pose proof (SIN_bound v) as [? ?]. subst a. split; nra. }
  pose proof (atan_bound (sqrt a / sqrt (1 - a))) as [Hlo Hhi].
  apply sin_incr_0; try Lra.lra.
  rewrite sin_half_angle by exact Ha.
  apply Rle_trans with (sqrt (sin v * sin v)).
  - apply sqrt_le_1_alt. subst a. nra.
  - rewrite sqrt_square by exact Hs. Lra.lra.
Qed.

(** The half central angle exceeds every [y] whose square is below [a]. *)
Lemma half_angle_lower a y :
  0 <= a < 1 -> 0 < y <= PI / 2 -> y * y <= a ->
  y < atan (sqrt a / sqrt (1 - a)).
Proof.
  intros Ha Hy Hya.
  pose proof (atan_bound (sqrt a / sqrt (1 - a))) as [Hlo Hhi].
  destruct (Rle_lt_dec (atan (sqrt a / sqrt (1 - a))) y) as [Hle|Hlt]; [|exact Hlt].
  exfalso.
  assert (Hsin : sin (atan (sqrt a / sqrt (1 - a))) <= sin y)
    by (apply sin_incr_1; Lra.lra).
  rewrite sin_half_angle in Hsin by exact Ha.
  pose proof (sin_lt_x y ltac:(Lra.lra)) as Hlt.
  assert (Hsq : y <= sqrt a).
  { rewrite <- (sqrt_square y) by Lra.lra. by apply sqrt_le_1_alt. }
  Lra.lra.
Qed.

(** About 157 m: the point (0.001, 0.001) is within 500 m of the origin. *)
Lemma distanceTo_near : distanceTo (0.001, 0.001) (0, 0) <= 500.
Proof.
  destruct (distanceTo_diagonal 0.001 ltac:(Lra.lra)) as [Ha ->].
  pose proof PI_RGT_0. pose proof PI_4.
  pose proof (half_angle_upper (0.001 * (PI / 180)) ltac:(Lra.lra)).
  Lra.lra.
Qed.

(** About 1572 m: the point (0.01, 0.01) is more than 500 m from the origin. *)
Lemma distanceTo_far : 500 < distanceTo (0.01, 0.01) (0, 0).
Proof.
  destruct (distanceTo_diagonal 0.01 ltac:(Lra.lra)) as [Ha ->].
  pose proof PI_RGT_0. pose proof PI_4. pose proof PI2_3_2.
  set (v := 0.01 * (PI / 180)) in *.
  assert (Hsin : / 8192 <= sin v).
  { pose proof (sin_doubling 12 v ltac:(unfold v; Lra.lra)) as Hd.
    replace (2 ^ 12) with 4096 in Hd by (simpl; Lra.lra).
    assert (Hhalf : sin (PI / 6) <= sin (4096 * v))
      by (apply sin_incr_1; unfold v; Lra.lra).
    rewrite sin_PI6 in Hhalf.
    specialize (Hd ltac:(unfold v; Lra.lra)). Lra.lra. }
  pose proof (half_angle_lower (sin v * sin v / 2) (/ 25484) Ha
                ltac:(Lra.lra) ltac:(nra)).
  Lra.lra.
Qed.

End GreatCircle.

(** ** Geofence evaluation *)

Section Geofence.

Lemma checkDevices_fst hasMap circle l m :
  (checkDevices hasMap circle l m).1 = checked circle <$> l.
Proof.
  revert m. induction l as [|d l IH]; intros m; simpl; [done|].
  unfold checkDevice, checked at 1.
  destruct (location d) as [loc|].
  - specialize (IH (updateMarkerForDevice hasMap
      (set_insideGeofence (withinCircle circle (coordinates loc)) d) m)).
    destruct (checkDevices hasMap circle l _) as [l' m2]. simpl in *.
    by f_equal.
  - specialize (IH m). destruct (checkDevices hasMap circle l m) as [l' m2].
    simpl in *. by f_equal.
Qed.

Lemma checkDevicesAgainstGeofence_devices st circle :
  geofenceCircle st = Some circle -> geofenceEnabled st = true ->
  currentDevices (checkDevicesAgainstGeofence st)
  ≡ₚ checked circle <$> currentDevices st.
Proof.
  intros Hc He. unfold checkDevicesAgainstGeofence. rewrite Hc, He. simpl.
  pose proof (checkDevices_fst (leafletMap st) circle (currentDevices st)
                (deviceMarkers st)) as Hf.
  destruct (checkDevices _ circle _ _) as [l m]. simpl in Hf. subst l.
  by rewrite updateDeviceList_currentDevices.
Qed.

Lemma checked_flag circle d' (l : list Device) loc :
  d' ∈ checked circle <$> l -> location d' = Some loc ->
  insideGeofence d' = Some (withinCircle circle (coordinates loc)).
Proof.
  intros (d & -> & _)%list_elem_of_fmap. unfold checked.
  destruct (location d) as [loc'|] eqn:Hl; simpl.
  - rewrite Hl. by intros [= ->].
  - rewrite Hl. discriminate.
Qed.

(** A device without location goes through both geofence passes untouched. *)
Lemma checked_without_location circle d :
  location d = None -> checked circle d = d.
Proof. intros H. unfold checked. by rewrite H. Qed.

Lemma placed_without_location st d :
  location d = None -> placed st d = d.
Proof. intros H. unfold placed, placeDevice. by rewrite H. Qed.

Lemma placed_flag st circle d' (l : list Device) loc :
  geofenceCircle st = Some circle -> geofenceEnabled st = true ->
  d' ∈ placed st <$> l -> location d' = Some loc ->
  validCoordinates (coordinates loc) = true ->
  insideGeofence d' = Some (withinCircle circle (coordinates loc)).
Proof.
  intros Hc He (d & -> & _)%list_elem_of_fmap. unfold placed, placeDevice.
  rewrite Hc, He.
  destruct (location d) as [l0|] eqn:Hl; simpl; [|by rewrite Hl].
  destruct (validCoordinates (coordinates l0)) eqn:Hv; simpl.
  - destruct l0; simpl; rewrite ?Hl; by intros [= <-].
  - destruct l0; simpl; rewrite ?Hl; intros [= <-] Hv'; simpl in *; congruence.
Qed.

Lemma withinCircle_iff circle p :
  withinCircle circle p = true <->
  (distanceTo p (getLatLng circle) <= getRadius circle)%R.
Proof.
  unfold withinCircle, Rleb.
  destruct (Rle_dec (distanceTo p (getLatLng circle)) (getRadius circle)); split;
    try done.
Qed.

Lemma setGeofenceAtPosition_devices latlng st :
  currentDevices (setGeofenceAtPosition latlng st)
  ≡ₚ checked (mkCircle latlng 500%R) <$> currentDevices st.
Proof.
  unfold setGeofenceAtPosition.
  by rewrite (checkDevicesAgainstGeofence_devices _ (mkCircle latlng 500%R)).
Qed.

End Geofence.



(** ** A zone that is unset or disabled *)

Section DisabledZone.

Lemma distanceTo_refl p : distanceTo p p = 0%R.
Proof.
  unfold distanceTo. destruct p as [lat lng]. simpl.
  replace ((lat - lat) * (PI / 180) / 2)%R with 0%R by field.
  replace ((lng - lng) * (PI / 180) / 2)%R with 0%R by field.
  rewrite sin_0, !Rmult_0_l, !Rmult_0_r, Rplus_0_l, Rminus_0_r, sqrt_0, sqrt_1.
  unfold atan2. destruct (Rlt_dec 0 1) as [_|Hn]; [|exfalso; apply Hn; Lra.lra].
  unfold Rdiv. rewrite Rmult_0_l, atan_0. ring.
Qed.

Lemma checkDevicesAgainstGeofence_frame st :
  let st' := checkDevicesAgainstGeofence st in
  geofenceCircle st' = geofenceCircle st /\
  geofenceEnabled st' = geofenceEnabled st /\
  leafletMap st' = leafletMap st /\ mapInitialized st' = mapInitialized st.
Proof.
  unfold checkDevicesAgainstGeofence.
  destruct (geofenceCircle st) as [circle|] eqn:Hc; [|by rewrite Hc].
  destruct (geofenceEnabled st) eqn:He; simpl; [|by rewrite Hc, He].
  destruct (checkDevices _ circle _ _) as [l m].
  destruct (updateDeviceList_frame
              (with_deviceMarkers m (with_currentDevices l st)))
    as (_ & _ & -> & -> & -> & -> & _).
  simpl. by rewrite Hc, He.
Qed.

(** Switching an enabled zone off changes the flag and nothing else. *)
Lemma toggleGeofence_off st circle :
  geofenceCircle st = Some circle -> geofenceEnabled st = true ->
  toggleGeofence st = with_geofence (Some circle) false st.
Proof.
  intros Hc He. unfold toggleGeofence. rewrite Hc, He. reflexivity.
Qed.

(** The guard of [checkDevicesAgainstGeofence]. *)
Lemma checkDevicesAgainstGeofence_disabled st :
  geofenceCircle st = None \/ geofenceEnabled st = false ->
  checkDevicesAgainstGeofence st = st.
Proof.
  intros H. unfold checkDevicesAgainstGeofence.
  destruct H as [-> | ->]; [done|]. by destruct (geofenceCircle st).
Qed.

Lemma placed_insideGeofence st d :
  geofenceCircle st = None \/ geofenceEnabled st = false ->
  insideGeofence (placed st d) = insideGeofence d.
Proof.
  intros H. unfold placed, placeDevice.
  destruct (location d) as [l|]; [|done].
  destruct (validCoordinates (coordinates l)); simpl.
  - destruct H as [-> | ->]; destruct l; simpl; try done;
      by destruct (geofenceCircle st).
  - by destruct l.
Qed.

End DisabledZone.

(** C4, as the code has it.  While the zone is unset or disabled, geofence
    evaluation writes no [insideGeofence] field: [checkDevicesAgainstGeofence]
    returns at once and leaves the whole state as it is, and [updateMarkers]
    leaves every device's field as it finds it.  A field that was never set
    stays absent; a field set while the zone was enabled keeps its value. *)
Theorem disabled_geofence_writes_nothing st :
  geofenceCircle st = None \/ geofenceEnabled st = false ->
  checkDevicesAgainstGeofence st = st /\
  insideGeofence <$> currentDevices (updateMarkers st)
  = insideGeofence <$> currentDevices st.
Proof.
  intros H. split.
  - by apply checkDevicesAgainstGeofence_disabled.
  - rewrite updateMarkers_currentDevices.
    destruct (leafletMap st && mapInitialized st); [|done].
    rewrite <- list_fmap_compose. apply list_fmap_ext.
    intros i d _. simpl. by apply placed_insideGeofence.
Qed.

Lemma disabled_geofence_writes_nothing_witness :
  (geofenceCircle insideThenDisabled = None \/
   geofenceEnabled insideThenDisabled = false) /\
  checkDevicesAgainstGeofence insideThenDisabled = insideThenDisabled /\
  insideGeofence <$> currentDevices (updateMarkers insideThenDisabled)
  = insideGeofence <$> currentDevices insideThenDisabled.
Proof.
  assert (H : geofenceCircle insideThenDisabled = None \/
              geofenceEnabled insideThenDisabled = false).
  { right. unfold insideThenDisabled, setGeofenceAtPosition.
    set (st := with_geofence _ true _).
    destruct (checkDevicesAgainstGeofence_frame st) as (Hc & He & _).
    by rewrite (toggleGeofence_off _ (mkCircle (0%R, 0%R) 500%R)). }
  split; [exact H|].
  exact (disabled_geofence_writes_nothing insideThenDisabled H).
Defined.

(** C4 as the spec states it fails.  Device "a" stands at the center of the
    zone and is flagged inside; after [toggleGeofence] has disabled the zone
    and run its evaluation pass, and after one more pass, the flag is still
    [true]. *)
Lemma toggleGeofence_leaves_flag :
  let st1 := setGeofenceAtPosition (0%R, 0%R)
               (with_currentDevices [deviceAtOrigin "a" 0]
                  (initializeMap initialState)) in
  let st2 := toggleGeofence st1 in
  insideGeofence <$> currentDevices st1 = [Some true] /\
  geofenceEnabled st2 = false /\
  insideGeofence <$> currentDevices st2 = [Some true] /\
  insideGeofence <$> currentDevices (checkDevicesAgainstGeofence st2) = [Some true].
Proof.
  intros st1 st2.
  assert (H1 : insideGeofence <$> currentDevices st1 = [Some true]).
  { pose proof (setGeofenceAtPosition_devices (0%R, 0%R)
                  (with_currentDevices [deviceAtOrigin "a" 0]
                     (initializeMap initialState))) as Hp.
    fold st1 in Hp.
    apply (Permutation_singleton_r _
             (checked (mkCircle (0%R, 0%R) 500%R) (deviceAtOrigin "a" 0))) in Hp.
    rewrite Hp. unfold checked, withinCircle. simpl.
    rewrite distanceTo_refl, Rleb_true by Lra.lra. reflexivity. }
  assert (H2 : st2 = with_geofence (Some (mkCircle (0%R, 0%R) 500%R)) false st1).
  { unfold st2, st1, setGeofenceAtPosition.
    set (st := with_geofence _ true _).
    destruct (checkDevicesAgainstGeofence_frame st) as (Hc & He & _).
    by apply toggleGeofence_off. }
  split; [exact H1|]. rewrite H2. repeat split; exact H1.
Qed.

(** ** Devices without a location *)

Section WithoutLocation.

(** [checkDevicesAgainstGeofence] and [updateMarkers] skip a device that
    has no location: the record comes out as it went in. *)
Lemma checkDevicesAgainstGeofence_without_location st d' :
  d' ∈ currentDevices (checkDevicesAgainstGeofence st) ->
  location d' = None -> d' ∈ currentDevices st.
Proof.
  intros Hd' Hl.
  destruct (geofenceCircle st) as [circle|] eqn:Hc;
    [destruct (geofenceEnabled st) eqn:He|].
  - rewrite (checkDevicesAgainstGeofence_devices st circle Hc He) in Hd'.
    apply list_elem_of_fmap in Hd' as (d & -> & Hd). unfold checked in *.
    destruct (location d) eqn:E; [simpl in Hl; congruence|done].
  - by rewrite (checkDevicesAgainstGeofence_disabled st (or_intror He)) in Hd'.
  - by rewrite (checkDevicesAgainstGeofence_disabled st (or_introl Hc)) in Hd'.
Qed.

Lemma updateMarkers_without_location st d' :
  d' ∈ currentDevices (updateMarkers st) ->
  location d' = None -> d' ∈ currentDevices st.
Proof.
  rewrite updateMarkers_currentDevices.
  destruct (leafletMap st && mapInitialized st); [|done].
  intros (d & -> & Hd)%list_elem_of_fmap Hl.
  destruct (location d) as [l|] eqn:E.
  - exfalso. destruct (placed_keepsReading st d) as (_&_&_&_&_&Hc).
    rewrite Hl, E in Hc. discriminate.
  - by rewrite placed_without_location.
Qed.

(** [processDeviceData] has no such guard: with a zone and a map, a device
    without location makes [device.location.latitude] throw. *)
Lemma processDevice_without_location now st circle d ds m :
  geofenceCircle st = Some circle -> leafletMap st = true ->
  location d = None -> exists e, processDevice now st d ds m = inr e.
Proof.
  intros Hc Hm Hl. unfold processDevice. rewrite Hc, Hm. simpl.
  rewrite Hl. eauto.
Qed.

End WithoutLocation.

(** ** Station fixes *)

Section Station.

Local Open Scope R_scope.

(** Along the equator the distance is the arc of the longitude difference. *)
Lemma distanceTo_equator x1 x2 :
  0 <= x2 - x1 <= 90 ->
  distanceTo (0, x1) (0, x2) = 6371000 * ((x2 - x1) * (PI / 180)).
Proof.
  intros Hx. unfold distanceTo. simpl fst. simpl snd.
  set (w := (x2 - x1) * (PI / 180) / 2).
  replace ((0 - 0) * (PI / 180) / 2) with 0 by field.
  replace (0 * (PI / 180)) with 0 by ring.
  rewrite sin_0, cos_0.
  replace (0 * 0 + 1 * 1 * sin w * sin w) with (sin w * sin w) by ring.
  pose proof PI_RGT_0. pose proof PI_4.
  assert (Hw : 0 <= w <= PI / 4) by (unfold w; split; nra).
  assert (Hs : 0 <= sin w) by (apply sin_ge_0; Lra.lra).
  assert (Hcos : 0 < cos w) by (apply cos_gt_0; Lra.lra).
  pose proof (sin2_cos2 w) as Hsc. unfold Rsqr in Hsc.
  assert (Ha : 0 <= sin w * sin w < 1) by (split; nra).
  rewrite atan2_haversine by exact Ha.
  set (theta := atan (sqrt (sin w * sin w) / sqrt (1 - sin w * sin w))).
  assert (Hsin : sin theta = sin w).
  { unfold theta. rewrite sin_half_angle by exact Ha. by apply sqrt_square. }
  pose proof (atan_bound (sqrt (sin w * sin w) / sqrt (1 - sin w * sin w)))
    as [Hlo Hhi]. fold theta in Hlo, Hhi.
  assert (theta = w) as ->.
  { apply Rle_antisym; apply sin_incr_0; Lra.lra. }
  unfold w. field.
Qed.

(** About 11 m. *)
Lemma second_fix_is_near : distanceTo (0, 0) (0, 0.0001) < 100.
Proof.
  rewrite distanceTo_equator by Lra.lra.
  pose proof PI_RGT_0. pose proof PI_4. Lra.lra.
Qed.

(** About 1100 m. *)
Lemma third_fix_is_far : 100 < distanceTo (0, 0.0001) (0, 0.01).
Proof.
  rewrite distanceTo_equator by Lra.lra.
  pose proof PI2_3_2. Lra.lra.
Qed.

Local Close Scope R_scope.

(** On a ready map the station block moves the marker and never calls
    [map.setView]: the distance it tests is the one from the marker, just
    moved, to the fix. *)
Lemma updateStation_ready gps st :
  mapReady st ->
  (updateStation gps st).2 = [] /\ mapReady (updateStation gps st).1 /\
  userMarker (updateStation gps st).1 = Some gps.
Proof.
  intros (Hm & Hi & [mk Hk]). unfold updateStation. simpl.
  rewrite Hm, Hk. simpl. rewrite Hi. unfold getDistance. simpl.
  rewrite Hm, distanceTo_refl, Rltb_false by Lra.lra. simpl.
  unfold mapReady. simpl. rewrite Hm, Hi. repeat split; eauto.
Qed.

Lemma ws_onmessage_station now data st gps :
  monitoring_station data = Some gps -> mapReady st ->
  moved (ws_onmessage now data st).2 = false /\
  mapReady (ws_onmessage now data st).1 /\
  userMarker (ws_onmessage now data st).1 = Some gps.
Proof.
  intros Hgps (Hm & Hi & Hk). unfold ws_onmessage. cbv zeta. rewrite Hgps.
  set (st2 := with_deviceStatus _ _).
  set (st3 := updateDeviceList st2).
  set (st4 := if mapInitialized st3 && leafletMap st3 then _ else _).
  assert (H3 : mapReady st3).
  { destruct (updateDeviceList_frame st2) as (_&_&_&_& F5 & F6 &_& F8 &_).
    fold st3 in F5, F6, F8. unfold mapReady. by rewrite F5, F6, F8. }
  assert (H4 : mapReady st4).
  { subst st4. destruct (mapInitialized st3 && leafletMap st3); [|done].
    destruct (updateMarkers_frame st3) as (_&_&_& G5 & G6 &_& G8 &_).
    destruct H3 as (?&?&?). unfold mapReady. by rewrite G5, G6, G8. }
  clearbody st4.
  destruct (updateStation_ready gps st4 H4) as (He & H5 & Hmk).
  destruct (updateStation gps st4) as [st5 eff]. simpl in He, H5, Hmk. subst eff.
  destruct H5 as (Hm5 & Hi5 & Hk5). rewrite Hi5. simpl.
  destruct (updateMarkers_frame st5) as (_&_&_& G5 & G6 &_& G8 &_).
  split; [done|].
  destruct (bool_decide (devices data = [])); simpl; unfold mapReady.
  - by rewrite Hm5, Hi5, Hmk.
  - by rewrite G5, G6, G8, Hm5, Hi5, Hmk.
Qed.

End Station.

(** C6 fails on the code.  On the page as it stands after load (map
    initialized, station marker placed) the fixes (0,0), (0,0.0001), (0,0.01)
    re-center the view never, although the third lies more than 100 m from
    the second: the marker is moved to the new fix before the distance that
    should decide is measured from it. *)
Theorem station_fixes_never_recenter :
  movedFlags 0 [(0%R, 0%R); (0%R, 0.0001%R); (0%R, 0.01%R)]
             (initializeMap initialState)
  = [false; false; false] /\
  (distanceTo (0, 0) (0, 0.0001) < 100)%R /\
  (100 < distanceTo (0, 0.0001) (0, 0.01))%R.
Proof.
  split; [|split; [apply second_fix_is_near|apply third_fix_is_far]].
  assert (H0 : mapReady (initializeMap initialState)).
  { unfold mapReady. simpl. eauto. }
  unfold movedFlags.
  destruct (ws_onmessage_station 0 (mkMessage [] (Some (0%R, 0%R))) _ _ eq_refl H0)
    as (E1 & H1 & _).
  destruct (ws_onmessage 0 (mkMessage [] (Some (0%R, 0%R))) _) as [st1 eff1].
  simpl in E1, H1. rewrite E1.
  destruct (ws_onmessage_station 0 (mkMessage [] (Some (0%R, 0.0001%R))) _ _ eq_refl H1)
    as (E2 & H2 & _).
  destruct (ws_onmessage 0 (mkMessage [] (Some (0%R, 0.0001%R))) _) as [st2 eff2].
  simpl in E2, H2. rewrite E2.
  destruct (ws_onmessage_station 0 (mkMessage [] (Some (0%R, 0.01%R))) _ _ eq_refl H2)
    as (E3 & _).
  destruct (ws_onmessage 0 (mkMessage [] (Some (0%R, 0.01%R))) _) as [st3 eff3].
  simpl in E3. by rewrite E3.
Qed.

(** ** The whitelist handlers *)

Section Whitelist.

Lemma refreshViews_spec st :
  viewOf (currentDevices st) (refreshViews st) /\
  deviceList (refreshViews st) =
    sortDevices (if showWhitelistedOnly st
                 then List.filter whitelisted (currentDevices st)
                 else currentDevices st).
Proof.
  unfold refreshViews.
  pose proof (viewOf_updateDeviceList _ _ (viewOf_intro st)) as Hv.
  pose proof (updateDeviceList_deviceList st) as Hl.
  destruct (mapInitialized (updateDeviceList st) && leafletMap (updateDeviceList st)).
  - split; [by apply viewOf_updateMarkers|].
    by destruct (updateMarkers_frame (updateDeviceList st))
      as (_&_&_&_&_&_&_&_& ->).
  - done.
Qed.

(** [findIndex] finds the first record with the id; [f] is applied there. *)
Lemma updateFound_found deviceId f (l : list Device) :
  deviceId ∈ (id <$> l) ->
  exists d, d ∈ l /\ id d = deviceId /\ f d ∈ updateFound deviceId f l.
Proof.
  induction l as [|d l IH]; simpl; [by intros ?%elem_of_nil|].
  intros Hin. case_bool_decide as Hd.
  - exists d. repeat split; [left|done|left].
  - apply elem_of_cons in Hin as [Hin|Hin]; [congruence|].
    destruct (IH Hin) as (d0 & H1 & H2 & H3).
    exists d0. repeat split; [by right|done|by right].
Qed.

Lemma updateFound_elem_of deviceId f (l : list Device) d' :
  d' ∈ updateFound deviceId f l ->
  d' ∈ l \/ exists d, d ∈ l /\ id d = deviceId /\ d' = f d.
Proof.
  induction l as [|d l IH]; simpl; [by intros ?%elem_of_nil|].
  case_bool_decide as Hd.
  - intros [->|H]%elem_of_cons.
    + right. exists d. repeat split; [left|done].
    + left. by right.
  - intros [->|H]%elem_of_cons; [left; left|].
    destruct (IH H) as [?|(d0 & ? & ? & ?)]; [left; by right|].
    right. exists d0. repeat split; [by right|done|done].
Qed.

Lemma updateFound_NoDup deviceId f (l : list Device) d' :
  (forall d, id (f d) = id d) ->
  NoDup (id <$> l) -> d' ∈ updateFound deviceId f l -> id d' = deviceId ->
  exists d, d ∈ l /\ d' = f d.
Proof.
  intros Hf. induction l as [|d l IH]; simpl; [by intros _ ?%elem_of_nil|].
  intros [Hd Hnd]%NoDup_cons. case_bool_decide as Hid.
  - intros [->|H]%elem_of_cons Hd'; [exists d; split; [left|done]|].
    exfalso. apply Hd. rewrite Hid, <- Hd'.
    by apply list_elem_of_fmap_2.
  - intros [->|H]%elem_of_cons Hd'; [congruence|].
    destruct (IH Hnd H Hd') as (d0 & ? & ?). exists d0. split; [by right|done].
Qed.

End Whitelist.

(** C5, as the code has it.  [removeFromWhitelist] reports by the status of
    the response and by whether its body is JSON.  With a 2xx status and a
    body that parses it announces success; with a 2xx status and a body that
    does not parse, with any other status (the 404 of an unknown id
    included) and with a rejected request it changes nothing and alerts the
    operator with a failure: the message of the parse error, the server's
    [detail] (or [Unknown error] when the body holds none to read), the
    message of the rejection. *)
Theorem removeFromWhitelist_reports form st :
  deviceId form <> ""%string ->
  (forall status body, ok status = true -> parses body = true ->
     (removeFromWhitelist form (Response status body) st).2
     = [HideModal; Alert "Device removed from whitelist successfully"]) /\
  (forall status message, ok status = true ->
     removeFromWhitelist form (Response status (NotJson message)) st
     = (st, [Alert (String.append "Failed to remove device from whitelist: "
                      message)])) /\
  (forall status body, ok status = false ->
     removeFromWhitelist form (Response status body) st
     = (st, [Alert (String.append "Failed to remove device from whitelist: "
                      (failureMessage body
                         "Failed to remove device from whitelist"))])) /\
  (forall message,
     removeFromWhitelist form (Rejected message) st
     = (st, [Alert (String.append "Failed to remove device from whitelist: "
                      message)])) /\
  ok 404 = false.
Proof.
  intros Hne. unfold removeFromWhitelist.
  rewrite bool_decide_eq_false_2 by done.
  split; [|split; [|split; [|split]]].
  - intros status body -> Hp. by destruct body.
  - by intros status message ->.
  - by intros status body ->.
  - done.
  - done.
Qed.

Lemma removeFromWhitelist_reports_witness :
  let form := mkForm "x" "" "" in
  deviceId form <> ""%string /\
  removeFromWhitelist form (Response 404 (Json None)) initialState
  = (initialState,
     [Alert "Failed to remove device from whitelist: Failed to remove device from whitelist"]) /\
  removeFromWhitelist form (Response 200 (NotJson "Unexpected end of JSON input"))
    initialState
  = (initialState,
     [Alert "Failed to remove device from whitelist: Unexpected end of JSON input"]).
Proof.
  intros form.
  assert (H : deviceId form <> ""%string) by discriminate.
  split; [exact H|].
  destruct (removeFromWhitelist_reports form initialState H)
    as (_ & H2 & H3 & _).
  split.
  - exact (H3 404 (Json None) eq_refl).
  - exact (H2 200 "Unexpected end of JSON input"%string eq_refl).
Defined.

(** C5 as the spec states it fails.  Id "x" was never added: the store
    answers the [DELETE] with 404 and stays as it is, and the handler alerts
    the operator with a failure. *)
Lemma remove_absent_id_alerts_failure :
  let reply := (store_remove "x" ∅).1 in
  (store_remove "x" ∅).2 = ∅ /\
  reply = Response 404 (Json (Some "Device x not found in whitelist"%string)) /\
  removeFromWhitelist (mkForm "x" "" "") reply initialState
  = (initialState,
     [Alert "Failed to remove device from whitelist: Device x not found in whitelist"]).
Proof. repeat split. Qed.

(** ** The order of the rendered list *)

Lemma mayPrecede_listedBefore a b : mayPrecede a b -> listedBefore a b.
Proof.
  rewrite mayPrecede_iff. intros [[Ha Hb]|[Hab Hp]]; split; congruence.
Qed.

Lemma sortDevices_listedBefore l : StronglySorted listedBefore (sortDevices l).
Proof.
  induction (sortDevices_sorted l) as [|x l' _ IH Hx]; constructor; [exact IH|].
  eapply Forall_impl; [exact Hx|]. intros y. apply mayPrecede_listedBefore.
Qed.

Lemma sortPower_nonzero d p :
  power d = Some p -> ~ (p == 0)%Q -> sortPower d = p.
Proof.
  intros Hp Hz. unfold sortPower. rewrite Hp.
  destruct (Qeq_bool p 0) eqn:E; [|done].
  by apply Qeq_bool_iff in E.
Qed.

(** The rendered list holds the records of [currentDevices] (those that are
    whitelisted when the filter is on), as they are stored, with every active
    device before every inactive one and, among the active and among the
    inactive, in non-increasing sorting power, where the sorting power is the
    record's power unless that is absent or zero, and -100 then. *)
Lemma updateDeviceList_order st :
  let view := deviceList (updateDeviceList st) in
  view ≡ₚ (if showWhitelistedOnly st
           then List.filter whitelisted (currentDevices st)
           else currentDevices st) /\
  StronglySorted listedBefore view /\
  (forall d, power d = None -> sortPower d = (-100)%Q) /\
  (forall d p, power d = Some p ->
               sortPower d = if Qeq_bool p 0 then (-100)%Q else p).
Proof.
  intros view. unfold view. rewrite updateDeviceList_deviceList.
  split; [apply sortDevices_perm|]. split; [|split].
  - apply sortDevices_listedBefore.
  - intros d H. unfold sortPower. by rewrite H.
  - intros d p H. unfold sortPower. by rewrite H.
Qed.

(** C9 fails on the code.  The list is to show the devices of one activity
    group in non-increasing power, an absent power counting as -100; of two
    active devices, the code lists the one with power 0 dB after the one with
    power -50 dB, because [0 || -100] is [-100]. *)
Theorem zero_power_sorted_last :
  let a := mkDevice "a" "" "LTE" (Some 0%Q) (Some 0) None false true None in
  let b := mkDevice "b" "" "LTE" (Some (-50)%Q) (Some 0) None false true None in
  deviceList (updateDeviceList (with_currentDevices [a; b] initialState)) = [b; a] /\
  isActive a = isActive b /\
  (powerOrDefault b < powerOrDefault a)%Q.
Proof. repeat split. Qed.

(** ** [processDeviceData] *)

Section ProcessDeviceData.

(** [processDeviceData] takes a device for active up to 31 s after it was
    seen: it compares whole seconds with [<= 30]. *)
Lemma withinThirtySeconds_iff now d t :
  last_seen d = Some t ->
  (withinThirtySeconds now d = true <-> now - t < 31000).
Proof.
  intros H. unfold withinThirtySeconds, timeDiff. rewrite H.
  rewrite Z.leb_le. split; intros Hlt.
  - apply Z.nle_gt. intros Hge.
    assert (31 <= (now - t) / 1000) by (apply Z.div_le_lower_bound; lia). lia.
  - assert ((now - t) / 1000 < 31) by (apply Z.div_lt_upper_bound; lia). lia.
Qed.

(** One device of [processDeviceData] keeps the two tracking maps apart. *)
Lemma processDevice_disjoint now st d ds m d' ds' m' :
  dom (active ds) ## dom (inactive ds) ->
  processDevice now st d ds m = inl (d', ds', m') ->
  dom (active ds') ## dom (inactive ds') /\
  (id d <> "__proto__"%string -> id d ∈ dom (active ds') ∪ dom (inactive ds')).
Proof.
  intros Hdisj. unfold processDevice.
  set (d1 := set_isActive (withinThirtySeconds now d) d).
  set (ds1 := if isActive d1 then _ else _).
  assert (H1 : dom (active ds1) ## dom (inactive ds1) /\
               (id d <> "__proto__"%string ->
                id d ∈ dom (active ds1) ∪ dom (inactive ds1))).
  { subst ds1. destruct (isActive d1); simpl;
      rewrite dom_setKey, dom_removeKey; split; set_solver. }
  intros Heq.
  assert (ds' = ds1) as ->; [|exact H1].
  destruct (geofenceCircle st); [|by injection Heq].
  destruct (leafletMap st); [|by injection Heq].
  destruct (location d1) as [l|]; [|discriminate].
  destruct (latLngOf l); [by injection Heq|discriminate].
Qed.

End ProcessDeviceData.
(** ** The device list, redrawn and filtered *)

Section DeviceListAgain.

Lemma sortInsert_head x l :
  Forall (mayPrecede x) l -> sortInsert x l = x :: l.
Proof.
  destruct l as [|y l]; [done|].
  intros H. apply Forall_cons in H as [H _]. simpl.
  unfold mayPrecede in H. apply Qle_bool_iff in H. by rewrite H.
Qed.

Lemma sortDevices_sorted_id l :
  StronglySorted mayPrecede l -> sortDevices l = l.
Proof.
  induction 1 as [|a l Hs IH Ha]; [done|].
  change (sortDevices (a :: l)) with (sortInsert a (sortDevices l)).
  rewrite IH. by apply sortInsert_head.
Qed.

Lemma sortDevices_idempotent l : sortDevices (sortDevices l) = sortDevices l.
Proof. apply sortDevices_sorted_id, sortDevices_sorted. Qed.

Lemma sameRank_tie d x y :
  sameRank d x = true -> sameRank d y = true -> mayPrecede x y.
Proof.
  unfold sameRank. intros [Hx Ex]%andb_prop [Hy Ey]%andb_prop.
  apply bool_decide_eq_true in Hx, Hy.
  apply Qeq_bool_iff in Ex, Ey.
  apply mayPrecede_iff. right. split; [congruence|].
  rewrite Ex, Ey. apply Qle_refl.
Qed.

Lemma sortInsert_stable d x l :
  List.filter (sameRank d) (sortInsert x l) = List.filter (sameRank d) (x :: l).
Proof.
  induction l as [|y l IH]; [done|].
  cbn [sortInsert].
  destruct (Qle_bool (compareDevices x y) 0) eqn:E; [done|].
  cbn [List.filter] in *. rewrite IH.
  destruct (sameRank d x) eqn:Ex, (sameRank d y) eqn:Ey; try done.
  exfalso. pose proof (sameRank_tie d x y Ex Ey) as H.
  unfold mayPrecede in H. apply Qle_bool_iff in H. congruence.
Qed.

Lemma sortDevices_stable d l :
  List.filter (sameRank d) (sortDevices l) = List.filter (sameRank d) l.
Proof.
  induction l as [|x l IH]; [done|].
  change (sortDevices (x :: l)) with (sortInsert x (sortDevices l)).
  rewrite sortInsert_stable. cbn [List.filter]. by rewrite IH.
Qed.

Lemma sortInsert_filter_out (p : Device -> bool) x l :
  p x = false -> List.filter p (sortInsert x l) = List.filter p l.
Proof.
  intros Hx. induction l as [|y l IH]; cbn [sortInsert List.filter].
  - by rewrite Hx.
  - destruct (Qle_bool (compareDevices x y) 0); cbn [List.filter].
    + by rewrite Hx.
    + by rewrite IH.
Qed.

Lemma sortInsert_filter_in (p : Device -> bool) x l :
  p x = true -> StronglySorted mayPrecede l ->
  List.filter p (sortInsert x l) = sortInsert x (List.filter p l).
Proof.
  intros Hx. induction 1 as [|y l Hs IH Hy]; cbn [sortInsert List.filter].
  - by rewrite Hx.
  - destruct (Qle_bool (compareDevices x y) 0) eqn:E; cbn [List.filter].
    + rewrite Hx. symmetry.
      assert (Forall (mayPrecede x) (y :: l)) as Hall.
      { apply Qle_bool_iff in E. constructor; [exact E|].
        eapply Forall_impl; [exact Hy|].
        intros z Hz. by apply mayPrecede_trans with y. }
      apply (sortInsert_head x (List.filter p (y :: l))).
      apply Forall_forall. intros z Hz.
      apply list_elem_of_In, filter_In in Hz as [Hz _].
      apply list_elem_of_In in Hz.
      by apply (proj1 (Forall_forall _ _) Hall).
    + rewrite IH. destruct (p y); [|done].
      cbn [sortInsert]. by rewrite E.
Qed.

Lemma sortDevices_filter (p : Device -> bool) l :
  List.filter p (sortDevices l) = sortDevices (List.filter p l).
Proof.
  induction l as [|x l IH]; [done|].
  change (sortDevices (x :: l)) with (sortInsert x (sortDevices l)).
  cbn [List.filter].
  destruct (p x) eqn:Hx.
  - change (sortDevices (x :: List.filter p l))
      with (sortInsert x (sortDevices (List.filter p l))).
    rewrite <- IH. apply sortInsert_filter_in; [done|apply sortDevices_sorted].
  - rewrite <- IH. by apply sortInsert_filter_out.
Qed.

End DeviceListAgain.

(** X1 ([updateDeviceList], order): the rendered list holds exactly the
    devices that pass the whitelist filter, active devices stand before
    inactive ones, and within each kind the sorting power [power || -100]
    never rises; devices the comparator ranks alike keep the order they
    had in [currentDevices]. *)
Theorem updateDeviceList_sorted_stable st :
  let shown := if showWhitelistedOnly st
               then List.filter whitelisted (currentDevices st)
               else currentDevices st in
  let view := deviceList (updateDeviceList st) in
  view ≡ₚ shown /\
  StronglySorted listedBefore view /\
  forall d, List.filter (sameRank d) view = List.filter (sameRank d) shown.
Proof.
  intros shown view. subst shown view. rewrite updateDeviceList_deviceList.
  split; [apply sortDevices_perm|].
  split; [apply sortDevices_listedBefore|].
  intros d. apply sortDevices_stable.
Qed.

(** X2 ([updateDeviceList], redraw): drawing the list a second time changes
    nothing, neither the rendered list nor [currentDevices]. *)
Theorem updateDeviceList_idempotent st :
  updateDeviceList (updateDeviceList st) = updateDeviceList st.
Proof.
  unfold updateDeviceList.
  destruct (showWhitelistedOnly st) eqn:E.
  - unfold with_deviceList. simpl. by rewrite E.
  - unfold with_deviceList, with_currentDevices. simpl. rewrite E.
    by rewrite sortDevices_idempotent.
Qed.

(** X3 ([toggleWhitelistView], [updateDeviceList]): the whitelisted-only
    view is the full view with the devices that are not whitelisted taken
    out, in the same order. *)
Theorem whitelist_view_is_sublist st :
  deviceList (updateDeviceList (with_showWhitelistedOnly true st))
  = List.filter whitelisted
      (deviceList (updateDeviceList (with_showWhitelistedOnly false st))).
Proof.
  rewrite !updateDeviceList_deviceList. simpl.
  symmetry. apply sortDevices_filter.
Qed.

(** X4 ([toggleWhitelistView]): toggling the filter twice brings back the
    flag and renders the list a plain redraw would render; [currentDevices]
    holds the same devices, possibly reordered. *)
Theorem toggleWhitelistView_twice st :
  let st' := toggleWhitelistView (toggleWhitelistView st) in
  showWhitelistedOnly st' = showWhitelistedOnly st /\
  deviceList st' = deviceList (updateDeviceList st) /\
  currentDevices st' ≡ₚ currentDevices st.
Proof.
  unfold toggleWhitelistView, updateDeviceList.
  destruct (showWhitelistedOnly st) eqn:E; cbn -[sortDevices]; rewrite ?E;
    cbn -[sortDevices].
  - split; [done|]. split.
    + by rewrite <- sortDevices_filter, sortDevices_idempotent, sortDevices_filter.
    + apply sortDevices_perm.
  - split; [done|]. split; [done|apply sortDevices_perm].
Qed.

(** ** Signal labels *)

Section SignalLabels.

Lemma Qgtb_spec x y : reflect (y < x)%Q (Qgtb x y).
Proof.
  unfold Qgtb. destruct (Qle_bool x y) eqn:E; constructor.
  - apply Qle_bool_iff in E. Lqa.lra.
  - assert (~ (x <= y)%Q) as H by (rewrite <- Qle_bool_iff; congruence).
    Lqa.lra.
Qed.

Lemma getSignalStrength_mono p q :
  (p <= q)%Q ->
  (signalLevel (getSignalStrength p) <= signalLevel (getSignalStrength q))%nat.
Proof.
  intros H. unfold getSignalStrength.
  destruct (Qgtb_spec p (-30)), (Qgtb_spec p (-50)), (Qgtb_spec p (-70)),
    (Qgtb_spec p (-90)), (Qgtb_spec q (-30)), (Qgtb_spec q (-50)),
    (Qgtb_spec q (-70)), (Qgtb_spec q (-90));
    simpl; try lia; exfalso; Lqa.lra.
Qed.

Lemma StronglySorted_weaken {A} (R S : A -> A -> Prop) l :
  (forall a b, R a b -> S a b) -> StronglySorted R l -> StronglySorted S l.
Proof.
  intros HRS. induction 1 as [|a l Hs IH Ha]; constructor; [done|].
  eapply Forall_impl; [exact Ha|]. intros b. apply HRS.
Qed.

Lemma listedBefore_signalBefore a b : listedBefore a b -> signalBefore a b.
Proof.
  intros [_ H] E. apply getSignalStrength_mono. by apply H.
Qed.

End SignalLabels.

(** X5 ([getSignalStrength], [updateDeviceList]): going down the rendered
    list, the signal label of a device is never better than that of a device
    of the same kind (active or inactive) above it; and a device without
    power, or with a power of 0, is labelled [Poor]. *)
Theorem signal_labels_fall st :
  StronglySorted signalBefore (deviceList (updateDeviceList st)) /\
  (forall d, power d = None -> listSignal d = Poor) /\
  (forall d p, power d = Some p -> (p == 0)%Q -> listSignal d = Poor).
Proof.
  split; [|split].
  - rewrite updateDeviceList_deviceList.
    eapply StronglySorted_weaken; [apply listedBefore_signalBefore|].
    apply sortDevices_listedBefore.
  - intros d H. unfold listSignal, sortPower. by rewrite H.
  - intros d p H E. unfold listSignal, sortPower. rewrite H.
    apply Qeq_bool_iff in E. by rewrite E.
Qed.

(** ** The header counters *)

Section Counters.

Lemma idsWhere_subseteq p (l : list Device) :
  idsWhere p l ⊆ list_to_set (id <$> l).
Proof.
  induction l as [|d l IH]; simpl; [done|].
  destruct (p d); set_solver.
Qed.

Lemma idsWhere_size p (l : list Device) :
  NoDup (id <$> l) -> size (idsWhere p l) = length (List.filter p l).
Proof.
  induction l as [|d l IH]; simpl; [intros _; exact (size_empty (A:=string) (C:=gset string))|].
  intros [Hd Hl]%NoDup_cons. specialize (IH Hl).
  destruct (p d); simpl.
  - rewrite size_union, size_singleton, IH; [done|].
    pose proof (idsWhere_subseteq p l) as Hsub.
    assert (id d ∉ (list_to_set (id <$> l) : gset string)) as Hn
      by (by rewrite elem_of_list_to_set).
    clear -Hsub Hn. set_solver.
  - by rewrite (left_id_L ∅ (∪)).
Qed.

Lemma idsWhere_split p (l : list Device) :
  idsWhere p l ∪ idsWhere (fun d => negb (p d)) l = list_to_set (id <$> l).
Proof.
  induction l as [|d l IH]; simpl; [set_solver|].
  destruct (p d); simpl; set_solver.
Qed.

End Counters.

(** X6 ([ws.onmessage], [updateDeviceStatusCount]): after a snapshot whose
    ids are pairwise different, none of them [__proto__], has reached
    tracking objects whose prototype was never replaced, the header counts
    as active exactly the devices of the snapshot seen less than 30 s ago,
    and active and inactive count together add up to the number of ids
    tracked so far, old and new. *)
Theorem ws_onmessage_status_count now data st :
  NoDup (id <$> devices data) ->
  properIds (devices data) -> plainObjects (deviceStatus st) ->
  let counts := updateDeviceStatusCount (ws_onmessage now data st).1 in
  counts.1 = length (List.filter (seenRecently now) (devices data)) /\
  (counts.1 + counts.2)%nat =
    size (dom (active (deviceStatus st)) ∪ dom (inactive (deviceStatus st))
          ∪ list_to_set (id <$> devices data)).
Proof.
  intros Hnd Hp _ counts. subst counts. unfold updateDeviceStatusCount.
  destruct (ws_onmessage_shape now data st) as (Hds & _).
  cbv zeta in Hds. rewrite Hds. cbn [fst snd].
  destruct (trackDevices_dom now (deviceStatus st) (devices data) Hnd Hp)
    as (_ & Ha & Hi).
  rewrite <- !size_dom, Ha, Hi.
  split; [by apply idsWhere_size|].
  pose proof (idsWhere_disjoint now (devices data) Hnd) as Hdisj.
  pose proof (idsWhere_split (seenRecently now) (devices data)) as Hsplit.
  rewrite <- size_union by (clear -Hdisj; set_solver).
  f_equal. rewrite <- Hsplit.
  apply set_eq. intros k.
  destruct (decide (k ∈ idsWhere (seenRecently now) (devices data)));
    clear -e || clear -n; set_solver.
Qed.

Lemma ws_onmessage_status_count_witness :
  let data := snapshot [exampleDevice "a" 39000; exampleDevice "b" 0] in
  (NoDup (id <$> devices data) /\ properIds (devices data) /\
   plainObjects (deviceStatus initialState)) /\
  (updateDeviceStatusCount (ws_onmessage 40000 data initialState).1).1
  = length (List.filter (seenRecently 40000) (devices data)).
Proof.
  intros data.
  assert (NoDup (id <$> devices data)) as H.
  { simpl. apply NoDup_cons. split; [set_solver|]. apply NoDup_singleton. }
  assert (properIds (devices data)) as Hp by (unfold properIds; simpl; set_solver).
  assert (plainObjects (deviceStatus initialState)) as Ho by done.
  split; [done|].
  exact (proj1 (ws_onmessage_status_count 40000 data initialState H Hp Ho)).
Defined.

(** ** Whitelisting from the device modal *)

Section WhitelistAgain.

Lemma placed_redrawn st d : redrawn d (placed st d).
Proof.
  split; [apply placed_keepsReading|].
  unfold placed, placeDevice.
  destruct (location d) as [l|]; [|done].
  destruct (validCoordinates (coordinates l)); simpl.
  - by destruct (geofenceCircle st), (geofenceEnabled st), l.
  - by destruct l.
Qed.

Lemma redrawn_refl d : redrawn d d.
Proof. split; [apply keepsReading_id|done]. Qed.

Lemma refreshViews_redrawn st :
  exists g, (forall d, redrawn d (g d)) /\
    currentDevices (refreshViews st) ≡ₚ g <$> currentDevices st.
Proof.
  unfold refreshViews.
  pose proof (updateDeviceList_currentDevices st) as Hp.
  destruct (mapInitialized (updateDeviceList st)) eqn:E1,
    (leafletMap (updateDeviceList st)) eqn:E2; simpl;
    try (exists (fun d => d); split; [apply redrawn_refl|];
         by rewrite list_fmap_id).
  exists (placed (updateDeviceList st)). split; [apply placed_redrawn|].
  rewrite updateMarkers_currentDevices, E1, E2. simpl. by rewrite Hp.
Qed.

Lemma addToWhitelist_success form status body st :
  deviceId form <> ""%string ->
  deviceId form ∈ (id <$> currentDevices st) ->
  ok status = true -> parses body = true ->
  addToWhitelist form (Response status body) st =
  (refreshViews
     (with_currentDevices
        (updateFound (deviceId form)
           (fun d => set_name_type (deviceName form) (deviceType form)
                       (set_whitelisted true d))
           (currentDevices st)) st),
   [HideModal]).
Proof.
  intros H1 H2 H3 H4. unfold addToWhitelist.
  rewrite bool_decide_eq_false_2 by done.
  rewrite (bool_decide_eq_true_2 _ H2). simpl. rewrite H3.
  by destruct body.
Qed.

Lemma removeFromWhitelist_success form status body st :
  deviceId form <> ""%string ->
  ok status = true -> parses body = true ->
  removeFromWhitelist form (Response status body) st =
  (refreshViews
     (with_currentDevices
        (updateFound (deviceId form) (set_whitelisted false) (currentDevices st))
        st),
   [HideModal; Alert "Device removed from whitelist successfully"]).
Proof.
  intros H1 H3 H4. unfold removeFromWhitelist.
  rewrite bool_decide_eq_false_2 by done. rewrite H3. by destruct body.
Qed.

Lemma count_perm (p : Device -> bool) l l' :
  l ≡ₚ l' -> length (List.filter p l) = length (List.filter p l').
Proof.
  induction 1 as [|x l l' _ IH|x y l|l1 l2 l3 _ IH1 _ IH2];
    cbn [List.filter].
  - done.
  - destruct (p x); cbn [length]; congruence.
  - by destruct (p x), (p y).
  - congruence.
Qed.

Lemma count_fmap (p : Device -> bool) (g : Device -> Device) l :
  (forall d, p (g d) = p d) ->
  length (List.filter p (g <$> l)) = length (List.filter p l).
Proof.
  intros Hg. induction l as [|d l IH]; [done|].
  rewrite fmap_cons. cbn [List.filter].
  rewrite Hg. destruct (p d); cbn [length]; congruence.
Qed.

Lemma refreshViews_count st :
  whitelistedCount (updateWhitelistCount (refreshViews st))
  = whitelistedCount (updateWhitelistCount st).
Proof.
  destruct (refreshViews_redrawn st) as (g & Hg & Hp).
  unfold updateWhitelistCount. cbn [whitelistedCount].
  rewrite (count_perm _ _ _ Hp). apply count_fmap.
  intros d. by destruct (Hg d) as ((_&_&_&_&?&_)&_).
Qed.

Lemma updateFound_count k (f : Device -> Device) (l : list Device) :
  k ∈ (id <$> l) ->
  (forall d, d ∈ l -> id d = k -> whitelisted d = false) ->
  (forall d, whitelisted (f d) = true) ->
  length (List.filter whitelisted (updateFound k f l))
  = S (length (List.filter whitelisted l)).
Proof.
  intros Hin Hw Hf. induction l as [|d l IH]; [by apply elem_of_nil in Hin|].
  cbn [updateFound]. case_bool_decide as Hd.
  - cbn [List.filter]. rewrite Hf, (Hw d); [done|left|done].
  - cbn [List.filter]. rewrite fmap_cons in Hin.
    apply elem_of_cons in Hin as [Hin|Hin]; [congruence|].
    assert (length (List.filter whitelisted (updateFound k f l))
            = S (length (List.filter whitelisted l))) as IH'
      by (apply IH; [done|intros; apply Hw; [by right|done]]).
    destruct (whitelisted d); cbn [length]; by rewrite IH'.
Qed.

Lemma updateFound_entries k (g : Device -> Device) (l : list Device) :
  (forall d, id (g d) = id d) -> NoDup (id <$> l) ->
  whitelistEntry <$> updateFound k g l =
  (fun d => if bool_decide (id d = k) then whitelistEntry (g d)
            else whitelistEntry d) <$> l.
Proof.
  intros Hg. induction l as [|d l IH]; [done|].
  rewrite fmap_cons. intros [Hd Hnd]%NoDup_cons.
  cbn [updateFound]. case_bool_decide as Hid; rewrite !fmap_cons.
  - rewrite bool_decide_eq_true_2 by done. f_equal.
    apply Forall_fmap_ext, Forall_forall. intros x Hx.
    rewrite bool_decide_eq_false_2; [done|].
    intros Hxk. apply Hd. rewrite Hid, <- Hxk. by apply list_elem_of_fmap_2.
  - rewrite bool_decide_eq_false_2 by done. f_equal. by apply IH.
Qed.

Lemma refreshViews_entries st :
  whitelistEntry <$> currentDevices (refreshViews st)
  ≡ₚ whitelistEntry <$> currentDevices st.
Proof.
  destruct (refreshViews_redrawn st) as (g & Hg & Hp).
  rewrite Hp, <- list_fmap_compose.
  assert (whitelistEntry ∘ g <$> currentDevices st
          = whitelistEntry <$> currentDevices st) as ->; [|done].
  apply Forall_fmap_ext, Forall_forall. intros d _.
  destruct (Hg d) as ((Hi&_&_&_&Hw&_)&_).
  unfold whitelistEntry. simpl. by rewrite Hi, Hw.
Qed.

Lemma entries_count (l : list Device) :
  length (List.filter whitelisted l)
  = length (List.filter snd (whitelistEntry <$> l)).
Proof.
  induction l as [|d l IH]; [done|].
  rewrite fmap_cons. cbn [List.filter whitelistEntry snd].
  destruct (whitelisted d); cbn [length]; congruence.
Qed.

Lemma pair_count_perm (l l' : list (string * bool)) :
  l ≡ₚ l' -> length (List.filter snd l) = length (List.filter snd l').
Proof.
  induction 1 as [|x l l' _ IH|x y l|l1 l2 l3 _ IH1 _ IH2];
    cbn [List.filter].
  - done.
  - destruct (x.2); cbn [length]; congruence.
  - by destruct (x.2), (y.2).
  - congruence.
Qed.

End WhitelistAgain.

(** X7 ([addToWhitelist], [updateWhitelistCount]): when the [POST] for a
    listed device that is not whitelisted yet comes back with a 2xx status
    and a body that parses as JSON, the whitelist counter of the header goes
    up by one and its badge is the green one. *)
Theorem addToWhitelist_count form status body st :
  deviceId form <> ""%string ->
  deviceId form ∈ (id <$> currentDevices st) ->
  ok status = true -> parses body = true ->
  (forall d, d ∈ currentDevices st -> id d = deviceId form ->
             whitelisted d = false) ->
  let badge := updateWhitelistCount
                 (addToWhitelist form (Response status body) st).1 in
  whitelistedCount badge = S (whitelistedCount (updateWhitelistCount st)) /\
  badgeClass badge = "bg-success"%string.
Proof.
  intros H1 H2 H3 Hj Hw badge.
  assert (whitelistedCount badge = S (whitelistedCount (updateWhitelistCount st)))
    as Hc.
  { subst badge. rewrite addToWhitelist_success by done. cbn [fst].
    rewrite refreshViews_count. unfold updateWhitelistCount.
    cbn [whitelistedCount currentDevices with_currentDevices].
    by apply updateFound_count. }
  split; [exact Hc|].
  subst badge. unfold updateWhitelistCount in *.
  cbn [whitelistedCount badgeClass] in *. by rewrite Hc.
Qed.

Lemma addToWhitelist_count_witness :
  let form := mkForm "a" "My Phone" "LTE" in
  let st := with_currentDevices [exampleDevice "a" 0; exampleDevice "b" 0] initialState in
  (deviceId form <> ""%string /\ deviceId form ∈ (id <$> currentDevices st) /\
   ok 200 = true /\ parses (Json None) = true /\
   (forall d, d ∈ currentDevices st -> id d = deviceId form ->
              whitelisted d = false)) /\
  whitelistedCount
    (updateWhitelistCount (addToWhitelist form (Response 200 (Json None)) st).1)
  = 1%nat.
Proof.
  intros form st.
  assert (deviceId form <> ""%string) as H1 by done.
  assert (deviceId form ∈ (id <$> currentDevices st)) as H2 by (simpl; set_solver).
  assert (forall d, d ∈ currentDevices st -> id d = deviceId form ->
                    whitelisted d = false) as H4.
  { intros d Hd _. simpl in Hd.
    apply elem_of_cons in Hd as [->|Hd]; [done|].
    apply elem_of_cons in Hd as [->|Hd]; [done|]. by apply elem_of_nil in Hd. }
  split; [done|].
  exact (proj1 (addToWhitelist_count form 200 (Json None) st H1 H2 eq_refl eq_refl H4)).
Defined.

(** X8 ([addToWhitelist], [removeFromWhitelist]): with pairwise different
    ids, adding a listed device that was not whitelisted and removing it
    again, both requests answered with a 2xx status and a body that parses
    as JSON, leaves every device with the whitelist flag it had, and the
    header counter where it was. *)
Theorem whitelist_round_trip form s1 body1 s2 body2 st :
  deviceId form <> ""%string ->
  deviceId form ∈ (id <$> currentDevices st) ->
  ok s1 = true -> parses body1 = true ->
  ok s2 = true -> parses body2 = true ->
  NoDup (id <$> currentDevices st) ->
  (forall d, d ∈ currentDevices st -> id d = deviceId form ->
             whitelisted d = false) ->
  let st1 := (addToWhitelist form (Response s1 body1) st).1 in
  let st2 := (removeFromWhitelist form (Response s2 body2) st1).1 in
  whitelistEntry <$> currentDevices st2 ≡ₚ whitelistEntry <$> currentDevices st /\
  updateWhitelistCount st2 = updateWhitelistCount st.
Proof.
  intros H1 H2 Hs1 Hj1 Hs2 Hj2 Hnd Hw st1 st2.
  assert (whitelistEntry <$> currentDevices st2
          ≡ₚ whitelistEntry <$> currentDevices st) as Hp.
  { subst st2. rewrite removeFromWhitelist_success by done. cbn [fst].
    rewrite refreshViews_entries. cbn [currentDevices with_currentDevices].
    assert (whitelistEntry <$> currentDevices st1 ≡ₚ
            (fun d => if bool_decide (id d = deviceId form)
                      then (id d, true) else whitelistEntry d)
            <$> currentDevices st) as Hp1.
    { subst st1. rewrite addToWhitelist_success by done. cbn [fst].
      rewrite refreshViews_entries. cbn [currentDevices with_currentDevices].
      by rewrite updateFound_entries. }
    assert (NoDup (id <$> currentDevices st1)) as Hnd1.
    { assert (id <$> currentDevices st1 = fst <$> (whitelistEntry <$> currentDevices st1))
        as -> by (by rewrite <- list_fmap_compose).
      rewrite Hp1, <- list_fmap_compose.
      assert (fst ∘ (fun d => if bool_decide (id d = deviceId form)
                              then (id d, true) else whitelistEntry d)
              <$> currentDevices st = id <$> currentDevices st) as ->; [|done].
      apply Forall_fmap_ext, Forall_forall. intros d _. simpl.
      by case_bool_decide. }
    rewrite updateFound_entries by done.
    assert ((fun d => if bool_decide (id d = deviceId form)
                      then whitelistEntry (set_whitelisted false d)
                      else whitelistEntry d) <$> currentDevices st1
            = (fun e : string * bool =>
                 if bool_decide (e.1 = deviceId form) then (e.1, false) else e)
              <$> (whitelistEntry <$> currentDevices st1)) as ->.
    { rewrite <- list_fmap_compose. apply Forall_fmap_ext, Forall_forall.
      intros d _. simpl. by case_bool_decide. }
    rewrite Hp1, <- list_fmap_compose.
    assert (forall (f g : Device -> string * bool) l,
              Forall (fun d => f d = g d) l -> f <$> l ≡ₚ g <$> l) as Hext.
    { intros f g l Hfg. by rewrite (proj1 (Forall_fmap_ext f g l) Hfg). }
    apply Hext, Forall_forall. intros d Hd. cbn [compose].
    destruct (decide (id d = deviceId form)) as [Hid|Hid].
    - rewrite (bool_decide_eq_true_2 _ Hid). cbn [fst].
      rewrite (bool_decide_eq_true_2 _ Hid).
      unfold whitelistEntry. by rewrite (Hw d Hd Hid).
    - rewrite (bool_decide_eq_false_2 _ Hid). cbn [whitelistEntry fst].
      by rewrite (bool_decide_eq_false_2 _ Hid). }
  split; [exact Hp|].
  unfold updateWhitelistCount.
  by rewrite !entries_count, (pair_count_perm _ _ Hp).
Qed.

Lemma whitelist_round_trip_witness :
  let form := mkForm "a" "My Phone" "LTE" in
  let st := with_currentDevices [exampleDevice "a" 0; exampleDevice "b" 0] initialState in
  (deviceId form <> ""%string /\ deviceId form ∈ (id <$> currentDevices st) /\
   NoDup (id <$> currentDevices st) /\
   (forall d, d ∈ currentDevices st -> id d = deviceId form ->
              whitelisted d = false)) /\
  let st1 := (addToWhitelist form (Response 200 (Json None)) st).1 in
  let st2 := (removeFromWhitelist form (Response 200 JsonNull) st1).1 in
  updateWhitelistCount st2 = updateWhitelistCount st.
Proof.
  intros form st.
  assert (deviceId form <> ""%string) as H1 by done.
  assert (deviceId form ∈ (id <$> currentDevices st)) as H2 by (simpl; set_solver).
  assert (NoDup (id <$> currentDevices st)) as H3.
  { simpl. apply NoDup_cons. split; [set_solver|]. apply NoDup_singleton. }
  assert (forall d, d ∈ currentDevices st -> id d = deviceId form ->
                    whitelisted d = false) as H4.
  { intros d Hd _. simpl in Hd.
    apply elem_of_cons in Hd as [->|Hd]; [done|].
    apply elem_of_cons in Hd as [->|Hd]; [done|]. by apply elem_of_nil in Hd. }
  split; [done|].
  exact (proj2 (whitelist_round_trip form 200 (Json None) 200 JsonNull st
                  H1 H2 eq_refl eq_refl eq_refl eq_refl H3 H4)).
Defined.

(** X9 ([showDeviceDetails], [addToWhitelist]): confirming the modal as it
    was opened on a listed device with a non-empty id (ids pairwise
    different), the [POST] answered with a 2xx status and a body that parses
    as JSON, hides the modal without any alert; the device is then
    whitelisted under the name it had, less the line breaks the text input
    strips, and its type is the one it had when the type select offers it,
    [Unknown] otherwise. *)
Theorem modal_add_keeps_name d status body st :
  d ∈ currentDevices st -> id d <> ""%string ->
  ok status = true -> parses body = true ->
  NoDup (id <$> currentDevices st) ->
  let result := addToWhitelist (showDeviceDetails d) (Response status body) st in
  result.2 = [HideModal] /\
  (exists d', d' ∈ currentDevices result.1 /\ id d' = id d) /\
  (forall d', d' ∈ currentDevices result.1 -> id d' = id d ->
     whitelisted d' = true /\ name d' = stripNewlines (name d) /\
     type d' = if bool_decide (type d ∈ typeOptions) then type d
               else "Unknown"%string).
Proof.
  intros Hd Hid Hok Hj Hnd result.
  assert (deviceId (showDeviceDetails d) ∈ (id <$> currentDevices st)) as Hin
    by (change (id d ∈ (id <$> currentDevices st)); by apply list_elem_of_fmap_2).
  subst result. rewrite addToWhitelist_success by done. cbn [fst snd].
  split; [done|].
  destruct (refreshViews_redrawn
              (with_currentDevices
                 (updateFound (deviceId (showDeviceDetails d))
                    (fun d0 => set_name_type (deviceName (showDeviceDetails d))
                                 (deviceType (showDeviceDetails d))
                                 (set_whitelisted true d0))
                    (currentDevices st)) st)) as (g & Hg & Hp).
  cbn [currentDevices with_currentDevices] in Hp.
  set (F := fun d0 => set_name_type (deviceName (showDeviceDetails d))
                        (deviceType (showDeviceDetails d))
                        (set_whitelisted true d0)) in *.
  split.
  - destruct (updateFound_found (id d) F (currentDevices st) Hin)
      as (d0 & _ & Hd0 & HF).
    exists (g (F d0)). split.
    + rewrite Hp. by apply list_elem_of_fmap_2.
    + destruct (Hg (F d0)) as ((-> & _) & _). exact Hd0.
  - intros d' Hd' Hid'. rewrite Hp in Hd'.
    apply list_elem_of_fmap in Hd' as (x & -> & Hx).
    destruct (Hg x) as ((Hi & _ & _ & _ & Hw & _) & Hn & Ht).
    rewrite Hi in Hid'.
    destruct (updateFound_NoDup (id d) F (currentDevices st) x) as (d0 & Hd0 & ->);
      [done|done|exact Hx|exact Hid'|].
    assert (d0 = d) as -> by (by apply (NoDup_id_inj (currentDevices st))).
    rewrite Hw, Hn, Ht. done.
Qed.

Lemma modal_add_keeps_name_witness :
  let d := mkDevice "a" "Phone" "5G" None (Some 0) None false false None in
  let st := with_currentDevices [d; exampleDevice "b" 0] initialState in
  (d ∈ currentDevices st /\ id d <> ""%string /\ ok 200 = true /\
   parses (Json None) = true /\ NoDup (id <$> currentDevices st)) /\
  let result := addToWhitelist (showDeviceDetails d) (Response 200 (Json None)) st in
  result.2 = [HideModal] /\
  (forall d', d' ∈ currentDevices result.1 -> id d' = id d ->
     whitelisted d' = true /\ name d' = "Phone"%string /\
     type d' = "Unknown"%string).
Proof.
  intros d st.
  assert (d ∈ currentDevices st) as H1 by (simpl; left).
  assert (id d <> ""%string) as H2 by done.
  assert (NoDup (id <$> currentDevices st)) as H3.
  { simpl. apply NoDup_cons. split; [set_solver|]. apply NoDup_singleton. }
  split; [done|].
  destruct (modal_add_keeps_name d 200 (Json None) st H1 H2 eq_refl eq_refl H3)
    as (Ha & _ & Hb).
  split; [exact Ha|exact Hb].
Defined.

(** ** What [updateMarkers] draws *)

Section MarkersAgain.

Lemma blocked_None m k : blocked m k = true -> m !! k = None.
Proof.
  unfold blocked. intros [_ H]%andb_prop.
  apply negb_true_iff, bool_decide_eq_false in H. by apply eq_None_not_Some.
Qed.

Lemma blocked_plain m k : k ∉ objectPrototypeNames -> blocked m k = false.
Proof. intros H. unfold blocked. by rewrite (bool_decide_eq_false_2 _ H). Qed.

Lemma blocked_Some m k : is_Some (m !! k) -> blocked m k = false.
Proof.
  intros H. unfold blocked. rewrite (bool_decide_eq_true_2 _ H).
  apply andb_false_r.
Qed.

Lemma blocked_false m k :
  blocked m k = false -> is_Some (m !! k) \/ k ∉ objectPrototypeNames.
Proof.
  unfold blocked. intros [H|H]%andb_false_iff.
  - right. by apply bool_decide_eq_false in H.
  - left. by apply negb_false_iff, bool_decide_eq_true in H.
Qed.

Lemma updateMarkerForDevice_blocked d l m :
  location d = Some l ->
  updateMarkerForDevice true d m =
  if blocked m (id d) then m else <[id d := markerFor d (coordinates l)]> m.
Proof.
  intros Hl. unfold updateMarkerForDevice, blocked. rewrite Hl.
  by destruct (bool_decide (is_Some (m !! id d))),
       (bool_decide (id d ∈ objectPrototypeNames)).
Qed.

Lemma placed_id st d : id (placed st d) = id d.
Proof. by destruct (placed_keepsReading st d) as (? & _). Qed.

Lemma placed_location st d :
  location (placed st d) =
  match location d with
  | Some l => Some (LatLng (coordinates l).1 (coordinates l).2)
  | None => None
  end.
Proof.
  unfold placed, placeDevice. destruct (location d) as [l|] eqn:El; [|done].
  destruct (validCoordinates (coordinates l)); cbn [fst].
  - destruct (geofenceCircle st), (geofenceEnabled st), l; cbn; by rewrite ?El.
  - destruct l; cbn; by rewrite ?El.
Qed.

Lemma placeDevice_snd_placed st d m :
  (placeDevice st d m).2 =
  match location d with
  | Some l =>
      if validCoordinates (coordinates l)
      then updateMarkerForDevice (leafletMap st) (placed st d) m
      else m
  | None => m
  end.
Proof.
  unfold placed, placeDevice. destruct (location d) as [l|]; [|done].
  by destruct (validCoordinates (coordinates l)).
Qed.

Lemma placeDevice_snd st d m :
  leafletMap st = true ->
  (placeDevice st d m).2 =
  match drawn st d with
  | Some mk => if blocked m (id d) then m else <[id d := mk]> m
  | None => m
  end.
Proof.
  intros Hm. rewrite placeDevice_snd_placed, Hm. unfold drawn.
  destruct (location d) as [l|] eqn:El; [|done].
  destruct (validCoordinates (coordinates l)); [|done].
  rewrite (updateMarkerForDevice_blocked (placed st d)
             (LatLng (coordinates l).1 (coordinates l).2))
    by (by rewrite placed_location, El).
  rewrite placed_id. cbn [coordinates].
  replace ((coordinates l).1, (coordinates l).2) with (coordinates l)
    by (by destruct (coordinates l)).
  done.
Qed.

Lemma placeDevice_blocked st d m k :
  leafletMap st = true -> blocked (placeDevice st d m).2 k = blocked m k.
Proof.
  intros Hm. rewrite placeDevice_snd by done.
  destruct (drawn st d) as [mk|]; [|done].
  destruct (blocked m (id d)) eqn:Eb; [done|].
  unfold blocked in *. destruct (decide (k = id d)) as [->|Hk].
  - rewrite lookup_insert_eq, Eb.
    rewrite (bool_decide_eq_true_2 (is_Some (Some mk))) by eauto.
    apply andb_false_r.
  - by rewrite lookup_insert_ne.
Qed.

Lemma placeDevice_lookup st d m k :
  leafletMap st = true -> blocked m k = false ->
  (placeDevice st d m).2 !! k =
  match (if bool_decide (id d = k) then drawn st d else None) with
  | Some mk => Some mk
  | None => m !! k
  end.
Proof.
  intros Hm Hb. rewrite placeDevice_snd by done.
  case_bool_decide as Hk.
  - subst k. destruct (drawn st d); [|done].
    by rewrite Hb, lookup_insert_eq.
  - destruct (drawn st d); [|done].
    destruct (blocked m (id d)); [done|]. by rewrite lookup_insert_ne.
Qed.

Lemma placeDevices_snd_cons st d l m :
  (placeDevices st (d :: l) m).2 = (placeDevices st l (placeDevice st d m).2).2.
Proof.
  simpl. destruct (placeDevice st d m) as [d' m1]. simpl.
  by destruct (placeDevices st l m1).
Qed.

Lemma placeDevices_lookup st l m k :
  leafletMap st = true ->
  (placeDevices st l m).2 !! k =
  if blocked m k then None
  else match drawnLast st l k with Some mk => Some mk | None => m !! k end.
Proof.
  intros Hm. revert m. induction l as [|d l IH]; intros m.
  - cbn. destruct (blocked m k) eqn:Hb; [by apply blocked_None|done].
  - rewrite placeDevices_snd_cons, IH, placeDevice_blocked by done.
    destruct (blocked m k) eqn:Hb; [done|]. cbn [drawnLast].
    destruct (drawnLast st l k); [done|].
    by rewrite placeDevice_lookup.
Qed.

Lemma placed_ids st (l : list Device) : id <$> (placed st <$> l) = id <$> l.
Proof.
  rewrite <- list_fmap_compose. apply Forall_fmap_ext, Forall_forall.
  intros d _. apply placed_id.
Qed.

Lemma updateMarkers_ready st :
  leafletMap st = true -> mapInitialized st = true ->
  updateMarkers st =
  with_deviceMarkers
    (cleanUpMarkers (placed st <$> currentDevices st)
       (placeDevices st (currentDevices st) (deviceMarkers st)).2)
    (with_currentDevices (placed st <$> currentDevices st) st).
Proof.
  intros Hm Hi. unfold updateMarkers. rewrite Hm, Hi. cbn [negb orb].
  rewrite <- (placeDevices_fst st (currentDevices st) (deviceMarkers st)).
  by destruct (placeDevices st (currentDevices st) (deviceMarkers st)).
Qed.

Lemma cleanUpMarkers_lookup (l : list Device) m k :
  cleanUpMarkers l m !! k = if bool_decide (k ∈ (id <$> l)) then m !! k else None.
Proof.
  unfold cleanUpMarkers. case_bool_decide as Hk.
  - destruct (m !! k) as [mk|] eqn:E.
    + by apply map_lookup_filter_Some.
    + apply map_lookup_filter_None. by left.
  - apply map_lookup_filter_None. right. intros mk _. exact Hk.
Qed.

Lemma updateMarkers_lookup st k :
  leafletMap st = true -> mapInitialized st = true ->
  deviceMarkers (updateMarkers st) !! k =
  if bool_decide (k ∈ (id <$> currentDevices st)) then
    if blocked (deviceMarkers st) k then None
    else match drawnLast st (currentDevices st) k with
         | Some mk => Some mk
         | None => deviceMarkers st !! k
         end
  else None.
Proof.
  intros Hm Hi. rewrite updateMarkers_ready by done.
  cbn [deviceMarkers with_deviceMarkers].
  rewrite cleanUpMarkers_lookup, placed_ids.
  by rewrite placeDevices_lookup.
Qed.

Lemma drawnLast_Some st l k mk :
  drawnLast st l k = Some mk ->
  exists d, d ∈ l /\ id d = k /\ drawn st d = Some mk.
Proof.
  induction l as [|d l IH]; [done|]. cbn [drawnLast].
  destruct (drawnLast st l k) as [mk'|].
  - intros [= ->]. destruct IH as (d0 & ? & ? & ?); [done|].
    exists d0. repeat split; [by right|done|done].
  - case_bool_decide as Hk; [|done]. intros Hdr.
    exists d. repeat split; [left|done|done].
Qed.

Lemma drawnLast_None st l k :
  drawnLast st l k = None ->
  forall d, d ∈ l -> id d = k -> drawn st d = None.
Proof.
  induction l as [|d l IH]; [by intros _ d ?%elem_of_nil|]. cbn [drawnLast].
  destruct (drawnLast st l k) as [mk'|]; [done|].
  intros H d0 [->|Hd0]%elem_of_cons Hk.
  - by rewrite bool_decide_eq_true_2 in H.
  - by apply IH.
Qed.

Lemma drawn_Some st d mk :
  drawn st d = Some mk <->
  exists l, location d = Some l /\ validCoordinates (coordinates l) = true /\
            mk = markerFor (placed st d) (coordinates l).
Proof.
  unfold drawn. destruct (location d) as [l|].
  - destruct (validCoordinates (coordinates l)) eqn:E.
    + split; [intros [= <-]; by exists l|].
      by intros (l' & [= <-] & _ & ->).
    + split; [done|]. intros (l' & [= <-] & ? & _). congruence.
  - split; [done|]. by intros (l' & ? & _).
Qed.

Lemma placed_ext st st' d :
  geofenceCircle st' = geofenceCircle st ->
  geofenceEnabled st' = geofenceEnabled st ->
  placed st' d = placed st d.
Proof.
  intros Hc He. unfold placed, placeDevice. rewrite Hc, He.
  destruct (location d) as [l|]; [|done].
  by destruct (validCoordinates (coordinates l)).
Qed.

Lemma placed_idempotent st d : placed st (placed st d) = placed st d.
Proof.
  pose proof (placed_location st d) as Hl.
  unfold placed at 1. unfold placeDevice. rewrite Hl.
  destruct (location d) as [l|] eqn:El; [|done].
  cbn [coordinates fst snd].
  replace ((coordinates l).1, (coordinates l).2) with (coordinates l)
    by (by destruct (coordinates l)).
  destruct (validCoordinates (coordinates l)) eqn:Ev; [|done].
  cbn [fst].
  destruct (geofenceCircle st) as [c|] eqn:Ec; [|done].
  destruct (geofenceEnabled st) eqn:Ee; [|done].
  unfold placed, placeDevice. rewrite El, Ev, Ec, Ee. cbn [fst].
  by destruct l.
Qed.

Lemma drawn_placed st d : drawn st (placed st d) = drawn st d.
Proof.
  unfold drawn. rewrite placed_idempotent, placed_location.
  destruct (location d) as [l|]; [|done].
  cbn [coordinates].
  replace ((coordinates l).1, (coordinates l).2) with (coordinates l)
    by (by destruct (coordinates l)).
  done.
Qed.

Lemma drawnLast_placed st l k :
  drawnLast st (placed st <$> l) k = drawnLast st l k.
Proof.
  induction l as [|d l IH]; [done|].
  rewrite fmap_cons. cbn [drawnLast]. by rewrite IH, placed_id, drawn_placed.
Qed.

Lemma drawn_ext st st' d :
  geofenceCircle st' = geofenceCircle st ->
  geofenceEnabled st' = geofenceEnabled st ->
  drawn st' d = drawn st d.
Proof. intros Hc He. unfold drawn. by rewrite (placed_ext st st'). Qed.

Lemma drawnLast_ext st st' l k :
  geofenceCircle st' = geofenceCircle st ->
  geofenceEnabled st' = geofenceEnabled st ->
  drawnLast st' l k = drawnLast st l k.
Proof.
  intros Hc He. induction l as [|d l IH]; [done|].
  cbn [drawnLast]. by rewrite IH, (drawn_ext st st').
Qed.

Lemma markerFor_placed st d l :
  location d = Some l -> validCoordinates (coordinates l) = true ->
  markerFor (placed st d) (coordinates l) =
  mkMarker (coordinates l)
    (if whitelisted d then green
     else if zoneFlag st d (coordinates l) then red else blue)
    (negb (isActive d)).
Proof.
  intros El Ev. unfold placed, placeDevice, zoneFlag, markerFor.
  rewrite El, Ev. cbn [fst].
  destruct (geofenceCircle st) as [c|], (geofenceEnabled st), l; cbn;
    destruct (whitelisted d); try done;
    try (by destruct (withinCircle c _));
    by destruct (insideGeofence d) as [[]|].
Qed.

(** The marker of a located device after a redraw, when one can be stored
    under its id. *)
Lemma updateMarkers_marker st d l :
  leafletMap st = true -> mapInitialized st = true ->
  NoDup (id <$> currentDevices st) ->
  d ∈ currentDevices st -> location d = Some l ->
  validCoordinates (coordinates l) = true ->
  blocked (deviceMarkers st) (id d) = false ->
  deviceMarkers (updateMarkers st) !! id d
  = Some (markerFor (placed st d) (coordinates l)).
Proof.
  intros Hm Hi Hnd Hd Hl Hv Hb. rewrite updateMarkers_lookup by done.
  rewrite bool_decide_eq_true_2 by (by apply list_elem_of_fmap_2).
  rewrite Hb.
  destruct (drawnLast st (currentDevices st) (id d)) as [mk|] eqn:E.
  - apply drawnLast_Some in E as (d0 & Hd0 & Hid & Hdr).
    assert (d0 = d) as -> by (by apply (NoDup_id_inj (currentDevices st))).
    apply drawn_Some in Hdr as (l' & Hl' & _ & ->).
    by assert (l' = l) as -> by congruence.
  - pose proof (drawnLast_None _ _ _ E d Hd eq_refl) as Hn.
    unfold drawn in Hn. by rewrite Hl, Hv in Hn.
Qed.

Lemma plain_a : "a"%string ∉ objectPrototypeNames.
Proof. apply (bool_decide_unpack _). vm_compute. reflexivity. Qed.

End MarkersAgain.

(** X10 ([updateMarkers], [updateMarkerForDevice], clean-up): with the map
    up, an id has a marker after a redraw exactly when a device of that id
    is listed and either the id had a marker before or it is not a name
    plain objects inherit and one of its devices has a location in range.
    A listed device that lost its location keeps the marker it had; under an
    inherited name such as [constructor] no marker is ever created. *)
Theorem updateMarkers_marker_iff st k :
  leafletMap st = true -> mapInitialized st = true ->
  (is_Some (deviceMarkers (updateMarkers st) !! k) <->
   k ∈ (id <$> currentDevices st) /\
   (is_Some (deviceMarkers st !! k) \/
    ((k ∉ objectPrototypeNames) /\
     exists d l, d ∈ currentDevices st /\ id d = k /\ location d = Some l /\
                 validCoordinates (coordinates l) = true))).
Proof.
  intros Hm Hi. rewrite updateMarkers_lookup by done.
  case_bool_decide as Hk; [|split; [by intros [? ?]|by intros [? _]]].
  destruct (blocked (deviceMarkers st) k) eqn:Hb.
  - pose proof (blocked_None _ _ Hb) as Hn.
    split; [by intros [? ?]|].
    intros [_ [[mk H]|[Hp _]]]; [congruence|].
    by rewrite (blocked_plain _ _ Hp) in Hb.
  - destruct (drawnLast st (currentDevices st) k) as [mk|] eqn:E.
    + split; [intros _|by eauto]. split; [done|].
      destruct (blocked_false _ _ Hb) as [Hs|Hp]; [by left|]. right.
      split; [done|].
      apply drawnLast_Some in E as (d & Hd & Hid & Hdr).
      apply drawn_Some in Hdr as (l & Hl & Hv & _). by exists d, l.
    + split; [intros H; split; [done|by left]|].
      intros [_ [H|(_ & d & l & Hd & Hid & Hl & Hv)]]; [done|].
      pose proof (drawnLast_None _ _ _ E d Hd Hid) as Hn.
      unfold drawn in Hn. by rewrite Hl, Hv in Hn.
Qed.

Lemma updateMarkers_marker_iff_witness :
  let st := with_currentDevices
              [deviceAtOrigin "a" 0; exampleDevice "b" 0;
               deviceAtOrigin "constructor" 0]
              (initializeMap initialState) in
  (leafletMap st = true /\ mapInitialized st = true) /\
  is_Some (deviceMarkers (updateMarkers st) !! "a") /\
  ~ is_Some (deviceMarkers (updateMarkers st) !! "b") /\
  ~ is_Some (deviceMarkers (updateMarkers st) !! "constructor").
Proof.
  intros st.
  assert (validCoordinates (coordinates (LatLng 0 0)) = true) as Hv
    by apply validCoordinates_origin.
  split; [done|]. split; [|split].
  - apply (proj2 (updateMarkers_marker_iff st "a" eq_refl eq_refl)).
    split; [simpl; set_solver|]. right. split; [apply plain_a|].
    exists (deviceAtOrigin "a" 0), (LatLng 0 0).
    repeat split; [simpl; left|exact Hv].
  - intros H.
    apply (proj1 (updateMarkers_marker_iff st "b" eq_refl eq_refl)) in H
      as [_ [[mk H]|(_ & d & l & Hd & Hid & Hl & _)]].
    + change (deviceMarkers st) with (∅ : gmap string Marker) in H.
      by rewrite lookup_empty in H.
    + simpl in Hd. apply elem_of_cons in Hd as [->|Hd]; [done|].
      apply elem_of_cons in Hd as [->|Hd]; [done|].
      apply elem_of_cons in Hd as [->|Hd]; [done|]. by apply elem_of_nil in Hd.
  - intros H.
    apply (proj1 (updateMarkers_marker_iff st "constructor" eq_refl eq_refl)) in H
      as [_ [[mk H]|(Hp & _)]].
    + change (deviceMarkers st) with (∅ : gmap string Marker) in H.
      by rewrite lookup_empty in H.
    + apply Hp. unfold objectPrototypeNames. left.
Defined.

(** X11 ([updateMarkers], [updateMarkerForDevice]): with the map up and
    pairwise different ids, the marker of a listed device with a location in
    range, whose id is not a name plain objects inherit, stands at the
    coordinates of the device, is drawn faded exactly when the device is not
    active, and is green for a whitelisted device, else red when the device
    counts as inside the zone, else blue. *)
Theorem updateMarkers_marker_of st d l :
  leafletMap st = true -> mapInitialized st = true ->
  NoDup (id <$> currentDevices st) ->
  d ∈ currentDevices st -> location d = Some l ->
  validCoordinates (coordinates l) = true ->
  id d ∉ objectPrototypeNames ->
  deviceMarkers (updateMarkers st) !! id d =
  Some (mkMarker (coordinates l)
          (if whitelisted d then green
           else if zoneFlag st d (coordinates l) then red else blue)
          (negb (isActive d))).
Proof.
  intros Hm Hi Hnd Hd Hl Hv Hp.
  rewrite (updateMarkers_marker st d l) by (try done; by apply blocked_plain).
  f_equal. by apply markerFor_placed.
Qed.

Lemma updateMarkers_marker_of_witness :
  let d := deviceAtOrigin "a" 0 in
  let st := with_currentDevices [d; exampleDevice "b" 0]
              (initializeMap initialState) in
  (leafletMap st = true /\ mapInitialized st = true /\
   NoDup (id <$> currentDevices st) /\ d ∈ currentDevices st /\
   location d = Some (LatLng 0 0) /\
   validCoordinates (coordinates (LatLng 0 0)) = true /\
   id d ∉ objectPrototypeNames) /\
  deviceMarkers (updateMarkers st) !! "a" = Some (mkMarker (0%R, 0%R) blue true).
Proof.
  intros d st.
  assert (validCoordinates (coordinates (LatLng 0 0)) = true) as Hv
    by apply validCoordinates_origin.
  assert (NoDup (id <$> currentDevices st)) as Hnd.
  { simpl. apply NoDup_cons. split; [set_solver|]. apply NoDup_singleton. }
  assert (d ∈ currentDevices st) as Hd by (simpl; left).
  pose proof plain_a as Hp.
  split; [done|].
  exact (updateMarkers_marker_of st d (LatLng 0 0) eq_refl eq_refl Hnd Hd eq_refl Hv Hp).
Defined.

(** X12 ([updateMarkers]): redrawing the markers a second time changes
    nothing: not the devices, not the markers. *)
Theorem updateMarkers_idempotent st :
  updateMarkers (updateMarkers st) = updateMarkers st.
Proof.
  assert (leafletMap st && mapInitialized st = false -> updateMarkers st = st)
    as Hnr.
  { unfold updateMarkers. by destruct (leafletMap st), (mapInitialized st). }
  destruct (leafletMap st) eqn:Hm, (mapInitialized st) eqn:Hi;
    try (by rewrite !Hnr).
  destruct (updateMarkers_frame st) as (_ & Hc & He & Hm' & Hi' & _).
  cbv zeta in *. rewrite Hm in Hm'. rewrite Hi in Hi'.
  rewrite (updateMarkers_ready (updateMarkers st)) by done.
  assert (currentDevices (updateMarkers st) = placed st <$> currentDevices st)
    as Hcur by (by rewrite updateMarkers_currentDevices, Hm, Hi).
  assert (placed (updateMarkers st) <$> currentDevices (updateMarkers st)
          = currentDevices (updateMarkers st)) as Hfix.
  { rewrite Hcur, <- list_fmap_compose.
    apply Forall_fmap_ext, Forall_forall. intros d _. cbn [compose].
    by rewrite (placed_ext st), placed_idempotent. }
  rewrite Hfix.
  assert (cleanUpMarkers (currentDevices (updateMarkers st))
            (placeDevices (updateMarkers st) (currentDevices (updateMarkers st))
               (deviceMarkers (updateMarkers st))).2
          = deviceMarkers (updateMarkers st)) as ->.
  { apply map_eq. intros k.
    rewrite cleanUpMarkers_lookup, placeDevices_lookup by done.
    rewrite (drawnLast_ext st) by done.
    rewrite Hcur, placed_ids, drawnLast_placed.
    destruct (blocked (deviceMarkers (updateMarkers st)) k) eqn:Hb';
      [rewrite (blocked_None _ _ Hb'); by destruct (bool_decide _)|].
    destruct (blocked (deviceMarkers st) k) eqn:Hb.
    { exfalso.
      assert (deviceMarkers (updateMarkers st) !! k = None) as Hn.
      { rewrite updateMarkers_lookup, Hb by done. by destruct (bool_decide _). }
      unfold blocked in Hb, Hb'. rewrite Hn in Hb'.
      apply andb_prop in Hb as [Hp _]. rewrite Hp in Hb'.
      rewrite bool_decide_eq_false_2 in Hb' by (by intros [? ?]). done. }
    rewrite updateMarkers_lookup, Hb by done.
    case_bool_decide; [|done].
    by destruct (drawnLast st (currentDevices st) k). }
  rewrite (updateMarkers_ready st) by done.
  reflexivity.
Qed.

(** X13 ([updateMarkers]): with the map up, every located device leaves the
    redraw with its location in the [{lat, lng}] shape, whichever shape it
    came in, and at the same coordinates. *)
Theorem updateMarkers_normalises st :
  leafletMap st = true -> mapInitialized st = true ->
  Forall normalised (currentDevices (updateMarkers st)) /\
  (fun d => coordinates <$> location d) <$> currentDevices (updateMarkers st)
  = (fun d => coordinates <$> location d) <$> currentDevices st.
Proof.
  intros Hm Hi. rewrite updateMarkers_currentDevices, Hm, Hi. cbn [andb].
  split.
  - apply Forall_fmap, Forall_forall. intros d _.
    unfold normalised, compose. rewrite placed_location.
    by destruct (location d).
  - rewrite <- list_fmap_compose. apply Forall_fmap_ext, Forall_forall.
    intros d _. cbn [compose]. by destruct (placed_keepsReading st d) as (_&_&_&_&_&?).
Qed.

Lemma updateMarkers_normalises_witness :
  let st := with_currentDevices
              [mkDevice "a" "" "LTE" None (Some 0)
                        (Some (LatitudeLongitude 1 2)) false false None]
              (initializeMap initialState) in
  (leafletMap st = true /\ mapInitialized st = true) /\
  Forall normalised (currentDevices (updateMarkers st)).
Proof.
  intros st. split; [done|].
  exact (proj1 (updateMarkers_normalises st eq_refl eq_refl)).
Defined.

(** ** Map, station marker and geofence across the handlers *)

Section Handlers.

Lemma stationUntouched_refl st : stationUntouched st st.
Proof. by repeat split. Qed.

Lemma zoneUntouched_refl st : zoneUntouched st st.
Proof. by repeat split. Qed.

Lemma stationUntouched_trans st1 st2 st3 :
  stationUntouched st1 st2 -> stationUntouched st2 st3 -> stationUntouched st1 st3.
Proof.
  intros (?&?&?&?&?) (?&?&?&?&?). repeat split; congruence.
Qed.

Lemma zoneUntouched_trans st1 st2 st3 :
  zoneUntouched st1 st2 -> zoneUntouched st2 st3 -> zoneUntouched st1 st3.
Proof. intros (?&?) (?&?). split; congruence. Qed.

Lemma wellFormed_untouched st st' :
  stationUntouched st st' -> zoneUntouched st st' ->
  wellFormed st -> wellFormed st'.
Proof.
  intros (H1&H2&H3&H4&_) (H5&H6) (W1&W2&W3&W4).
  unfold wellFormed. rewrite H1, H2, H3, H4, H5, H6. done.
Qed.

Lemma updateDeviceList_untouched st :
  stationUntouched st (updateDeviceList st) /\
  zoneUntouched st (updateDeviceList st).
Proof.
  unfold updateDeviceList.
  destruct (showWhitelistedOnly st); by repeat split.
Qed.

Lemma updateMarkers_untouched st :
  stationUntouched st (updateMarkers st) /\ zoneUntouched st (updateMarkers st).
Proof.
  unfold updateMarkers.
  destruct (negb (leafletMap st) || negb (mapInitialized st));
    [by repeat split|].
  destruct (placeDevices st (currentDevices st) (deviceMarkers st)).
  by repeat split.
Qed.

Lemma updateMarkersOf_untouched l st :
  stationUntouched st (updateMarkersOf l st) /\
  zoneUntouched st (updateMarkersOf l st).
Proof.
  unfold updateMarkersOf.
  destruct (negb (leafletMap st) || negb (mapInitialized st));
    [by repeat split|].
  destruct (placeDevices st l (deviceMarkers st)).
  by repeat split.
Qed.

Lemma refreshViews_untouched st :
  stationUntouched st (refreshViews st) /\ zoneUntouched st (refreshViews st).
Proof.
  unfold refreshViews.
  destruct (updateDeviceList_untouched st) as [H1 H2].
  destruct (mapInitialized (updateDeviceList st) && leafletMap (updateDeviceList st));
    [|done].
  destruct (updateMarkers_untouched (updateDeviceList st)) as [H3 H4].
  split; [by apply stationUntouched_trans with (updateDeviceList st)|].
  by apply zoneUntouched_trans with (updateDeviceList st).
Qed.

Lemma checkDevicesAgainstGeofence_untouched st :
  stationUntouched st (checkDevicesAgainstGeofence st) /\
  zoneUntouched st (checkDevicesAgainstGeofence st).
Proof.
  unfold checkDevicesAgainstGeofence.
  destruct (geofenceCircle st) as [c|] eqn:Ec; [|by repeat split].
  destruct (negb (geofenceEnabled st)); [by repeat split|].
  destruct (checkDevices (leafletMap st) c (currentDevices st) (deviceMarkers st))
    as [l m].
  destruct (updateDeviceList_untouched
              (with_deviceMarkers m (with_currentDevices l st))) as [H1 H2].
  split.
  - eapply stationUntouched_trans; [|exact H1]. by repeat split.
  - eapply zoneUntouched_trans; [|exact H2]. by repeat split.
Qed.

Lemma addToWhitelist_untouched form reply st :
  stationUntouched st (addToWhitelist form reply st).1 /\
  zoneUntouched st (addToWhitelist form reply st).1.
Proof.
  unfold addToWhitelist.
  destruct (bool_decide (deviceId form = ""%string)); [by repeat split|].
  destruct (negb (bool_decide (deviceId form ∈ (id <$> currentDevices st))));
    [by repeat split|].
  destruct reply as [status body|message]; [|by repeat split].
  destruct (ok status); [|by repeat split].
  assert (forall l, stationUntouched st (refreshViews (with_currentDevices l st)) /\
                    zoneUntouched st (refreshViews (with_currentDevices l st)))
    as H.
  { intros l.
    destruct (refreshViews_untouched (with_currentDevices l st)) as [H1 H2].
    split.
    - eapply stationUntouched_trans; [|exact H1]. by repeat split.
    - eapply zoneUntouched_trans; [|exact H2]. by repeat split. }
  destruct body; cbn [fst]; try apply H; by repeat split.
Qed.

Lemma removeFromWhitelist_untouched form reply st :
  stationUntouched st (removeFromWhitelist form reply st).1 /\
  zoneUntouched st (removeFromWhitelist form reply st).1.
Proof.
  unfold removeFromWhitelist.
  destruct (bool_decide (deviceId form = ""%string)); [by repeat split|].
  destruct reply as [status body|message]; [|by repeat split].
  destruct (ok status); [|by repeat split].
  assert (forall l, stationUntouched st (refreshViews (with_currentDevices l st)) /\
                    zoneUntouched st (refreshViews (with_currentDevices l st)))
    as H.
  { intros l.
    destruct (refreshViews_untouched (with_currentDevices l st)) as [H1 H2].
    split.
    - eapply stationUntouched_trans; [|exact H1]. by repeat split.
    - eapply zoneUntouched_trans; [|exact H2]. by repeat split. }
  destruct body; cbn [fst]; try apply H; by repeat split.
Qed.

Lemma processDeviceData_untouched now data_devices st :
  stationUntouched st (stateOf (processDeviceData now data_devices st)) /\
  zoneUntouched st (stateOf (processDeviceData now data_devices st)).
Proof.
  unfold processDeviceData.
  destruct data_devices as [l|]; [|by repeat split].
  destruct (processDevices now st l (deviceStatus st) (deviceMarkers st))
    as [[[l' ds] m]|[ds m]]; [|by repeat split].
  cbn [stateOf].
  match goal with |- context [updateDeviceList ?s] =>
    destruct (updateDeviceList_untouched s) as [H1 H2];
    pose proof (updateMarkers_untouched (updateDeviceList s)) as [H3 H4];
    destruct (mapInitialized (updateDeviceList s))
  end.
  - split.
    + eapply stationUntouched_trans; [|exact H3].
      eapply stationUntouched_trans; [|exact H1]. by repeat split.
    + eapply zoneUntouched_trans; [|exact H4].
      eapply zoneUntouched_trans; [|exact H2]. by repeat split.
  - split.
    + eapply stationUntouched_trans; [|exact H1]. by repeat split.
    + eapply zoneUntouched_trans; [|exact H2]. by repeat split.
Qed.

(** The station block re-centers exactly when map and marker are there and
    the map does not count as initialized. *)
Lemma updateStation_moved gps st :
  moved (updateStation gps st).2 = true <->
  leafletMap st = true /\ is_Some (userMarker st) /\ mapInitialized st = false.
Proof.
  unfold updateStation. cbn -[Rltb].
  destruct (leafletMap st) eqn:Em, (userMarker st) as [mk|] eqn:Ek; cbn -[Rltb].
  - destruct (mapInitialized st) eqn:Ei; cbn -[Rltb].
    + unfold getDistance. cbn -[Rltb]. rewrite Em, distanceTo_refl.
      rewrite Rltb_false by Lra.lra. cbn.
      split; [done|]. by intros (_&_&?).
    + split; [eauto|done].
  - destruct (mapInitialized st); cbn; (split; [done|]);
      by intros (_&[? ?]&_).
  - destruct (mapInitialized st); cbn; (split; [done|]);
      by intros (?&_).
  - destruct (mapInitialized st); cbn; (split; [done|]);
      by intros (?&_).
Qed.

(** What the station block does to the variables of the station. *)
Lemma updateStation_station gps st :
  let st' := (updateStation gps st).1 in
  zoneUntouched st st' /\
  leafletMap st' = leafletMap st /\ mapInitialized st' = mapInitialized st /\
  userLocation st' = gps /\ usingGPS st' = true /\
  userMarker st' =
    (if leafletMap st
     then match userMarker st with Some _ => Some gps | None => None end
     else userMarker st).
Proof.
  unfold updateStation. cbn -[Rltb].
  destruct (leafletMap st) eqn:Em, (userMarker st) as [mk|] eqn:Ek; cbn -[Rltb];
    repeat match goal with |- context [if ?b then _ else _] => destruct b end;
    cbn; rewrite ?Em, ?Ek; by repeat split.
Qed.

(** [ws.onmessage] around its station block: the state the block starts
    from and the state it hands on differ from those of the handler in
    devices and markers only. *)
Lemma ws_onmessage_station_block now data st :
  exists st4,
    stationUntouched st st4 /\ zoneUntouched st st4 /\
    let r := match monitoring_station data with
             | Some gpsLocation => updateStation gpsLocation st4
             | None => (st4, [])
             end in
    moved (ws_onmessage now data st).2 = moved r.2 /\
    stationUntouched r.1 (ws_onmessage now data st).1 /\
    zoneUntouched r.1 (ws_onmessage now data st).1.
Proof.
  unfold ws_onmessage. cbv zeta.
  set (st2 := with_deviceStatus _ _).
  set (st3 := updateDeviceList st2).
  set (st4 := if mapInitialized st3 && leafletMap st3 then _ else _).
  exists st4.
  assert (stationUntouched st st3 /\ zoneUntouched st st3) as [S3 Z3].
  { destruct (updateDeviceList_untouched st2) as [H1 H2]. fold st3 in H1, H2.
    split.
    - eapply stationUntouched_trans; [|exact H1]. by repeat split.
    - eapply zoneUntouched_trans; [|exact H2]. by repeat split. }
  assert (stationUntouched st st4 /\ zoneUntouched st st4) as [S4 Z4].
  { subst st4. destruct (mapInitialized st3 && leafletMap st3); [|done].
    destruct (updateMarkers_untouched st3) as [H1 H2].
    split.
    - by apply stationUntouched_trans with st3.
    - by apply zoneUntouched_trans with st3. }
  clearbody st4. split; [done|]. split; [done|].
  destruct (match monitoring_station data with
            | Some gpsLocation => updateStation gpsLocation st4
            | None => (st4, [])
            end) as [st5 recenter].
  cbn [fst snd].
  split.
  - unfold moved. rewrite existsb_app.
    destruct (negb (mapInitialized st5) && negb (bool_decide (devices data = [])));
      cbn; by rewrite orb_false_r.
  - destruct (bool_decide (devices data = []));
      [split; [apply stationUntouched_refl|apply zoneUntouched_refl]|].
    apply updateMarkers_untouched.
Qed.

Lemma snapshots_snoc run now data st :
  snapshots (run ++ [(now, data)]) st
  = (ws_onmessage now data (snapshots run st)).1.
Proof. unfold snapshots. by rewrite foldl_app. Qed.

Lemma ws_onmessage_usingGPS now data st :
  usingGPS (ws_onmessage now data st).1 =
  usingGPS st || bool_decide (is_Some (monitoring_station data)).
Proof.
  destruct (ws_onmessage_station_block now data st)
    as (st4 & (_&_&_&_&G4) & _ & Hr).
  cbv zeta in Hr. destruct Hr as (_ & (_&_&_&_&G6) & _).
  rewrite G6. destruct (monitoring_station data) as [gps|].
  - destruct (updateStation_station gps st4) as (_&_&_&_& -> &_).
    rewrite bool_decide_eq_true_2 by eauto. by rewrite orb_true_r.
  - cbn [fst]. rewrite G4, bool_decide_eq_false_2; [by rewrite orb_false_r|].
    by intros [? ?].
Qed.

End Handlers.

(** X14 ([ws.onmessage], station block): a snapshot re-centers the view
    exactly when it carries a station fix while map and station marker exist
    and the map does not count as initialized; how far the fix lies from the
    marker plays no part, the marker having been moved to the fix before the
    distance is taken. *)
Theorem ws_onmessage_recenters_iff now data st :
  moved (ws_onmessage now data st).2 = true <->
  is_Some (monitoring_station data) /\ leafletMap st = true /\
  is_Some (userMarker st) /\ mapInitialized st = false.
Proof.
  destruct (ws_onmessage_station_block now data st)
    as (st4 & (M4&I4&K4&_) & _ & Hr).
  cbv zeta in Hr. destruct Hr as (-> & _).
  destruct (monitoring_station data) as [gps|].
  - rewrite updateStation_moved, M4, I4, K4. split; [by eauto|].
    by intros (_&?&?&?).
  - cbn. split; [done|]. by intros ([? ?]&_).
Qed.

(** X15 (all handlers): every handler of the page keeps the map and
    geofence variables well-formed: an enabled geofence has its circle, a
    circle has a radius of 500 m, the map is initialized exactly when it
    exists, and the station marker exists with the map and stands at
    [userLocation].  In such a state no snapshot re-centers the view. *)
Theorem handlers_keep_wellFormed st :
  wellFormed st ->
  (forall now data, wellFormed (ws_onmessage now data st).1 /\
                    moved (ws_onmessage now data st).2 = false) /\
  (forall devices, wellFormed (initializeMapWith devices st)) /\
  (forall position, wellFormed (getUserLocation position st).1) /\
  (forall latlng, wellFormed (setGeofenceAtPosition latlng st)) /\
  wellFormed (toggleGeofence st) /\
  wellFormed (toggleWhitelistView st) /\
  (forall data_devices, wellFormed (fetchDevices data_devices st)) /\
  (forall form reply, wellFormed (addToWhitelist form reply st).1) /\
  (forall form reply, wellFormed (removeFromWhitelist form reply st).1) /\
  (forall now data_devices,
     wellFormed (stateOf (processDeviceData now data_devices st))).
Proof.
  intros W. pose proof W as (W1 & W2 & W3 & W4).
  split; [|split; [|split; [|split; [|split; [|split; [|split; [|split;
    [|split]]]]]]]].
  - intros now data. split.
    + destruct (ws_onmessage_station_block now data st)
        as (st4 & S4 & Z4 & Hr).
      cbv zeta in Hr. destruct Hr as (_ & S6 & Z6).
      eapply wellFormed_untouched; [exact S6|exact Z6|].
      pose proof (wellFormed_untouched _ _ S4 Z4 W) as (V1 & V2 & V3 & V4).
      destruct (monitoring_station data) as [gps|]; [|done].
      destruct (updateStation_station gps st4)
        as ((C5&E5)&M5&I5&L5&_&K5).
      unfold wellFormed. rewrite C5, E5, M5, I5, L5, K5, V4.
      repeat split; try done. by destruct (leafletMap st4).
    + destruct (ws_onmessage_station_block now data st)
        as (st4 & (M4&I4&_) & _ & Hr).
      cbv zeta in Hr. destruct Hr as (-> & _).
      destruct (monitoring_station data) as [gps|]; [|done].
      apply not_true_is_false. rewrite updateStation_moved, M4, I4.
      intros (Hm & _ & Hi). congruence.
  - intros devices. unfold initializeMapWith.
    assert (wellFormed (initializeMap st)) as Wi by (by repeat split).
    destruct devices as [| |l]; [done| |].
    + destruct (bool_decide (currentDevices (initializeMap st) = [])); [done|].
      destruct (updateMarkers_untouched (initializeMap st)).
      by apply (wellFormed_untouched (initializeMap st)).
    + destruct (bool_decide (l = [])); [done|].
      destruct (updateMarkersOf_untouched l (initializeMap st)).
      by apply (wellFormed_untouched (initializeMap st)).
  - intros position. unfold getUserLocation.
    destruct (usingGPS st); [done|].
    cbn [leafletMap userMarker mapInitialized with_browserLocation].
    destruct (leafletMap st) eqn:Em; rewrite ?W3, ?W4;
      cbn [negb fst]; unfold wellFormed;
      cbn [leafletMap userMarker mapInitialized userLocation geofenceCircle
           geofenceEnabled with_browserLocation];
      rewrite ?Em, ?W3, ?W4; by repeat split.
  - intros latlng. unfold setGeofenceAtPosition.
    destruct (checkDevicesAgainstGeofence_untouched
                (with_geofence (Some (mkCircle latlng 500%R)) true st)) as [H1 H2].
    eapply wellFormed_untouched; [exact H1|exact H2|].
    unfold wellFormed. cbn.
    split; [intros _; by eexists|]. split; [by intros c [= <-]|]. done.
  - unfold toggleGeofence. destruct (geofenceCircle st) as [c|] eqn:Ec; [|done].
    destruct (checkDevicesAgainstGeofence_untouched
                (with_geofence (Some c) (negb (geofenceEnabled st)) st)) as [H1 H2].
    eapply wellFormed_untouched; [exact H1|exact H2|].
    unfold wellFormed. cbn.
    split; [intros _; by eexists|].
    split; [intros c' [= <-]; by apply W2|]. done.
  - unfold toggleWhitelistView.
    match goal with |- wellFormed (updateDeviceList ?s) =>
      destruct (updateDeviceList_untouched s) as [H1 H2] end.
    eapply wellFormed_untouched; [exact H1|exact H2|done].
  - intros data_devices. unfold fetchDevices.
    match goal with |- wellFormed (updateDeviceList ?s) =>
      destruct (updateDeviceList_untouched s) as [H1 H2] end.
    eapply wellFormed_untouched; [exact H1|exact H2|done].
  - intros form reply.
    destruct (addToWhitelist_untouched form reply st) as [H1 H2].
    by apply (wellFormed_untouched st).
  - intros form reply.
    destruct (removeFromWhitelist_untouched form reply st) as [H1 H2].
    by apply (wellFormed_untouched st).
  - intros now data_devices.
    destruct (processDeviceData_untouched now data_devices st) as [H1 H2].
    by apply (wellFormed_untouched st).
Qed.

Lemma handlers_keep_wellFormed_witness :
  wellFormed initialState /\
  wellFormed (initializeMapWith NoDevices initialState) /\
  wellFormed (setGeofenceAtPosition (0%R, 0%R) initialState).
Proof.
  assert (wellFormed initialState) as W.
  { unfold wellFormed. cbn. repeat split; try done. }
  split; [exact W|].
  destruct (handlers_keep_wellFormed initialState W) as (_ & H2 & _ & H4 & _).
  split; [apply H2|apply H4].
Defined.

(** X16 ([getUserLocation], [ws.onmessage]): once a snapshot has carried a
    station fix, a position from the browser is ignored for good, however
    many snapshots follow: the callback changes nothing and asks for
    nothing. *)
Theorem browser_position_ignored_after_fix now data gps later position st :
  monitoring_station data = Some gps ->
  let st' := snapshots later (ws_onmessage now data st).1 in
  getUserLocation position st' = (st', []).
Proof.
  intros Hgps st'.
  assert (usingGPS st' = true) as Hu.
  { subst st'. induction later as [|[t m] later IH] using rev_ind.
    - cbn. rewrite ws_onmessage_usingGPS, Hgps.
      rewrite bool_decide_eq_true_2 by eauto. by rewrite orb_true_r.
    - rewrite snapshots_snoc, ws_onmessage_usingGPS, IH. done. }
  unfold getUserLocation. by rewrite Hu.
Qed.

Lemma browser_position_ignored_after_fix_witness :
  let data := mkMessage [] (Some (0%R, 0%R)) in
  monitoring_station data = Some (0%R, 0%R) /\
  let st' := snapshots [(2000, snapshot [exampleDevice "a" 0])]
               (ws_onmessage 1000 data initialState).1 in
  getUserLocation (1%R, 1%R) st' = (st', []).
Proof.
  intros data. split; [done|].
  exact (browser_position_ignored_after_fix 1000 data (0%R, 0%R)
           [(2000, snapshot [exampleDevice "a" 0])] (1%R, 1%R) initialState eq_refl).
Defined.

(** ** The geofence, switched and checked again *)

Section GeofenceAgain.

Lemma checked_idempotent circle d : checked circle (checked circle d) = checked circle d.
Proof.
  unfold checked. destruct (location d) as [l|] eqn:El; cbn; rewrite El; [|done].
  done.
Qed.

Lemma checkDevicesAgainstGeofence_enabled st circle :
  geofenceCircle st = Some circle -> geofenceEnabled st = true ->
  currentDevices (checkDevicesAgainstGeofence st) =
    (if showWhitelistedOnly st then checked circle <$> currentDevices st
     else sortDevices (checked circle <$> currentDevices st)) /\
  deviceList (checkDevicesAgainstGeofence st) =
    sortDevices (if showWhitelistedOnly st
                 then List.filter whitelisted (checked circle <$> currentDevices st)
                 else checked circle <$> currentDevices st).
Proof.
  intros Hc He. unfold checkDevicesAgainstGeofence. rewrite Hc, He. cbn [negb].
  pose proof (checkDevices_fst (leafletMap st) circle (currentDevices st)
                (deviceMarkers st)) as Hf.
  destruct (checkDevices (leafletMap st) circle (currentDevices st)
              (deviceMarkers st)) as [l m].
  cbn [fst] in Hf. subst l. unfold updateDeviceList.
  cbn [showWhitelistedOnly currentDevices with_deviceMarkers with_currentDevices].
  by destruct (showWhitelistedOnly st).
Qed.

Lemma fmap_fixed {A} (f : A -> A) (l : list A) :
  Forall (fun x => f x = x) l -> f <$> l = l.
Proof.
  intros H. rewrite <- (list_fmap_id l) at 2. by apply Forall_fmap_ext.
Qed.

End GeofenceAgain.

(** X17 ([toggleGeofence]): switching an enabled geofence off and on again
    comes to one fresh check of the devices against the same circle. *)
Theorem toggleGeofence_off_on st circle :
  geofenceCircle st = Some circle -> geofenceEnabled st = true ->
  toggleGeofence (toggleGeofence st) = checkDevicesAgainstGeofence st.
Proof.
  intros Hc He. rewrite (toggleGeofence_off st circle Hc He).
  unfold toggleGeofence. cbn [geofenceCircle geofenceEnabled with_geofence negb].
  f_equal. destruct st. cbn in *. by subst.
Qed.

Lemma toggleGeofence_off_on_witness :
  let st := setGeofenceAtPosition (0%R, 0%R)
              (with_currentDevices [deviceAtOrigin "a" 0]
                 (initializeMap initialState)) in
  (geofenceCircle st = Some (mkCircle (0%R, 0%R) 500%R) /\
   geofenceEnabled st = true) /\
  toggleGeofence (toggleGeofence st) = checkDevicesAgainstGeofence st.
Proof.
  intros st.
  assert (geofenceCircle st = Some (mkCircle (0%R, 0%R) 500%R) /\
          geofenceEnabled st = true) as [Hc He].
  { unfold st, setGeofenceAtPosition.
    match goal with |- context [checkDevicesAgainstGeofence ?s] =>
      destruct (checkDevicesAgainstGeofence_frame s) as (-> & -> & _) end.
    done. }
  split; [done|].
  exact (toggleGeofence_off_on st _ Hc He).
Defined.

(** X18 ([checkDevicesAgainstGeofence]): checking the devices against the
    geofence a second time changes neither a device nor the rendered
    list. *)
Theorem checkDevicesAgainstGeofence_again st :
  let st1 := checkDevicesAgainstGeofence st in
  let st2 := checkDevicesAgainstGeofence st1 in
  currentDevices st2 = currentDevices st1 /\ deviceList st2 = deviceList st1.
Proof.
  intros st1 st2. subst st1 st2.
  destruct (geofenceCircle st) as [c|] eqn:Hc;
    [|by rewrite !(checkDevicesAgainstGeofence_disabled st) by (by left)].
  destruct (geofenceEnabled st) eqn:He;
    [|by rewrite !(checkDevicesAgainstGeofence_disabled st) by (by right)].
  destruct (checkDevicesAgainstGeofence_frame st) as (Hc1 & He1 & _).
  cbv zeta in Hc1, He1. rewrite Hc in Hc1. rewrite He in He1.
  assert (showWhitelistedOnly (checkDevicesAgainstGeofence st)
          = showWhitelistedOnly st) as Hs.
  { unfold checkDevicesAgainstGeofence. rewrite Hc, He. cbn [negb].
    destruct (checkDevices (leafletMap st) c (currentDevices st) (deviceMarkers st)).
    by destruct (updateDeviceList_frame
                   (with_deviceMarkers g (with_currentDevices l st)))
      as (_&_&_&_&_&_& -> &_). }
  destruct (checkDevicesAgainstGeofence_enabled _ c Hc1 He1) as [-> ->].
  destruct (checkDevicesAgainstGeofence_enabled st c Hc He) as [Hcur Hlist].
  rewrite Hs, Hlist.
  assert (checked c <$> currentDevices (checkDevicesAgainstGeofence st)
          = currentDevices (checkDevicesAgainstGeofence st)) as Hfix.
  { apply fmap_fixed, Forall_forall. intros d Hd. rewrite Hcur in Hd.
    assert (d ∈ checked c <$> currentDevices st) as Hd'.
    { destruct (showWhitelistedOnly st); [done|]. exact (proj1 (sortDevices_elem_of _ _) Hd). }
    apply list_elem_of_fmap in Hd' as (x & -> & _). apply checked_idempotent. }
  rewrite Hfix, Hcur.
  destruct (showWhitelistedOnly st); [done|].
  by rewrite sortDevices_idempotent.
Qed.

(** ** [processDeviceData], returning *)

Section ProcessDeviceDataAgain.

Lemma processDevice_inl now st d ds m :
  (exists r, processDevice now st d ds m = inl r) <->
  (geofenceCircle st = None \/ leafletMap st = false \/ locatable d).
Proof.
  unfold processDevice, locatable.
  destruct (geofenceCircle st) as [c|]; [|split; eauto].
  destruct (leafletMap st); [|split; eauto].
  cbn [location set_isActive].
  destruct (location d) as [l|].
  - destruct (latLngOf l) as [p|].
    + split; eauto.
    + split; [by intros [? ?]|]. intros [?|[?|[? ?]]]; done.
  - split; [by intros [? ?]|]. intros [?|[?|?]]; done.
Qed.

Lemma processDevices_inl now st l ds m :
  (exists r, processDevices now st l ds m = inl r) <->
  (geofenceCircle st = None \/ leafletMap st = false \/ Forall locatable l).
Proof.
  revert ds m. induction l as [|d l IH]; intros ds m.
  - cbn. split; [intros _; right; right; constructor|eauto].
  - cbn [processDevices].
    pose proof (processDevice_inl now st d ds m) as Hd.
    destruct (processDevice now st d ds m) as [[[d' ds1] m1]|[d' ds1]].
    + specialize (IH ds1 m1).
      destruct (processDevices now st l ds1 m1) as [[[l' ds2] m2]|e].
      * split; [intros _|eauto].
        destruct (proj1 Hd) as [?|[?|?]]; [eauto| | |]; auto.
        destruct (proj1 IH) as [?|[?|?]]; [eauto| | |]; auto.
      * split; [by intros [? ?]|]. intros H.
        destruct (proj2 IH) as [? ?]; [|done].
        destruct H as [?|[?|H]]; auto.
        right; right. by apply Forall_cons in H as [_ ?].
    + split; [by intros [? ?]|]. intros H.
      destruct (proj2 Hd) as [? ?]; [|done].
      destruct H as [?|[?|H]]; auto.
      right; right. by apply Forall_cons in H as [? _].
Qed.

Lemma processDevice_processed now st d ds m d' ds' m' :
  processDevice now st d ds m = inl (d', ds', m') -> processedFrom now d d'.
Proof.
  unfold processDevice, processedFrom.
  destruct (geofenceCircle st); [|by intros [= <- _ _]].
  destruct (leafletMap st); [|by intros [= <- _ _]].
  cbn [location set_isActive].
  destruct (location d) as [l|]; [|done].
  destruct (latLngOf l); [|done]. by intros [= <- _ _].
Qed.

Lemma processDevices_processed now st l ds m l' ds' m' :
  processDevices now st l ds m = inl (l', ds', m') ->
  Forall2 (processedFrom now) l l'.
Proof.
  revert ds m l' ds' m'. induction l as [|d l IH]; intros ds m l' ds' m'.
  - cbn. intros [= <- _ _]. constructor.
  - cbn [processDevices].
    destruct (processDevice now st d ds m) as [[[d' ds1] m1]|[d1 ds1]] eqn:Ed;
      [|done].
    destruct (processDevices now st l ds1 m1) as [[[l1 ds2] m2]|e] eqn:El;
      [|done].
    intros [= <- _ _]. constructor.
    + by apply (processDevice_processed now st d ds m d' ds1 m1).
    + by apply (IH ds1 m1 l1 ds2 m2).
Qed.

Lemma processDevice_tracked now st d ds m d' ds' m' k :
  processDevice now st d ds m = inl (d', ds', m') ->
  k ∈ dom (active ds) ∪ dom (inactive ds) ->
  k ∈ dom (active ds') ∪ dom (inactive ds').
Proof.
  unfold processDevice.
  set (d1 := set_isActive (withinThirtySeconds now d) d).
  set (ds1 := if isActive d1 then _ else _).
  intros Heq Hk.
  assert (ds' = ds1) as ->.
  { destruct (geofenceCircle st); [|by injection Heq].
    destruct (leafletMap st); [|by injection Heq].
    destruct (location d1) as [l|]; [|discriminate].
    destruct (latLngOf l); [by injection Heq|discriminate]. }
  subst ds1. unfold setKey, removeKey.
  destruct (isActive d1); cbn; case_bool_decide; [done| |done|];
    rewrite dom_insert_L, dom_delete_L;
    destruct (decide (k = id d1)); clear -Hk n || clear -e; set_solver.
Qed.

Lemma processDevices_tracking now st l ds m l' ds' m' :
  processDevices now st l ds m = inl (l', ds', m') ->
  (dom (active ds) ## dom (inactive ds) ->
   dom (active ds') ## dom (inactive ds')) /\
  (forall k, k ∈ dom (active ds) ∪ dom (inactive ds) ∨
             (k ∈ (id <$> l) /\ k <> "__proto__"%string) ->
             k ∈ dom (active ds') ∪ dom (inactive ds')).
Proof.
  revert ds m l' ds' m'. induction l as [|d l IH]; intros ds m l' ds' m'.
  - cbn. intros [= _ <- _]. split; [done|].
    intros k [?|[?%elem_of_nil _]]; done.
  - cbn [processDevices].
    destruct (processDevice now st d ds m) as [[[d' ds1] m1]|[d1 ds1]] eqn:Ed;
      [|done].
    destruct (processDevices now st l ds1 m1) as [[[l1 ds2] m2]|e] eqn:El;
      [|done].
    intros [= _ <- _].
    destruct (IH ds1 m1 l1 ds2 m2 El) as [IH1 IH2].
    split.
    + intros Hdisj. apply IH1.
      by destruct (processDevice_disjoint now st d ds m d' ds1 m1 Hdisj Ed).
    + intros k Hk. apply IH2. rewrite fmap_cons in Hk.
      destruct Hk as [Hk|[[->|Hk]%elem_of_cons Hne]].
      * left. by apply (processDevice_tracked now st d ds m d' ds1 m1).
      * left.
        unfold processDevice in Ed.
        set (d1 := set_isActive (withinThirtySeconds now d) d) in Ed.
        set (dsx := if isActive d1 then _ else _) in Ed.
        assert (ds1 = dsx) as ->.
        { destruct (geofenceCircle st); [|by injection Ed].
          destruct (leafletMap st); [|by injection Ed].
          destruct (location d1) as [loc|]; [|discriminate].
          destruct (latLngOf loc); [by injection Ed|discriminate]. }
        subst dsx. change (id d1) with (id d).
        destruct (isActive d1); cbn; rewrite dom_setKey; set_solver.
      * by right.
Qed.

Lemma processDeviceData_Returned now l st st' :
  processDeviceData now (Some l) st = Returned st' ->
  exists l' ds m,
    processDevices now st l (deviceStatus st) (deviceMarkers st) = inl (l', ds, m) /\
    viewOf l' st' /\ deviceStatus st' = ds.
Proof.
  unfold processDeviceData.
  destruct (processDevices now st l (deviceStatus st) (deviceMarkers st))
    as [[[l' ds] m]|[ds m]]; [|done].
  intros [= <-]. exists l', ds, m. split; [done|].
  set (st1 := with_currentDevices l' _).
  assert (viewOf l' (updateDeviceList st1)) as Hv
    by apply viewOf_updateDeviceList, (viewOf_intro st1).
  destruct (updateDeviceList_frame st1) as (Hds & _).
  destruct (updateMarkers_frame (updateDeviceList st1)) as (Hds' & _).
  destruct (mapInitialized (updateDeviceList st1)).
  - split; [by apply viewOf_updateMarkers|]. by rewrite Hds', Hds.
  - split; [done|]. by rewrite Hds.
Qed.

End ProcessDeviceDataAgain.

(** X19 ([processDeviceData]): the call returns exactly when no geofence is
    set, or there is no map, or every device of the snapshot has a location
    that [L.latLng] accepts; in every other case it throws and leaves
    [currentDevices] and the rendered list as they were. *)
Theorem processDeviceData_returns_iff now l st :
  ((exists st', processDeviceData now (Some l) st = Returned st') <->
   geofenceCircle st = None \/ leafletMap st = false \/ Forall locatable l) /\
  (forall error st', processDeviceData now (Some l) st = Thrown error st' ->
     currentDevices st' = currentDevices st /\ deviceList st' = deviceList st).
Proof.
  pose proof (processDevices_inl now st l (deviceStatus st) (deviceMarkers st)) as H.
  unfold processDeviceData.
  destruct (processDevices now st l (deviceStatus st) (deviceMarkers st))
    as [[[l' ds] m]|[ds m]].
  - split; [|done]. split; [intros _; apply H; eauto|eauto].
  - split.
    + split; [by intros [? ?]|]. intros H'. apply H in H' as [? ?]. done.
    + by intros error st' [= _ <-].
Qed.

(** X20 ([processDeviceData]): when the call returns, every listed device
    is active exactly when it was seen less than 31 s before (whole seconds
    are compared with [<= 30]), a device without a valid time is inactive,
    the list holds the ids of the snapshot, every one of them but
    [__proto__] is a key of a tracking map, and tracking maps that had no
    key in common still have none. *)
Theorem processDeviceData_activity now l st st' :
  processDeviceData now (Some l) st = Returned st' ->
  (forall d' t, d' ∈ currentDevices st' -> last_seen d' = Some t ->
                (isActive d' = true <-> now - t < 31000)) /\
  (forall d', d' ∈ currentDevices st' -> last_seen d' = None ->
              isActive d' = false) /\
  id <$> currentDevices st' ≡ₚ id <$> l /\
  (forall d, d ∈ l -> id d <> "__proto__"%string ->
     id d ∈ dom (active (deviceStatus st')) ∪ dom (inactive (deviceStatus st'))) /\
  (dom (active (deviceStatus st)) ## dom (inactive (deviceStatus st)) ->
   dom (active (deviceStatus st')) ## dom (inactive (deviceStatus st'))).
Proof.
  intros Hret.
  destruct (processDeviceData_Returned now l st st' Hret)
    as (l' & ds & m & Hp & Hv & Hds).
  pose proof (processDevices_processed _ _ _ _ _ _ _ _ Hp) as Hf.
  destruct (processDevices_tracking _ _ _ _ _ _ _ _ Hp) as [Hdisj Htr].
  assert (forall d', d' ∈ currentDevices st' ->
            isActive d' = withinThirtySeconds now d') as Hact.
  { intros d' Hd'.
    destruct (viewOf_elem_of _ _ _ Hv Hd') as (d1 & Hd1 & (_ & Hls & _ & Hia & _)).
    apply list_elem_of_lookup in Hd1 as [i Hi].
    destruct (Forall2_lookup_r _ _ _ _ _ Hf Hi) as (d & _ & (_ & Hls1 & Hia1)).
    rewrite Hia, Hia1. unfold withinThirtySeconds, timeDiff.
    by rewrite Hls, Hls1. }
  split; [|split; [|split; [|split]]].
  - intros d' t Hd' Ht. rewrite (Hact d' Hd').
    by apply withinThirtySeconds_iff.
  - intros d' Hd' Ht. rewrite (Hact d' Hd').
    unfold withinThirtySeconds, timeDiff. by rewrite Ht.
  - rewrite (viewOf_ids _ _ Hv).
    assert (id <$> l' = id <$> l) as ->; [|done].
    clear -Hf. induction Hf as [|d d' l l' (Hid&_) _ IH]; [done|].
    rewrite !fmap_cons. by rewrite Hid, IH.
  - intros d Hd Hne. rewrite Hds. apply Htr. right.
    split; [by apply list_elem_of_fmap_2|done].
  - rewrite Hds. exact Hdisj.
Qed.

Lemma processDeviceData_activity_witness :
  let l := [exampleDevice "a" 9500; exampleDevice "b" 0] in
  let st' := with_deviceList [set_isActive true (exampleDevice "a" 9500);
                              exampleDevice "b" 0]
               (with_currentDevices
                  [set_isActive true (exampleDevice "a" 9500); exampleDevice "b" 0]
                  (with_deviceStatus
                     (mkStatus {["a" := set_isActive true (exampleDevice "a" 9500)]}
                               {["b" := exampleDevice "b" 0]} None None)
                     initialState)) in
  processDeviceData 40000 (Some l) initialState = Returned st' /\
  (forall d' t, d' ∈ currentDevices st' -> last_seen d' = Some t ->
                (isActive d' = true <-> 40000 - t < 31000)).
Proof.
  intros l st'.
  assert (processDeviceData 40000 (Some l) initialState = Returned st') as H
    by (vm_compute; reflexivity).
  split; [exact H|].
  exact (proj1 (processDeviceData_activity 40000 l initialState st' H)).
Defined.

(** ** Whitelist flags after a snapshot; the delayed map callback *)

Section SnapshotAgain.

Lemma viewOf_entries l st :
  viewOf l st ->
  whitelistEntry <$> currentDevices st ≡ₚ whitelistEntry <$> l.
Proof.
  intros (f & L & Hf & Hp & ->). rewrite <- Hp, <- list_fmap_compose.
  assert (whitelistEntry ∘ f <$> L = whitelistEntry <$> L) as ->; [|done].
  apply Forall_fmap_ext, Forall_forall. intros d _.
  destruct (Hf d) as (Hi&_&_&_&Hw&_).
  unfold whitelistEntry. cbn [compose]. by rewrite Hi, Hw.
Qed.

Lemma stampActive_entries ids l :
  whitelistEntry <$> stampActive ids l = whitelistEntry <$> l.
Proof.
  unfold stampActive. rewrite <- list_fmap_compose.
  by apply Forall_fmap_ext, Forall_forall.
Qed.

Lemma updateMarkersOf_lookup l st k :
  leafletMap st = true -> mapInitialized st = true ->
  deviceMarkers (updateMarkersOf l st) !! k =
  if bool_decide (k ∈ (id <$> l)) then
    if blocked (deviceMarkers st) k then None
    else match drawnLast st l k with
         | Some mk => Some mk
         | None => deviceMarkers st !! k
         end
  else None.
Proof.
  intros Hm Hi. unfold updateMarkersOf. rewrite Hm, Hi. cbn [negb orb].
  pose proof (placeDevices_fst st l (deviceMarkers st)) as Hf.
  pose proof (placeDevices_lookup st l (deviceMarkers st) k Hm) as Hl.
  destruct (placeDevices st l (deviceMarkers st)) as [l' m].
  cbn [fst snd] in Hf, Hl. subst l'.
  cbn [deviceMarkers with_deviceMarkers].
  by rewrite cleanUpMarkers_lookup, placed_ids, Hl.
Qed.

End SnapshotAgain.

(** X21 ([ws.onmessage], [updateWhitelistCount]): after a snapshot the
    listed devices carry the whitelist flags the snapshot gave them, id by
    id, and the whitelist counter of the header is the number of whitelisted
    devices of the snapshot; a flag set locally before does not outlast
    it. *)
Theorem ws_onmessage_whitelist_from_snapshot now data st :
  let st' := (ws_onmessage now data st).1 in
  whitelistEntry <$> currentDevices st' ≡ₚ whitelistEntry <$> devices data /\
  whitelistedCount (updateWhitelistCount st')
  = length (List.filter whitelisted (devices data)).
Proof.
  intros st'.
  assert (whitelistEntry <$> currentDevices st'
          ≡ₚ whitelistEntry <$> devices data) as Hp.
  { destruct (ws_onmessage_shape now data st) as (_ & Hv & _).
    cbv zeta in Hv. subst st'.
    by rewrite (viewOf_entries _ _ Hv), stampActive_entries. }
  split; [exact Hp|].
  unfold updateWhitelistCount. cbn [whitelistedCount].
  by rewrite !entries_count, (pair_count_perm _ _ Hp).
Qed.

(** X22 ([initializeMap], delayed callback): when the callback of
    [initializeMap(devices)] runs with the array of an earlier message, it
    draws and cleans up the markers from that array and leaves
    [currentDevices] alone: afterwards an id has a marker exactly when the
    earlier array lists it and it had a marker or, not being a name plain
    objects inherit, has a location in range there, whether or not the
    device is still listed. *)
Theorem delayed_map_draws_its_own_array l st k :
  l <> [] ->
  let st' := initializeMapWith (EarlierDevices l) st in
  currentDevices st' = currentDevices st /\
  (is_Some (deviceMarkers st' !! k) <->
   k ∈ (id <$> l) /\
   (is_Some (deviceMarkers st !! k) \/
    ((k ∉ objectPrototypeNames) /\
     exists d loc, d ∈ l /\ id d = k /\ location d = Some loc /\
                   validCoordinates (coordinates loc) = true))).
Proof.
  intros Hl st'. subst st'. unfold initializeMapWith.
  rewrite bool_decide_eq_false_2 by done.
  split.
  - unfold updateMarkersOf. cbn [leafletMap mapInitialized initializeMap negb orb].
    by destruct (placeDevices (initializeMap st) l (deviceMarkers (initializeMap st))).
  - rewrite updateMarkersOf_lookup by done.
    change (deviceMarkers (initializeMap st)) with (deviceMarkers st).
    case_bool_decide as Hk; [|split; [by intros [? ?]|by intros [? _]]].
    destruct (blocked (deviceMarkers st) k) eqn:Hb.
    { pose proof (blocked_None _ _ Hb) as Hn.
      split; [by intros [? ?]|].
      intros [_ [[mk H]|[Hp _]]]; [congruence|].
      by rewrite (blocked_plain _ _ Hp) in Hb. }
    destruct (drawnLast (initializeMap st) l k) as [mk|] eqn:E.
    + split; [intros _|by eauto]. split; [done|].
      destruct (blocked_false _ _ Hb) as [Hs|Hp]; [by left|]. right.
      split; [done|].
      apply drawnLast_Some in E as (d & Hd & Hid & Hdr).
      apply drawn_Some in Hdr as (loc & Hloc & Hv & _). by exists d, loc.
    + split; [intros H; split; [done|by left]|].
      intros [_ [H|(_ & d & loc & Hd & Hid & Hloc & Hv)]]; [done|].
      pose proof (drawnLast_None _ _ _ E d Hd Hid) as Hn.
      unfold drawn in Hn. by rewrite Hloc, Hv in Hn.
Qed.

Lemma delayed_map_draws_its_own_array_witness :
  let l := [deviceAtOrigin "a" 0] in
  let st := with_currentDevices [deviceAtOrigin "b" 1000] initialState in
  l <> [] /\
  let st' := initializeMapWith (EarlierDevices l) st in
  currentDevices st' = currentDevices st /\
  is_Some (deviceMarkers st' !! "a") /\ ~ is_Some (deviceMarkers st' !! "b").
Proof.
  intros l st.
  assert (l <> []) as Hl by done.
  assert (validCoordinates (coordinates (LatLng 0 0)) = true) as Hv
    by apply validCoordinates_origin.
  split; [exact Hl|]. intros st'. split; [|split].
  - exact (proj1 (delayed_map_draws_its_own_array l st "a" Hl)).
  - apply (proj2 (delayed_map_draws_its_own_array l st "a" Hl)).
    split; [simpl; set_solver|]. right. split; [apply plain_a|].
    exists (deviceAtOrigin "a" 0), (LatLng 0 0).
    repeat split; [simpl; left|exact Hv].
  - intros H.
    apply (proj2 (delayed_map_draws_its_own_array l st "b" Hl)) in H as [H _].
    simpl in H. set_solver.
Defined.

(** ** The markers after a snapshot *)

(** X23 ([ws.onmessage], [updateMarkers], [updateMarkerForDevice]): after a
    snapshot with pairwise different ids has arrived on an initialized map,
    every listed device with a location in range, whose id is not a name
    plain objects inherit, has its marker at its coordinates; the marker is
    faded exactly when the device was not seen in the last 30 s, green when
    the device is whitelisted, else red when its geofence flag is set, else
    blue. *)
Theorem ws_onmessage_draws_markers now data st d' loc :
  leafletMap st = true -> mapInitialized st = true ->
  NoDup (id <$> devices data) ->
  let st' := (ws_onmessage now data st).1 in
  d' ∈ currentDevices st' -> location d' = Some loc ->
  validCoordinates (coordinates loc) = true ->
  id d' ∉ objectPrototypeNames ->
  deviceMarkers st' !! id d' =
  Some (mkMarker (coordinates loc)
          (if whitelisted d' then green
           else if bool_decide (insideGeofence d' = Some true) then red else blue)
          (negb (seenRecently now d'))).
Proof.
  intros Hm Hi Hnd st' Hd' Hloc Hv Hp.
  rewrite <- (ws_onmessage_active_flag now data st d' Hnd Hd').
  subst st'.
  destruct (ws_onmessage_redraw now data st)
    as (st5 & Heq & H5 & _ & _ & _ & M5 & I5 & _).
  rewrite Hm in M5. rewrite Hi in I5.
  rewrite Heq in Hd' |- *.
  pose proof (viewOf_ids _ _ H5) as Hids. rewrite stampActive_ids in Hids.
  case_bool_decide as Hnil.
  { rewrite Hnil in Hids. apply Permutation_nil_r in Hids.
    apply fmap_nil_inv in Hids. rewrite Hids in Hd'.
    by apply elem_of_nil in Hd'. }
  assert (NoDup (id <$> currentDevices st5)) as Hnd5 by (by rewrite Hids).
  rewrite updateMarkers_currentDevices, M5, I5 in Hd'. cbn [andb] in Hd'.
  apply list_elem_of_fmap in Hd' as (d5 & -> & Hd5).
  rewrite placed_location in Hloc.
  destruct (location d5) as [l5|] eqn:El5; [|done].
  injection Hloc as <-. cbn [coordinates] in *.
  replace ((coordinates l5).1, (coordinates l5).2) with (coordinates l5) in *
    by (by destruct (coordinates l5)).
  rewrite placed_id in Hp.
  rewrite updateMarkers_lookup, placed_id by done.
  rewrite bool_decide_eq_true_2 by (by apply list_elem_of_fmap_2).
  rewrite (blocked_plain _ _ Hp).
  destruct (drawnLast st5 (currentDevices st5) (id d5)) as [mk|] eqn:E.
  - apply drawnLast_Some in E as (d0 & Hd0 & Hid & Hdr).
    assert (d0 = d5) as -> by (by apply (NoDup_id_inj (currentDevices st5))).
    apply drawn_Some in Hdr as (l' & Hl' & _ & ->).
    assert (l' = l5) as -> by congruence.
    f_equal. unfold markerFor. f_equal.
    destruct (whitelisted (placed st5 d5)); [done|].
    by destruct (insideGeofence (placed st5 d5)) as [[]|].
  - pose proof (drawnLast_None _ _ _ E d5 Hd5 eq_refl) as Hn.
    unfold drawn in Hn. by rewrite El5, Hv in Hn.
Qed.

Lemma ws_onmessage_draws_markers_witness :
  let data := snapshot [deviceAtOrigin "a" 39000; exampleDevice "b" 0] in
  let st := initializeMap initialState in
  (leafletMap st = true /\ mapInitialized st = true /\
   NoDup (id <$> devices data)) /\
  exists mk, deviceMarkers (ws_onmessage 40000 data st).1 !! "a" = Some mk /\
             markerLatLng mk = (0%R, 0%R) /\ markerFaded mk = false.
Proof.
  intros data st.
  assert (NoDup (id <$> devices data)) as Hnd.
  { simpl. apply NoDup_cons. split; [set_solver|]. apply NoDup_singleton. }
  split; [done|].
  destruct (ws_onmessage_shape 40000 data st) as (_ & Hview & _).
  cbv zeta in Hview.
  set (ids := activeDeviceIds _) in Hview.
  assert (set_isActive (bool_decide ("a" ∈ ids)) (deviceAtOrigin "a" 39000)
          ∈ stampActive ids (devices data)) as Hs by left.
  destruct (viewOf_elem_of_inv _ _ _ Hview Hs)
    as (d' & Hd' & Hid & Hls & _ & _ & _ & Hco).
  cbn in Hid, Hls, Hco.
  destruct (location d') as [loc|] eqn:Hloc; [|done].
  injection Hco as Hco.
  assert (validCoordinates (coordinates loc) = true) as Hv
    by (rewrite Hco; apply validCoordinates_origin).
  assert (id d' ∉ objectPrototypeNames) as Hp by (rewrite Hid; apply plain_a).
  pose proof (ws_onmessage_draws_markers 40000 data st d' loc
                eq_refl eq_refl Hnd Hd' Hloc Hv Hp) as Hmk.
  rewrite Hid, Hco in Hmk. eexists. split; [exact Hmk|].
  split; [done|]. cbn [markerFaded].
  unfold seenRecently, timeDiff. by rewrite Hls.
Defined.

(** ** The tracking maps under both handlers *)

Section TrackingAgain.

Lemma processDevice_filed now st d ds m :
  match processDevice now st d ds m with
  | inl (_, ds', _) => ds'
  | inr (_, ds') => ds'
  end = filed now d ds.
Proof.
  unfold processDevice, filed. cbn [isActive set_isActive id location].
  destruct (geofenceCircle st); [|done].
  destruct (leafletMap st); [|done].
  destruct (location d) as [l|]; [|done].
  by destruct (latLngOf l).
Qed.

Lemma processDevices_filed now st l ds m :
  match processDevices now st l ds m with
  | inl (_, ds', _) => ds' = filedAll now l ds
  | inr (ds', _) => exists l0, ds' = filedAll now l0 ds
  end.
Proof.
  revert ds m. induction l as [|d l IH]; intros ds m; [done|].
  cbn [processDevices].
  pose proof (processDevice_filed now st d ds m) as Hd.
  destruct (processDevice now st d ds m) as [[[d' ds1] m1]|[d' ds1]].
  - specialize (IH ds1 m1). subst ds1.
    destruct (processDevices now st l (filed now d ds) m1) as [[[l' ds2] m2]|[ds2 m2]].
    + exact IH.
    + destruct IH as [l0 ->]. by exists (d :: l0).
  - subst ds1. by exists [d].
Qed.

Lemma filed_disjoint now d ds :
  dom (active ds) ## dom (inactive ds) ->
  dom (active (filed now d ds)) ## dom (inactive (filed now d ds)).
Proof.
  intros H. unfold filed. destruct (withinThirtySeconds now d); cbn;
    rewrite dom_setKey, dom_removeKey; set_solver.
Qed.

Lemma filedAll_disjoint now l ds :
  dom (active ds) ## dom (inactive ds) ->
  dom (active (filedAll now l ds)) ## dom (inactive (filedAll now l ds)).
Proof.
  revert ds. induction l as [|d l IH]; intros ds H; [done|].
  cbn. apply IH. by apply filed_disjoint.
Qed.

Lemma filed_other now d ds k :
  k <> id d ->
  (k ∈ dom (active (filed now d ds)) <-> k ∈ dom (active ds)) /\
  (k ∈ dom (inactive (filed now d ds)) <-> k ∈ dom (inactive ds)).
Proof.
  intros H. unfold filed. destruct (withinThirtySeconds now d); cbn;
    rewrite dom_setKey, dom_removeKey; set_solver.
Qed.

Lemma filedAll_other now l ds k :
  k ∉ (id <$> l) ->
  (k ∈ dom (active (filedAll now l ds)) <-> k ∈ dom (active ds)) /\
  (k ∈ dom (inactive (filedAll now l ds)) <-> k ∈ dom (inactive ds)).
Proof.
  revert ds. induction l as [|d l IH]; intros ds H; [done|].
  rewrite fmap_cons, not_elem_of_cons in H. destruct H as [H1 H2].
  cbn. destruct (IH (filed now d ds) H2) as [-> ->].
  by apply filed_other.
Qed.

Lemma filed_self now d ds :
  id d <> "__proto__"%string ->
  if withinThirtySeconds now d
  then (id d ∈ dom (active (filed now d ds))) /\
       (id d ∉ dom (inactive (filed now d ds)))
  else (id d ∉ dom (active (filed now d ds))) /\
       (id d ∈ dom (inactive (filed now d ds))).
Proof.
  intros Hne. unfold filed. destruct (withinThirtySeconds now d); cbn;
    rewrite dom_setKey, dom_removeKey; set_solver.
Qed.

Lemma filedAll_member now l ds d :
  NoDup (id <$> l) -> d ∈ l -> id d <> "__proto__"%string ->
  if withinThirtySeconds now d
  then (id d ∈ dom (active (filedAll now l ds))) /\
       (id d ∉ dom (inactive (filedAll now l ds)))
  else (id d ∉ dom (active (filedAll now l ds))) /\
       (id d ∈ dom (inactive (filedAll now l ds))).
Proof.
  revert ds. induction l as [|d0 l IH]; intros ds Hnd Hd Hne;
    [by apply elem_of_nil in Hd|].
  rewrite fmap_cons in Hnd. apply NoDup_cons in Hnd as [Hd0 Hnd].
  cbn. apply elem_of_cons in Hd as [->|Hd]; [|by apply IH].
  destruct (filedAll_other now l (filed now d0 ds) (id d0) Hd0) as [Ha Hi].
  pose proof (filed_self now d0 ds Hne) as Hs.
  destruct (withinThirtySeconds now d0); rewrite Ha, Hi; exact Hs.
Qed.

Lemma processDeviceData_filed now l st st' :
  processDeviceData now (Some l) st = Returned st' ->
  deviceStatus st' = filedAll now l (deviceStatus st).
Proof.
  intros H.
  destruct (processDeviceData_Returned now l st st' H)
    as (l' & ds & m & Hp & _ & ->).
  pose proof (processDevices_filed now st l (deviceStatus st) (deviceMarkers st))
    as Hf.
  by rewrite Hp in Hf.
Qed.

Lemma processDeviceData_filed_some now l st :
  exists l0, deviceStatus (stateOf (processDeviceData now (Some l) st))
             = filedAll now l0 (deviceStatus st).
Proof.
  destruct (processDeviceData now (Some l) st) as [st'|e st'] eqn:E.
  - exists l. by apply processDeviceData_filed.
  - unfold processDeviceData in E.
    pose proof (processDevices_filed now st l (deviceStatus st) (deviceMarkers st))
      as Hf.
    destruct (processDevices now st l (deviceStatus st) (deviceMarkers st))
      as [[[l' ds] m]|[ds m]]; [done|].
    destruct Hf as [l0 ->]. injection E as _ <-. by exists l0.
Qed.

End TrackingAgain.




(** ** Devices without a location, on every path *)

Section WithoutLocationAgain.

Lemma stampActive_elem_of ids l d' :
  d' ∈ stampActive ids l ->
  exists d, d ∈ l /\ d' = set_isActive (bool_decide (id d ∈ ids)) d.
Proof.
  unfold stampActive. rewrite list_elem_of_In, in_map_iff.
  intros (d & <- & Hd). exists d. by rewrite list_elem_of_In.
Qed.

Lemma updateDeviceList_elem_of st d :
  d ∈ currentDevices (updateDeviceList st) <-> d ∈ currentDevices st.
Proof. by rewrite (updateDeviceList_currentDevices st). Qed.

Lemma ws_onmessage_without_location now data st d' :
  d' ∈ currentDevices (ws_onmessage now data st).1 -> location d' = None ->
  exists d, d ∈ devices data /\ id d' = id d /\ location d = None /\
            insideGeofence d' = insideGeofence d.
Proof.
  unfold ws_onmessage. cbv zeta.
  change (currentDevices (with_currentDevices (devices data) st))
    with (devices data).
  set (tr := trackDevices now _ _).
  set (st2 := with_deviceStatus _ _).
  set (st3 := updateDeviceList st2).
  set (st4 := if mapInitialized st3 && leafletMap st3 then _ else _).
  intros Hd' Hl.
  assert (forall x, x ∈ currentDevices st4 -> location x = None ->
                    x ∈ stampActive (activeDeviceIds tr) (devices data)) as H4.
  { intros x Hx Hlx.
    assert (x ∈ currentDevices st3) as H3.
    { subst st4. destruct (mapInitialized st3 && leafletMap st3); [|done].
      by apply updateMarkers_without_location. }
    exact (proj1 (updateDeviceList_elem_of st2 x) H3). }
  clearbody st4.
  assert (d' ∈ currentDevices st4) as Hin.
  { destruct (monitoring_station data) as [gps|].
    - pose proof (updateStation_frame gps st4) as (_ & Hc & _).
      cbv zeta in Hc.
      destruct (updateStation gps st4) as [st5 eff]. cbn [fst snd] in *.
      rewrite <- Hc.
      destruct (bool_decide (devices data = [])); [done|].
      by apply updateMarkers_without_location.
    - cbn [fst snd] in Hd'.
      destruct (bool_decide (devices data = [])); [done|].
      by apply updateMarkers_without_location. }
  apply H4 in Hin; [|done].
  apply stampActive_elem_of in Hin as (d & Hd & ->).
  exists d. by repeat split.
Qed.

Lemma processDevice_sameFlag now st d ds m d' ds' m' :
  processDevice now st d ds m = inl (d', ds', m') -> sameFlag d d'.
Proof.
  unfold processDevice, sameFlag.
  destruct (geofenceCircle st); [|by intros [= <- _ _]].
  destruct (leafletMap st); [|by intros [= <- _ _]].
  cbn [location set_isActive].
  destruct (location d) as [l|] eqn:El; [|done].
  destruct (latLngOf l); [|done]. intros [= <- _ _].
  cbn. by rewrite El.
Qed.

Lemma processDevices_sameFlag now st l ds m l' ds' m' :
  processDevices now st l ds m = inl (l', ds', m') ->
  Forall2 sameFlag l l'.
Proof.
  revert ds m l' ds' m'. induction l as [|d l IH]; intros ds m l' ds' m'.
  - cbn. intros [= <- _ _]. constructor.
  - cbn [processDevices].
    destruct (processDevice now st d ds m) as [[[d' ds1] m1]|[d1 ds1]] eqn:Ed;
      [|done].
    destruct (processDevices now st l ds1 m1) as [[[l1 ds2] m2]|e] eqn:El;
      [|done].
    intros [= <- _ _]. constructor.
    + by apply (processDevice_sameFlag now st d ds m d' ds1 m1).
    + by apply (IH ds1 m1 l1 ds2 m2).
Qed.

Lemma processDeviceData_without_location now l st st' d' :
  processDeviceData now (Some l) st = Returned st' ->
  d' ∈ currentDevices st' -> location d' = None ->
  exists d, d ∈ l /\ id d' = id d /\ location d = None /\
            insideGeofence d' = insideGeofence d.
Proof.
  unfold processDeviceData.
  destruct (processDevices now st l (deviceStatus st) (deviceMarkers st))
    as [[[l' ds] m]|[ds m]] eqn:Hp; [|done].
  intros [= <-] Hd' Hl.
  pose proof (processDevices_sameFlag _ _ _ _ _ _ _ _ Hp) as Hf.
  set (st1 := with_currentDevices l' _) in *.
  assert (d' ∈ l') as Hin.
  { assert (d' ∈ currentDevices (updateDeviceList st1)) as H2.
    { destruct (mapInitialized (updateDeviceList st1)); [|done].
      by apply updateMarkers_without_location. }
    exact (proj1 (updateDeviceList_elem_of st1 d') H2). }
  apply list_elem_of_lookup in Hin as [i Hi].
  destruct (Forall2_lookup_r _ _ _ _ _ Hf Hi) as (d & Hd & (Hid & Hloc & Hfl)).
  exists d. rewrite Hl in Hloc.
  repeat split; [by eapply list_elem_of_lookup_2|done|done|by apply Hfl].
Qed.

Lemma toggleGeofence_without_location st d' :
  d' ∈ currentDevices (toggleGeofence st) -> location d' = None ->
  d' ∈ currentDevices st.
Proof.
  unfold toggleGeofence. destruct (geofenceCircle st) as [c|]; [|done].
  intros H Hl. by apply checkDevicesAgainstGeofence_without_location in H.
Qed.

Lemma setGeofenceAtPosition_without_location latlng st d' :
  d' ∈ currentDevices (setGeofenceAtPosition latlng st) -> location d' = None ->
  d' ∈ currentDevices st.
Proof.
  unfold setGeofenceAtPosition. intros H Hl.
  by apply checkDevicesAgainstGeofence_without_location in H.
Qed.

End WithoutLocationAgain.



(** ** The whitelist flag after an add, in list and on the map *)

Section WhitelistVisible.

Lemma updateFound_ids k (f : Device -> Device) (l : list Device) :
  (forall d, id (f d) = id d) -> id <$> updateFound k f l = id <$> l.
Proof.
  intros Hf. induction l as [|d l IH]; [done|].
  cbn [updateFound]. case_bool_decide; rewrite !fmap_cons.
  - by rewrite Hf.
  - by rewrite IH.
Qed.

End WhitelistVisible.

(** C8.  When the [POST] of [addToWhitelist] for a listed device comes back
    with a 2xx status and a body that parses as JSON, the state the handler
    leaves behind already shows the device as whitelisted: a record with
    that id and [whitelisted = true] is in [currentDevices] and in the
    rendered list; when ids do not repeat every record with that id, in
    both, has [whitelisted = true]; and on an initialized map, if the device
    has a location in range and its id is not a name plain objects inherit,
    its marker has been redrawn green at its coordinates. *)
Theorem addToWhitelist_flag_visible form status body st :
  deviceId form <> ""%string ->
  deviceId form ∈ (id <$> currentDevices st) ->
  ok status = true -> parses body = true ->
  let st' := (addToWhitelist form (Response status body) st).1 in
  (exists d', d' ∈ currentDevices st' /\ id d' = deviceId form /\
              whitelisted d' = true) /\
  (exists d', d' ∈ deviceList st' /\ id d' = deviceId form /\
              whitelisted d' = true) /\
  (NoDup (id <$> currentDevices st) ->
   forall d', (d' ∈ currentDevices st' \/ d' ∈ deviceList st') ->
              id d' = deviceId form -> whitelisted d' = true) /\
  (leafletMap st = true -> mapInitialized st = true ->
   NoDup (id <$> currentDevices st) ->
   deviceId form ∉ objectPrototypeNames ->
   forall d l, d ∈ currentDevices st -> id d = deviceId form ->
               location d = Some l ->
               validCoordinates (coordinates l) = true ->
               deviceMarkers st' !! deviceId form
               = Some (mkMarker (coordinates l) green (negb (isActive d)))).
Proof.
  intros Hne Hin Hok Hj st'. subst st'.
  rewrite addToWhitelist_success by done. cbn [fst].
  set (f := fun d => set_name_type (deviceName form) (deviceType form)
                       (set_whitelisted true d)).
  set (l1 := updateFound (deviceId form) f (currentDevices st)).
  set (st1 := with_currentDevices l1 st).
  destruct (refreshViews_spec st1) as [Hv Hl]. simpl in Hv, Hl.
  destruct (updateFound_found (deviceId form) f _ Hin) as (d & Hd & Hid & Hfd).
  fold l1 in Hfd.
  assert (Hrender : forall x, x ∈ l1 -> whitelisted x = true ->
                              x ∈ deviceList (refreshViews st1)).
  { intros x Hx Hw. rewrite Hl, sortDevices_elem_of.
    destruct (showWhitelistedOnly st); [|done].
    rewrite list_elem_of_In, filter_In, <- list_elem_of_In. by split. }
  split; [|split; [|split]].
  - destruct (viewOf_elem_of_inv _ _ _ Hv Hfd) as (d' & Hd' & Hi' & _ & _ & _ & Hw & _).
    exists d'. by rewrite Hi', Hw.
  - exists (f d). split; [by apply Hrender|done].
  - intros Hnd d' Hd' Hid'.
    assert (exists x, x ∈ l1 /\ id x = id d' /\ whitelisted x = whitelisted d')
      as (x & Hx & Hix & <-).
    { destruct Hd' as [Hd'|Hd'].
      - destruct (viewOf_elem_of _ _ _ Hv Hd') as (x & Hx & Hi' & _ & _ & _ & Hw & _).
        by exists x.
      - exists d'. split; [|done]. rewrite Hl, sortDevices_elem_of in Hd'.
        destruct (showWhitelistedOnly st); [|done].
        rewrite list_elem_of_In, filter_In, <- list_elem_of_In in Hd'. tauto. }
    destruct (updateFound_NoDup (deviceId form) f _ x (fun _ => eq_refl) Hnd Hx)
      as (d0 & _ & ->); [congruence|done].
  - intros Hm Hi Hnd Hp d0 l Hd0 Hid0 Hloc Hval.
    assert (d = d0) as -> by (apply (NoDup_id_inj (currentDevices st)); congruence).
    set (st2 := updateDeviceList st1).
    destruct (updateDeviceList_frame st1) as (_ & _ & _ & _ & M2 & I2 & _).
    fold st2 in M2, I2. cbn in M2, I2. rewrite Hm in M2. rewrite Hi in I2.
    assert (refreshViews st1 = updateMarkers st2) as ->.
    { unfold refreshViews. fold st2. by rewrite M2, I2. }
    pose proof (updateDeviceList_currentDevices st1) as Hperm. fold st2 in Hperm.
    assert (NoDup (id <$> currentDevices st2)) as Hnd2.
    { rewrite Hperm. cbn. unfold l1. by rewrite updateFound_ids. }
    assert (f d0 ∈ currentDevices st2) as Hin2 by (by rewrite Hperm).
    pose proof (updateMarkers_marker st2 (f d0) l M2 I2 Hnd2 Hin2 Hloc Hval) as Hmk.
    cbn [id f set_name_type set_whitelisted] in Hmk.
    rewrite Hid0 in Hmk. rewrite Hmk by (by apply blocked_plain).
    f_equal. by rewrite (markerFor_placed st2 (f d0) l Hloc Hval).
Qed.

Lemma addToWhitelist_flag_visible_witness :
  let form := mkForm "a" "My Phone" "LTE" in
  let st := with_currentDevices [deviceAtOrigin "a" 0; exampleDevice "b" 0]
              (initializeMap initialState) in
  (deviceId form <> ""%string /\ deviceId form ∈ (id <$> currentDevices st) /\
   ok 200 = true /\ parses (Json None) = true) /\
  let st' := (addToWhitelist form (Response 200 (Json None)) st).1 in
  (exists d', d' ∈ currentDevices st' /\ id d' = deviceId form /\
              whitelisted d' = true) /\
  (exists d', d' ∈ deviceList st' /\ id d' = deviceId form /\
              whitelisted d' = true) /\
  deviceMarkers st' !! "a" = Some (mkMarker (0%R, 0%R) green true).
Proof.
  intros form st.
  assert (H1 : deviceId form <> ""%string) by discriminate.
  assert (H2 : deviceId form ∈ (id <$> currentDevices st)) by (simpl; left).
  assert (NoDup (id <$> currentDevices st)) as Hnd.
  { apply (bool_decide_unpack _). vm_compute. reflexivity. }
  split; [by repeat split|].
  destruct (addToWhitelist_flag_visible form 200 (Json None) st H1 H2 eq_refl eq_refl)
    as (Ha & Hb & _ & Hc).
  split; [exact Ha|]. split; [exact Hb|].
  apply (Hc eq_refl eq_refl Hnd plain_a (deviceAtOrigin "a" 0) (LatLng 0 0)).
  - simpl. left.
  - done.
  - done.
  - apply validCoordinates_origin.
Defined.
